(** * ExpApp: the financial computation and state-reconciliation core

    A shallow embedding of the TypeScript sources of the household finance
    tracker, and the properties its specification states about them.

    The repository holds two near-duplicate implementations of one feature
    set.  They are kept apart here, as they are in the sources:

    - the [app/] variant: [app/types.ts], [app/utils.ts], [app/storage.ts],
      [pages/Dashboard.tsx], [pages/Loans.tsx] (modules [AppTypes],
      [AppUtils], [AppStorage], [Dashboard], [LoansPage]);
    - the root variant: [types.ts], [utils.ts], [storage.ts], [App.tsx]
      (modules [RootTypes], [RootUtils], [RootStorage], [RootApp]).

    A JavaScript [number] is an IEEE-754 binary64 value: it is modelled by
    Rocq's primitive [float], whose operations are the binary64 ones
    (round to nearest, ties to even).  The built-ins the sources call are
    in module [JS]; [Math.pow] and [JSON.parse], whose results the
    language leaves to the engine or which read arbitrary text, are
    parameters of the functions that call them.  JSON values and object
    spread are in module [Json]; the remote table the transaction sync
    writes to is in module [Remote]; the vocabulary of the roundings
    that the operations on doubles perform is in module [Binary64]. *)

From Stdlib Require Import ZArith Bool List String Ascii Floats Lia.
From stdpp Require Import gmap strings.
Import ListNotations.

(* ===================================================================== *)
(** * Part I: the embedding *)
(* ===================================================================== *)

(** ** The JavaScript built-ins the sources call *)

Module JS.

#[local] Open Scope float_scope.

(** [Number.EPSILON], the gap between 1 and the next double: 2^-52. *)
Definition EPSILON : float := 0x1p-52.

(** 2^52: from this magnitude on every double is an integer. *)
Definition two52 : float := 0x1p52.

(** [isFinite(n)] on a number: neither NaN nor an infinity. *)
Definition isFinite (n : float) : bool := is_finite n.

(** The largest integer not above [a], for [0 <= a < 2^52].  Adding and
    removing 2^52 rounds [a] to the nearest integer (ties to even),
    exactly; one comparison turns that into the floor. *)
Definition floor_small (a : float) : float :=
  let t := (a + two52) - two52 in
  if a <? t then t - 1 else t.

(** [Math.round(x)] (ECMA-262, 21.3.2.28): [x] itself when it is NaN, an
    infinity or already integral; otherwise the integer closest to [x],
    the one nearer to +infinity on a tie; the result is -0 when [x] is
    negative and rounds to zero.  With [a = |x| < 2^52], [fl] its floor
    and [d = a - fl] its fraction (an exact subtraction): a non-negative
    [x] goes up from [d >= 1/2] on, a negative [x] goes away from zero
    only when [d > 1/2]. *)
Definition Math_round (x : float) : float :=
  if is_nan x || is_infinity x || (two52 <=? abs x) then x
  else
    let a := abs x in
    let fl := floor_small a in
    let d := a - fl in
    if get_sign x
    then - (if 0.5 <? d then fl + 1 else fl)
    else (if 0.5 <=? d then fl + 1 else fl).

(** [!n] on an optional number: true of [undefined], of both zeros and
    of NaN. *)
Definition falsy (n : option float) : bool :=
  match n with
  | None => true
  | Some v => is_zero v || is_nan v
  end.

(** [a ?? b] with [null]/[undefined] as [None]. *)
Definition nullish {A : Type} (a : option A) (b : A) : A :=
  match a with
  | Some v => v
  | None => b
  end.

(** The integer [k] as a double (exact below 2^53). *)
Fixpoint pos2float (p : positive) : float :=
  match p with
  | xH => 1
  | xO q => 2 * pos2float q
  | xI q => 2 * pos2float q + 1
  end.

Definition Z2float (k : Z) : float :=
  match k with
  | Z0 => 0
  | Zpos p => pos2float p
  | Zneg p => - pos2float p
  end.

(** [String(n)] for a non-negative integer, and [s.padStart(2, "0")]. *)
Definition digit_char (d : nat) : ascii := ascii_of_nat (48 + d).

Fixpoint dec_digits (fuel n : nat) (acc : string) : string :=
  match fuel with
  | O => acc
  | S fuel' =>
      let acc' := String (digit_char (n mod 10)) acc in
      if Nat.ltb n 10 then acc' else dec_digits fuel' (n / 10) acc'
  end.

Definition String_of_nat (n : nat) : string := dec_digits (S n) n EmptyString.

Definition padStart2 (s : string) : string :=
  match s with
  | String c EmptyString => String "0"%char s
  | _ => s
  end.

End JS.

(** ** [app/types.ts] *)

Module AppTypes.

Inductive Currency := GBP | EUR | USD | INR.

Definition Currency_eqb (a b : Currency) : bool :=
  match a, b with
  | GBP, GBP | EUR, EUR | USD, USD | INR, INR => true
  | _, _ => false
  end.

Inductive PaymentFrequency := monthly | weekly | fortnightly | yearly.

Inductive LoanType :=
| Mortgage | Personal_loan | Car_loan | Education_loan | Credit_card | BNPL
| Other.

Inductive Owner := Self | Spouse | Joint.

Module Loan.
Record t := mk {
  id : string;
  name : string;
  type : LoanType;
  lender : option string;
  currency : Currency;
  principal : option float;
  annualRate : option float;
  termMonths : option float;
  emi : option float;
  paymentFrequency : PaymentFrequency;
  outstandingBalance : float;
  nextDueDate : option string;
  startDate : option string;
  notes : option string;
  autoCalcEmi : bool
}.
End Loan.

Module Asset.
Record t := mk {
  id : string;
  name : string;
  category : string;
  value : float;
  owner : Owner;
  valuationDate : string;
  currency : Currency;
  notes : option string
}.
End Asset.

Module Liability.
Record t := mk {
  id : string;
  name : string;
  category : string;
  outstanding : float;
  annualRate : option float;
  dueDate : option string;
  currency : Currency;
  notes : option string
}.
End Liability.

Module Snapshot.
Record t := mk {
  id : string;
  month : string;
  currency : Currency;
  assetsTotal : float;
  liabilitiesTotal : float;
  netWorth : float;
  createdAt : string
}.
End Snapshot.

Module AppState.
Record t := mk {
  currency : Currency;
  loans : list Loan.t;
  assets : list Asset.t;
  liabilities : list Liability.t;
  snapshots : list Snapshot.t
}.
End AppState.

End AppTypes.

(** ** [app/utils.ts] *)

Module AppUtils.
Import AppTypes.
#[local] Open Scope float_scope.

(** [Math.round((n + Number.EPSILON) * 100) / 100] *)
Definition round2 (n : float) : float :=
  JS.Math_round ((n + JS.EPSILON) * 100) / 100.

Definition monthlyEquivalent (amount : float) (freq : PaymentFrequency) : float :=
  if negb (JS.isFinite amount) then 0
  else
    match freq with
    | weekly => (amount * 52) / 12
    | fortnightly => (amount * 26) / 12
    | yearly => amount / 12
    | monthly => amount
    end.

Section WithPow.
(** [Math.pow] is "implementation-approximated" (ECMA-262, 21.3.2.26):
    its value is the engine's.  Everything below holds for any. *)
Variable Math_pow : float -> float -> float.

(** [null] is [None]. *)
Definition calcEmiMonthly (P annualRate n : option float) : option float :=
  if JS.falsy P || JS.falsy annualRate || JS.falsy n then None
  else
    match P, annualRate, n with
    | Some P, Some annualRate, Some n =>
        if (P <=? 0) || (n <=? 0) then None
        else
          let r := annualRate / 100 / 12 in
          if r =? 0 then Some (round2 (P / n))
          else
            let pow := Math_pow (1 + r) n in
            let emi := (P * r * pow) / (pow - 1) in
            Some (round2 emi)
    | _, _, _ => None
    end.

Definition getLoanMonthlyEmi (loan : Loan.t) : float :=
  let base :=
    if Loan.autoCalcEmi loan
    then JS.nullish
           (calcEmiMonthly (Loan.principal loan) (Loan.annualRate loan)
              (Loan.termMonths loan)) 0
    else JS.nullish (Loan.emi loan) 0 in
  round2 (monthlyEquivalent base (Loan.paymentFrequency loan)).
End WithPow.

(** [nums.reduce((a, b) => a + (isFinite(b) ? b : 0), 0)], rounded. *)
Definition sum (nums : list float) : float :=
  round2 (fold_left (fun a b => a + (if JS.isFinite b then b else 0)) nums 0).

(** A [Date] as far as [yyyyMm] and the snapshot read it. *)
Module Date.
Record t := mk {
  getFullYear : nat;
  getMonth : nat;          (* 0 .. 11 *)
  toISOString : string
}.
End Date.

Definition yyyyMm (date : Date.t) : string :=
  let y := JS.String_of_nat (Date.getFullYear date) in
  let m := JS.padStart2 (JS.String_of_nat (Date.getMonth date + 1)) in
  (y ++ "-" ++ m)%string.

End AppUtils.

(** ** [pages/Dashboard.tsx] *)

Module Dashboard.
Import AppTypes.
#[local] Open Scope float_scope.

Definition assetsTotal (state : AppState.t) : float :=
  AppUtils.sum
    (map Asset.value
       (List.filter
          (fun a => Currency_eqb (Asset.currency a) (AppState.currency state))
          (AppState.assets state))).

Definition liabilitiesTotal (state : AppState.t) : float :=
  let baseLiabs :=
    AppUtils.sum
      (map Liability.outstanding
         (List.filter
            (fun l => Currency_eqb (Liability.currency l) (AppState.currency state))
            (AppState.liabilities state))) in
  let loansOutstanding :=
    AppUtils.sum
      (map Loan.outstandingBalance
         (List.filter
            (fun l => Currency_eqb (Loan.currency l) (AppState.currency state))
            (AppState.loans state))) in
  AppUtils.sum [baseLiabs; loansOutstanding].

Definition netWorth (state : AppState.t) : float :=
  AppUtils.sum [assetsTotal state; - liabilitiesTotal state].

Definition monthlyEmiTotal (Math_pow : float -> float -> float)
    (state : AppState.t) : float :=
  AppUtils.sum
    (map (AppUtils.getLoanMonthlyEmi Math_pow)
       (List.filter
          (fun l => Currency_eqb (Loan.currency l) (AppState.currency state))
          (AppState.loans state))).

(** The key a snapshot is deduplicated by: [s.month === snap.month &&
    s.currency === snap.currency]. *)
Definition same_key (snap s : Snapshot.t) : bool :=
  String.eqb (Snapshot.month s) (Snapshot.month snap)
  && Currency_eqb (Snapshot.currency s) (Snapshot.currency snap).

(** [saveSnapshot]: [uid()] and [new Date()] are read from the
    environment ([fresh], [now]); the result is the state handed to
    [props.setState]. *)
Definition newSnapshot (fresh : string) (now : AppUtils.Date.t)
    (state : AppState.t) : Snapshot.t :=
  {| Snapshot.id := fresh;
     Snapshot.month := AppUtils.yyyyMm now;
     Snapshot.currency := AppState.currency state;
     Snapshot.assetsTotal := assetsTotal state;
     Snapshot.liabilitiesTotal := liabilitiesTotal state;
     Snapshot.netWorth := netWorth state;
     Snapshot.createdAt := AppUtils.Date.toISOString now |}.

Definition saveSnapshot (fresh : string) (now : AppUtils.Date.t)
    (state : AppState.t) : AppState.t :=
  let snap := newSnapshot fresh now state in
  let filtered :=
    List.filter (fun s => negb (same_key snap s)) (AppState.snapshots state) in
  {| AppState.currency := AppState.currency state;
     AppState.loans := AppState.loans state;
     AppState.assets := AppState.assets state;
     AppState.liabilities := AppState.liabilities state;
     AppState.snapshots := snap :: filtered |}.

End Dashboard.

(** ** [pages/Loans.tsx] *)

Module LoansPage.
Import AppTypes.

Definition with_loans (state : AppState.t) (loans : list Loan.t) : AppState.t :=
  {| AppState.currency := AppState.currency state;
     AppState.loans := loans;
     AppState.assets := AppState.assets state;
     AppState.liabilities := AppState.liabilities state;
     AppState.snapshots := AppState.snapshots state |}.

Definition upsertLoan (next : Loan.t) (state : AppState.t) : AppState.t :=
  let exists_ :=
    existsb (fun l => String.eqb (Loan.id l) (Loan.id next)) (AppState.loans state) in
  let loans :=
    if exists_
    then map (fun l => if String.eqb (Loan.id l) (Loan.id next) then next else l)
           (AppState.loans state)
    else next :: AppState.loans state in
  with_loans state loans.

Definition removeLoan (id : string) (state : AppState.t) : AppState.t :=
  with_loans state
    (List.filter (fun l => negb (String.eqb (Loan.id l) id)) (AppState.loans state)).

End LoansPage.

(** ** JSON values and object spread *)

Module Json.

(** What [JSON.parse] returns.  An object is a finite map from property
    names to values. *)
#[warnings="-register-all"]
Inductive t :=
| JNull
| JBool (b : bool)
| JNumber (n : float)
| JString (s : string)
| JArray (xs : list t)
| JObject (fields : gmap string t).

(** A JavaScript object, as the storage modules build and return it. *)
Abbreviation object := (gmap string t).

(** The own enumerable properties [{...v}] copies: those of an object;
    the indexed elements of an array; the indexed characters of a
    string (of an ASCII string: one character per code unit); none for
    [null], a boolean or a number. *)
Fixpoint indexed (i : nat) (xs : list t) : list (string * t) :=
  match xs with
  | [] => []
  | x :: xs' => (JS.String_of_nat i, x) :: indexed (S i) xs'
  end.

Fixpoint chars (s : string) : list t :=
  match s with
  | EmptyString => []
  | String c s' => JString (String c EmptyString) :: chars s'
  end.

Definition own_properties (v : t) : object :=
  match v with
  | JObject fields => fields
  | JArray xs => list_to_map (indexed 0 xs)
  | JString s => list_to_map (indexed 0 (chars s))
  | JNull | JBool _ | JNumber _ => ∅
  end.

(** [{...base, ...over}]: every property of [over], and those of [base]
    that [over] does not have. *)
Definition spread (base : object) (over : t) : object :=
  own_properties over ∪ base.

End Json.

(** ** [app/storage.ts] *)

Module AppStorage.
Import Json.

Definition KEY : string := "household_finance_v1".

Definition defaultState : object :=
  {[ "currency" := JString "GBP";
     "loans" := JArray [];
     "assets" := JArray [];
     "liabilities" := JArray [];
     "snapshots" := JArray [] ]}.

Section WithParse.
(** [JSON.parse]: [None] when it throws a [SyntaxError]. *)
Variable JSON_parse : string -> option Json.t.

(** [localStorage] is a finite map from keys to strings; [getItem]
    gives [null] ([None]) for an absent key. *)
Definition loadState (localStorage : gmap string string) : object :=
  match localStorage !! KEY with
  | None => defaultState
  | Some raw =>
      if String.eqb raw EmptyString then defaultState
      else
        match JSON_parse raw with
        | Some parsed => spread defaultState parsed
        | None => defaultState
        end
  end.
End WithParse.

End AppStorage.

(** ** [types.ts] (root variant) *)

Module RootTypes.

Inductive CurrencyCode := GBP | USD | EUR.

(** [paymentFrequency: "monthly"]: the one cadence a loan has here. *)
Inductive LoanFrequency := loan_monthly.

Inductive Frequency := monthly | weekly | annual.

Inductive Owner := Self | Spouse | Joint.

Module Loan.
Record t := mk {
  id : string;
  name : string;
  loanType : string;
  lender : string;
  startDate : string;
  principal : float;
  annualRate : float;
  termMonths : float;
  emi : option float;
  paymentFrequency : LoanFrequency;
  nextDueDate : string;
  outstandingBalance : float;
  currency : CurrencyCode;
  notes : option string;
  autoCalculate : bool
}.
End Loan.

Module Asset.
Record t := mk {
  id : string;
  name : string;
  category : string;
  value : float;
  owner : Owner;
  valuationDate : string;
  currency : CurrencyCode;
  notes : option string
}.
End Asset.

Module Liability.
Record t := mk {
  id : string;
  name : string;
  category : string;
  outstanding : float;
  annualRate : option float;
  dueDate : option string;
  currency : CurrencyCode;
  notes : option string
}.
End Liability.

Module Snapshot.
Record t := mk {
  id : string;
  month : string;
  assetsTotal : float;
  liabilitiesTotal : float;
  netWorth : float;
  createdAt : string
}.
End Snapshot.

Module BudgetItem.
Record t := mk {
  id : string;
  category : string;
  name : string;
  amount : float;
  frequency : Frequency
}.
End BudgetItem.

Module BudgetData.
Record t := mk {
  income : list BudgetItem.t;
  expenses : list BudgetItem.t
}.
End BudgetData.

Module ExpenseTransaction.
Record t := mk {
  id : string;
  date : string;
  category : string;
  description : string;
  amount : float
}.
End ExpenseTransaction.

(** [AppState] of [storage.ts]. *)
Module AppState.
Record t := mk {
  loans : list Loan.t;
  assets : list Asset.t;
  liabilities : list Liability.t;
  budget : BudgetData.t;
  expenseTransactions : list ExpenseTransaction.t;
  snapshots : list Snapshot.t
}.
End AppState.

End RootTypes.

(** ** [utils.ts] (root variant) *)

Module RootUtils.
Import RootTypes.
#[local] Open Scope float_scope.

Definition toMonthly (item : BudgetItem.t) : float :=
  match BudgetItem.frequency item with
  | monthly => BudgetItem.amount item
  | weekly => BudgetItem.amount item * 52 / 12
  | annual => BudgetItem.amount item / 12
  end.

Definition calculateEmi (Math_pow : float -> float -> float) (loan : Loan.t) : float :=
  let principal := Loan.principal loan in
  let monthlyRate := Loan.annualRate loan / 100 / 12 in
  let n := Loan.termMonths loan in
  if (principal <=? 0) || (monthlyRate <=? 0) || (n <=? 0) then 0
  else
    let factor := Math_pow (1 + monthlyRate) n in
    (principal * monthlyRate * factor) / (factor - 1).

(** [values.reduce((a, b) => a + b, 0)] *)
Definition sum (values : list float) : float :=
  fold_left (fun a b => a + b) values 0.

End RootUtils.

(** ** [storage.ts] (root variant) *)

Module RootStorage.
Import Json.

Definition STORAGE_KEY : string := "expapp.state.v1".

Definition emptyState : object :=
  {[ "loans" := JArray [];
     "assets" := JArray [];
     "liabilities" := JArray [];
     "budget" := JObject {[ "income" := JArray []; "expenses" := JArray [] ]};
     "expenseTransactions" := JArray [];
     "snapshots" := JArray [] ]}.

Section WithParse.
(** [JSON.parse]: [None] when it throws a [SyntaxError]. *)
Variable JSON_parse : string -> option Json.t.

Definition loadState (localStorage : gmap string string) : object :=
  match localStorage !! STORAGE_KEY with
  | None => emptyState
  | Some raw =>
      if String.eqb raw EmptyString then emptyState
      else
        match JSON_parse raw with
        | Some data => spread emptyState data
        | None => emptyState
        end
  end.
End WithParse.

End RootStorage.

(** ** The remote store ([supabaseClient]): table [expense_transactions]

    The remote database is outside the repository; the specification
    treats it as a keyed store with upsert, select and delete, and the
    README declares the table with [id] as its primary key: it is a finite
    map from ids to rows.  A request names what the client's query builder
    sends. *)

Module Remote.

Module Row.
Record t := mk {
  id : string;
  user_id : string;
  date : string;
  category : string;
  description : string;
  amount : float
}.
End Row.

Inductive Request :=
| Upsert (payload : list Row.t)
    (* .upsert(payload, { onConflict: "id" }) *)
| DeleteEq (user_id : string)
    (* .delete().eq("user_id", user_id) *)
| DeleteEqNotIn (user_id : string) (list_literal : string).
    (* .delete().eq("user_id", user_id).not("id", "in", list_literal) *)

Definition dquote : ascii := ascii_of_nat 34.
Definition backslash : ascii := ascii_of_nat 92.

(** The reader of an [in] list, [("a","b",...)]: items are double-quoted
    and separated by commas; inside the quotes a backslash takes the next
    character literally.  [None] when the text is not of that shape. *)
Fixpoint read_quoted (s : string) (item : string) : option (string * string) :=
  match s with
  | EmptyString => None
  | String c s' =>
      if Ascii.eqb c dquote then Some (item, s')
      else if Ascii.eqb c backslash then
        match s' with
        | EmptyString => None
        | String c' s'' => read_quoted s'' (item ++ String c' EmptyString)
        end
      else read_quoted s' (item ++ String c EmptyString)
  end.

Fixpoint read_items (fuel : nat) (s : string) : option (list string) :=
  match fuel with
  | O => None
  | S fuel' =>
      match s with
      | String c s' =>
          if Ascii.eqb c dquote then
            match read_quoted s' EmptyString with
            | Some (item, String d rest) =>
                if Ascii.eqb d ","%char then
                  option_map (cons item) (read_items fuel' rest)
                else if Ascii.eqb d ")"%char then
                  match rest with
                  | EmptyString => Some [item]
                  | _ => None
                  end
                else None
            | _ => None
            end
          else None
      | EmptyString => None
      end
  end.

Definition read_in_list (s : string) : option (list string) :=
  match s with
  | String c s' =>
      if Ascii.eqb c "("%char then
        match s' with
        | String d EmptyString => if Ascii.eqb d ")"%char then Some [] else None
        | _ => read_items (String.length s') s'
        end
      else None
  | EmptyString => None
  end.

Definition in_idsb (ids : list string) (id : string) : bool :=
  existsb (String.eqb id) ids.

(** Upsert on conflict [id]: each row of the payload, in order, takes the
    place of the row of its id, or is added. *)
Definition upsert (payload : list Row.t) (rows : gmap string Row.t)
    : gmap string Row.t :=
  fold_left (fun t row => <[Row.id row := row]> t) payload rows.

(** Modelled from the spec: the remote store behind [./supabaseClient]
    (neither the client module nor the database is in the sources).  What
    a request does to the table when the remote carries it out: an upsert
    keyed by the transaction identity; a delete of the rows of one user;
    a delete of the rows of one user whose [id] is not in the list (a row
    is stored under its [id]: [kv.1] is that column).  [None] when the
    remote rejects the request as malformed. *)
Definition carry_out (q : Request) (rows : gmap string Row.t)
    : option (gmap string Row.t) :=
  match q with
  | Upsert payload => Some (upsert payload rows)
  | DeleteEq u =>
      Some (filter (fun kv => Row.user_id kv.2 <> u) rows)
  | DeleteEqNotIn u literal =>
      match read_in_list literal with
      | Some ids =>
          Some (filter
                  (fun kv => ~ (Row.user_id kv.2 = u /\ in_idsb ids kv.1 = false))
                  rows)
      | None => None
      end
  end.

(** The remote: its table, the requests it has received, and the
    outcomes it is going to give ([Some msg]: the next request fails with
    that message and changes nothing; [None], or no entry: it is carried
    out). *)
Record t := mk {
  rows : gmap string Row.t;
  received : list Request;
  faults : list (option string)
}.

(** [await] of one request: the remote after it, and the [error] of the
    response. *)
Definition send (q : Request) (r : t) : t * option string :=
  let fault := match faults r with f :: _ => f | [] => None end in
  let rest := match faults r with _ :: fs => fs | [] => [] end in
  match fault with
  | Some msg => (mk (rows r) (received r ++ [q]) rest, Some msg)
  | None =>
      match carry_out q (rows r) with
      | Some rows' => (mk rows' (received r ++ [q]) rest, None)
      | None => (mk (rows r) (received r ++ [q]) rest, Some "malformed request")
      end
  end.

End Remote.

(** ** [App.tsx] (root variant) *)

Module RootApp.
Import RootTypes.
#[local] Open Scope float_scope.

(** [loan.emi || 0] *)
Definition emi_or_zero (emi : option float) : float :=
  if JS.falsy emi then 0 else JS.nullish emi 0.

(** The term of one loan in [loansMonthlyEmi]. *)
Definition loanEmi (Math_pow : float -> float -> float) (loan : Loan.t) : float :=
  if Loan.autoCalculate loan
  then RootUtils.calculateEmi Math_pow loan
  else emi_or_zero (Loan.emi loan).

Definition loansMonthlyEmi (Math_pow : float -> float -> float)
    (state : AppState.t) : float :=
  RootUtils.sum (map (loanEmi Math_pow) (AppState.loans state)).

Definition assetsTotal (state : AppState.t) : float :=
  RootUtils.sum (map Asset.value (AppState.assets state)).

Definition liabilitiesTotal (state : AppState.t) : float :=
  RootUtils.sum (map Liability.outstanding (AppState.liabilities state))
  + RootUtils.sum (map Loan.outstandingBalance (AppState.loans state)).

Definition netWorth (state : AppState.t) : float :=
  assetsTotal state - liabilitiesTotal state.

Definition budgetMonthlyIncome (state : AppState.t) : float :=
  RootUtils.sum (map RootUtils.toMonthly (BudgetData.income (AppState.budget state))).

Definition budgetMonthlyExpense (Math_pow : float -> float -> float)
    (state : AppState.t) : float :=
  RootUtils.sum (map RootUtils.toMonthly (BudgetData.expenses (AppState.budget state)))
  + loansMonthlyEmi Math_pow state.

Definition budgetLeftOver (Math_pow : float -> float -> float)
    (state : AppState.t) : float :=
  budgetMonthlyIncome state - budgetMonthlyExpense Math_pow state.

(** [defaultSnapshot]: [uid()] is [fresh], [new Date().toISOString()] is
    [stamp]. *)
Definition defaultSnapshot (fresh stamp : string) (month : string)
    (assetsTotal liabilitiesTotal : float) : Snapshot.t :=
  {| Snapshot.id := fresh;
     Snapshot.month := month;
     Snapshot.assetsTotal := assetsTotal;
     Snapshot.liabilitiesTotal := liabilitiesTotal;
     Snapshot.netWorth := assetsTotal - liabilitiesTotal;
     Snapshot.createdAt := stamp |}.

Definition with_snapshots (state : AppState.t) (snapshots : list Snapshot.t)
    : AppState.t :=
  {| AppState.loans := AppState.loans state;
     AppState.assets := AppState.assets state;
     AppState.liabilities := AppState.liabilities state;
     AppState.budget := AppState.budget state;
     AppState.expenseTransactions := AppState.expenseTransactions state;
     AppState.snapshots := snapshots |}.

(** The month key of [saveSnapshot], written out in place in the source. *)
Definition month_of (now : AppUtils.Date.t) : string :=
  (JS.String_of_nat (AppUtils.Date.getFullYear now) ++ "-"
   ++ JS.padStart2 (JS.String_of_nat (AppUtils.Date.getMonth now + 1)))%string.

(** [saveSnapshot], the local part: the state handed to [update].  (The
    remote upsert of the snapshot row that follows does not touch it.) *)
Definition saveSnapshot (fresh stamp : string) (now : AppUtils.Date.t)
    (state : AppState.t) : AppState.t :=
  let month := month_of now in
  let existing :=
    find (fun item => String.eqb (Snapshot.month item) month) (AppState.snapshots state) in
  let snapshot :=
    defaultSnapshot fresh stamp month (assetsTotal state) (liabilitiesTotal state) in
  let updated :=
    match existing with
    | Some _ =>
        map (fun item => if String.eqb (Snapshot.month item) month then snapshot else item)
          (AppState.snapshots state)
    | None => snapshot :: AppState.snapshots state
    end in
  with_snapshots state updated.

(** [items.map((tx) => `"${tx.id}"`).join(",")] *)
Fixpoint join (sep : string) (parts : list string) : string :=
  match parts with
  | [] => EmptyString
  | [p] => p
  | p :: rest => (p ++ sep ++ join sep rest)%string
  end.

Definition quoted (s : string) : string :=
  (String Remote.dquote EmptyString ++ s ++ String Remote.dquote EmptyString)%string.

Definition ids_literal (items : list ExpenseTransaction.t) : string :=
  join "," (map (fun tx => quoted (ExpenseTransaction.id tx)) items).

Definition payload_of (userId : string) (items : list ExpenseTransaction.t)
    : list Remote.Row.t :=
  map (fun tx =>
         {| Remote.Row.id := ExpenseTransaction.id tx;
            Remote.Row.user_id := userId;
            Remote.Row.date := ExpenseTransaction.date tx;
            Remote.Row.category := ExpenseTransaction.category tx;
            Remote.Row.description := ExpenseTransaction.description tx;
            Remote.Row.amount := ExpenseTransaction.amount tx |})
    items.

(** [saveTransactionsToSupabase]: the remote and the client's
    "last error message" slot ([authError]) are threaded through. *)
Definition saveTransactionsToSupabase (userId : option string)
    (items : list ExpenseTransaction.t)
    (remote : Remote.t) (authError : option string) : Remote.t * option string :=
  match userId with
  | None => (remote, authError)                                (* !userId *)
  | Some uid =>
      if String.eqb uid EmptyString then (remote, authError)   (* !userId *)
      else
        match items with
        | [] =>
            let '(remote1, error) := Remote.send (Remote.DeleteEq uid) remote in
            match error with
            | Some message => (remote1, Some message)
            | None => (remote1, authError)
            end
        | _ :: _ =>
            let payload := payload_of uid items in
            let '(remote1, upsertError) := Remote.send (Remote.Upsert payload) remote in
            match upsertError with
            | Some message => (remote1, Some message)
            | None =>
                let ids := ids_literal items in
                let '(remote2, deleteError) :=
                  Remote.send (Remote.DeleteEqNotIn uid ("(" ++ ids ++ ")")%string) remote1 in
                match deleteError with
                | Some message => (remote2, Some message)
                | None => (remote2, authError)
                end
            end
        end
  end.

End RootApp.

(** ** Sample data, used to exercise the definitions *)

Module Samples.
#[local] Open Scope float_scope.

Definition loan (id : string) : AppTypes.Loan.t :=
  {| AppTypes.Loan.id := id;
     AppTypes.Loan.name := "Car";
     AppTypes.Loan.type := AppTypes.Car_loan;
     AppTypes.Loan.lender := None;
     AppTypes.Loan.currency := AppTypes.GBP;
     AppTypes.Loan.principal := Some 12000;
     AppTypes.Loan.annualRate := Some 12;
     AppTypes.Loan.termMonths := Some 12;
     AppTypes.Loan.emi := Some 500;
     AppTypes.Loan.paymentFrequency := AppTypes.weekly;
     AppTypes.Loan.outstandingBalance := 9000;
     AppTypes.Loan.nextDueDate := None;
     AppTypes.Loan.startDate := None;
     AppTypes.Loan.notes := None;
     AppTypes.Loan.autoCalcEmi := false |}.

Definition app_state (loans : list AppTypes.Loan.t) : AppTypes.AppState.t :=
  {| AppTypes.AppState.currency := AppTypes.GBP;
     AppTypes.AppState.loans := loans;
     AppTypes.AppState.assets := [];
     AppTypes.AppState.liabilities := [];
     AppTypes.AppState.snapshots := [] |}.

(** A loan in auto-calculation mode. *)
Definition auto_loan (principal annualRate termMonths : float)
    (freq : AppTypes.PaymentFrequency) : AppTypes.Loan.t :=
  {| AppTypes.Loan.id := "loan-1";
     AppTypes.Loan.name := "Car";
     AppTypes.Loan.type := AppTypes.Car_loan;
     AppTypes.Loan.lender := None;
     AppTypes.Loan.currency := AppTypes.GBP;
     AppTypes.Loan.principal := Some principal;
     AppTypes.Loan.annualRate := Some annualRate;
     AppTypes.Loan.termMonths := Some termMonths;
     AppTypes.Loan.emi := None;
     AppTypes.Loan.paymentFrequency := freq;
     AppTypes.Loan.outstandingBalance := principal;
     AppTypes.Loan.nextDueDate := None;
     AppTypes.Loan.startDate := None;
     AppTypes.Loan.notes := None;
     AppTypes.Loan.autoCalcEmi := true |}.

(** The stored blob [{"assets":[{"value":100}]}], what [JSON.parse] makes
    of it, and a parser that knows this one text. *)
Definition one_asset_blob : string :=
  let q := String Remote.dquote EmptyString in
  ("{" ++ q ++ "assets" ++ q ++ ":[{" ++ q ++ "value" ++ q ++ ":100}]}")%string.

Definition one_asset_json : Json.t :=
  Json.JObject
    {[ "assets" := Json.JArray [Json.JObject {[ "value" := Json.JNumber 100 ]}] ]}.

Definition parse_one_asset (raw : string) : option Json.t :=
  if String.eqb raw one_asset_blob then Some one_asset_json else None.

Definition transaction (id : string) (amount : float) : RootTypes.ExpenseTransaction.t :=
  {| RootTypes.ExpenseTransaction.id := id;
     RootTypes.ExpenseTransaction.date := "2026-02-14";
     RootTypes.ExpenseTransaction.category := "Food";
     RootTypes.ExpenseTransaction.description := "Groceries";
     RootTypes.ExpenseTransaction.amount := amount |}.

(** A remote that holds one stale row of the user and answers every
    request. *)
Definition remote_with_stale_row : Remote.t :=
  {| Remote.rows :=
       {[ "old" := Remote.Row.mk "old" "user-1" "2026-01-02" "Fuel" "Petrol" 40 ]};
     Remote.received := [];
     Remote.faults := [] |}.

(** A loan of the root variant in auto-calculation mode. *)
Definition root_loan (principal annualRate termMonths : float) : RootTypes.Loan.t :=
  {| RootTypes.Loan.id := "loan-1";
     RootTypes.Loan.name := "Car";
     RootTypes.Loan.loanType := "Car loan";
     RootTypes.Loan.lender := "Bank";
     RootTypes.Loan.startDate := "2026-01-01";
     RootTypes.Loan.principal := principal;
     RootTypes.Loan.annualRate := annualRate;
     RootTypes.Loan.termMonths := termMonths;
     RootTypes.Loan.emi := None;
     RootTypes.Loan.paymentFrequency := RootTypes.loan_monthly;
     RootTypes.Loan.nextDueDate := "2026-02-01";
     RootTypes.Loan.outstandingBalance := principal;
     RootTypes.Loan.currency := RootTypes.GBP;
     RootTypes.Loan.notes := None;
     RootTypes.Loan.autoCalculate := true |}.

Definition asset (value : float) : AppTypes.Asset.t :=
  {| AppTypes.Asset.id := "asset-1";
     AppTypes.Asset.name := "Cash";
     AppTypes.Asset.category := "Cash & bank";
     AppTypes.Asset.value := value;
     AppTypes.Asset.owner := AppTypes.Self;
     AppTypes.Asset.valuationDate := "2026-02-01";
     AppTypes.Asset.currency := AppTypes.GBP;
     AppTypes.Asset.notes := None |}.

Definition liability (outstanding : float) : AppTypes.Liability.t :=
  {| AppTypes.Liability.id := "liability-1";
     AppTypes.Liability.name := "Card";
     AppTypes.Liability.category := "Credit card";
     AppTypes.Liability.outstanding := outstanding;
     AppTypes.Liability.annualRate := None;
     AppTypes.Liability.dueDate := None;
     AppTypes.Liability.currency := AppTypes.GBP;
     AppTypes.Liability.notes := None |}.

Definition balance_sheet (assets : list AppTypes.Asset.t)
    (liabilities : list AppTypes.Liability.t) : AppTypes.AppState.t :=
  {| AppTypes.AppState.currency := AppTypes.GBP;
     AppTypes.AppState.loans := [];
     AppTypes.AppState.assets := assets;
     AppTypes.AppState.liabilities := liabilities;
     AppTypes.AppState.snapshots := [] |}.

Definition feb_2026 : AppUtils.Date.t :=
  {| AppUtils.Date.getFullYear := 2026;
     AppUtils.Date.getMonth := 1;
     AppUtils.Date.toISOString := "2026-02-14T09:30:00.000Z" |}.

Definition root_snapshot (id month : string) (assets liabilities : float)
    : RootTypes.Snapshot.t :=
  {| RootTypes.Snapshot.id := id;
     RootTypes.Snapshot.month := month;
     RootTypes.Snapshot.assetsTotal := assets;
     RootTypes.Snapshot.liabilitiesTotal := liabilities;
     RootTypes.Snapshot.netWorth := assets - liabilities;
     RootTypes.Snapshot.createdAt := "2026-01-01T00:00:00.000Z" |}.

Definition root_state (snapshots : list RootTypes.Snapshot.t) : RootTypes.AppState.t :=
  {| RootTypes.AppState.loans := [];
     RootTypes.AppState.assets := [];
     RootTypes.AppState.liabilities := [];
     RootTypes.AppState.budget :=
       {| RootTypes.BudgetData.income := []; RootTypes.BudgetData.expenses := [] |};
     RootTypes.AppState.expenseTransactions := [];
     RootTypes.AppState.snapshots := snapshots |}.

End Samples.

(** ** Words the statements below use *)

Module Vocabulary.
#[local] Open Scope float_scope.

(** The number of snapshots of a month in a list of the root variant. *)
Definition of_month (month : string) (l : list RootTypes.Snapshot.t) : nat :=
  length (List.filter (fun s => String.eqb (RootTypes.Snapshot.month s) month) l).

(** An addend as the summation helper of [app/utils.ts] counts it. *)
Definition finite_or_zero (b : float) : float :=
  if JS.isFinite b then b else 0.

(** [v / 100] is finite and is a fixed point of [round2], up to [==]. *)
Definition fixed_cents (v : float) : bool :=
  let y := v / 100 in is_finite y && (AppUtils.round2 y =? y).

(** [fixed_cents] of [v] and [-v], and of every number reached from [v]
    by at most [d] steps [v |-> 2 * v] or [v |-> 2 * v + 1]. *)
Fixpoint all_fixed (d : nat) (v : float) : bool :=
  fixed_cents v && fixed_cents (- v)
  && match d with
     | O => true
     | S d' => all_fixed d' (2 * v) && all_fixed d' (2 * v + 1)
     end.


(** An identity that can stand between double quotes as it is: it holds
    neither a double quote nor a backslash. *)
Fixpoint plain (s : string) : bool :=
  match s with
  | EmptyString => true
  | String c s' =>
      negb (Ascii.eqb c Remote.dquote) && negb (Ascii.eqb c Remote.backslash)
      && plain s'
  end.

End Vocabulary.

(** ** [pages/Loans.tsx]: the EMI total of the page header *)

Module LoansPageEmi.
Import AppTypes.
#[local] Open Scope float_scope.

(** [state.loans.filter(...).reduce((a, l) => a + getLoanMonthlyEmi(l), 0)] *)
Definition monthlyEmiTotal (Math_pow : float -> float -> float)
    (state : AppState.t) : float :=
  fold_left (fun a l => a + AppUtils.getLoanMonthlyEmi Math_pow l)
    (List.filter
       (fun l => Currency_eqb (Loan.currency l) (AppState.currency state))
       (AppState.loans state))
    0.

(** What the header shows: [round2(monthlyEmiTotal)]. *)
Definition shownEmiTotal (Math_pow : float -> float -> float)
    (state : AppState.t) : float :=
  AppUtils.round2 (monthlyEmiTotal Math_pow state).

End LoansPageEmi.

(** ** The forms: [LoanModal], [LiabilityModal], [AssetModal]

    A form holds what the user typed; [save] builds the record handed to
    the page's [upsert].  [uid()] is read from the environment ([fresh]);
    [String.prototype.trim] is a parameter. *)

Module Form.
#[local] Open Scope float_scope.

(** [x || undefined] and [x || 0] on a number; [s || undefined] and
    [s || fallback] on a string. *)
Definition number_or_undefined (x : float) : option float :=
  if JS.falsy (Some x) then None else Some x.

Definition number_or_zero (x : float) : float :=
  if JS.falsy (Some x) then 0 else x.

Definition text_or_undefined (s : string) : option string :=
  if String.eqb s EmptyString then None else Some s.

Definition text_or (s fallback : string) : string :=
  if String.eqb s EmptyString then fallback else s.

End Form.

Module LoanModal.
Import AppTypes.
#[local] Open Scope float_scope.

(** The [useState] cells of the form. *)
Record t := mk {
  name : string;
  type : LoanType;
  lender : string;
  outstanding : float;
  nextDueDate : string;
  paymentFrequency : PaymentFrequency;
  autoCalc : bool;
  principal : float;
  rate : float;
  termMonths : float;
  emi : float
}.

(** [calcEmiMonthly(principal, rate, termMonths)], shown as
    [calcPreview ?? 0]. *)
Definition calcPreview (Math_pow : float -> float -> float) (form : t)
    : option float :=
  AppUtils.calcEmiMonthly Math_pow
    (Some (principal form)) (Some (rate form)) (Some (termMonths form)).

Section WithTrim.
Variable String_trim : string -> string.

(** [save]: [initial] is [props.initial] ([None] when a loan is added). *)
Definition save (fresh : string) (initial : option Loan.t) (currency : Currency)
    (form : t) : Loan.t :=
  {| Loan.id := match initial with Some i => Loan.id i | None => fresh end;
     Loan.name := Form.text_or (String_trim (name form)) "Untitled loan";
     Loan.type := type form;
     Loan.lender := Form.text_or_undefined (String_trim (lender form));
     Loan.currency := currency;
     Loan.principal :=
       if autoCalc form then Form.number_or_undefined (principal form)
       else match initial with Some i => Loan.principal i | None => None end;
     Loan.annualRate :=
       if autoCalc form then Form.number_or_undefined (rate form)
       else match initial with Some i => Loan.annualRate i | None => None end;
     Loan.termMonths :=
       if autoCalc form then Form.number_or_undefined (termMonths form)
       else match initial with Some i => Loan.termMonths i | None => None end;
     Loan.emi :=
       if autoCalc form then None else Some (Form.number_or_zero (emi form));
     Loan.paymentFrequency := paymentFrequency form;
     Loan.outstandingBalance := Form.number_or_zero (outstanding form);
     Loan.nextDueDate := Form.text_or_undefined (nextDueDate form);
     Loan.startDate := None;
     Loan.notes := None;
     Loan.autoCalcEmi := autoCalc form |}.
End WithTrim.

End LoanModal.

(** ** [pages/Liabilities.tsx] *)

Module LiabilitiesPage.
Import AppTypes.

Definition with_liabilities (state : AppState.t) (liabilities : list Liability.t)
    : AppState.t :=
  {| AppState.currency := AppState.currency state;
     AppState.loans := AppState.loans state;
     AppState.assets := AppState.assets state;
     AppState.liabilities := liabilities;
     AppState.snapshots := AppState.snapshots state |}.

Definition upsert (l : Liability.t) (state : AppState.t) : AppState.t :=
  let exists_ :=
    existsb (fun x => String.eqb (Liability.id x) (Liability.id l))
      (AppState.liabilities state) in
  let liabilities :=
    if exists_
    then map (fun x => if String.eqb (Liability.id x) (Liability.id l) then l else x)
           (AppState.liabilities state)
    else l :: AppState.liabilities state in
  with_liabilities state liabilities.

Definition remove (id : string) (state : AppState.t) : AppState.t :=
  with_liabilities state
    (List.filter (fun x => negb (String.eqb (Liability.id x) id))
       (AppState.liabilities state)).

End LiabilitiesPage.

Module LiabilityModal.
Import AppTypes.

Record t := mk {
  name : string;
  category : string;
  outstanding : float;
  dueDate : string;
  annualRate : float
}.

Section WithTrim.
Variable String_trim : string -> string.

Definition save (fresh : string) (initial : option Liability.t)
    (currency : Currency) (form : t) : Liability.t :=
  {| Liability.id := match initial with Some i => Liability.id i | None => fresh end;
     Liability.name := Form.text_or (String_trim (name form)) "Untitled liability";
     Liability.category := category form;
     Liability.outstanding := Form.number_or_zero (outstanding form);
     Liability.annualRate := Form.number_or_undefined (annualRate form);
     Liability.dueDate := Form.text_or_undefined (dueDate form);
     Liability.currency := currency;
     Liability.notes := None |}.
End WithTrim.

End LiabilityModal.

(** ** [pages/Assets.tsx] *)

Module AssetsPage.
Import AppTypes.

Definition with_assets (state : AppState.t) (assets : list Asset.t) : AppState.t :=
  {| AppState.currency := AppState.currency state;
     AppState.loans := AppState.loans state;
     AppState.assets := assets;
     AppState.liabilities := AppState.liabilities state;
     AppState.snapshots := AppState.snapshots state |}.

Definition upsert (a : Asset.t) (state : AppState.t) : AppState.t :=
  let exists_ :=
    existsb (fun x => String.eqb (Asset.id x) (Asset.id a)) (AppState.assets state) in
  let assets :=
    if exists_
    then map (fun x => if String.eqb (Asset.id x) (Asset.id a) then a else x)
           (AppState.assets state)
    else a :: AppState.assets state in
  with_assets state assets.

Definition remove (id : string) (state : AppState.t) : AppState.t :=
  with_assets state
    (List.filter (fun x => negb (String.eqb (Asset.id x) id)) (AppState.assets state)).

End AssetsPage.

Module AssetModal.
Import AppTypes.

Record t := mk {
  name : string;
  category : string;
  owner : Owner;
  value : float;
  valuationDate : string
}.

Section WithTrim.
Variable String_trim : string -> string.

Definition save (fresh : string) (initial : option Asset.t)
    (currency : Currency) (form : t) : Asset.t :=
  {| Asset.id := match initial with Some i => Asset.id i | None => fresh end;
     Asset.name := Form.text_or (String_trim (name form)) "Untitled asset";
     Asset.category := category form;
     Asset.value := Form.number_or_zero (value form);
     Asset.owner := owner form;
     Asset.valuationDate := valuationDate form;
     Asset.currency := currency;
     Asset.notes := None |}.
End WithTrim.

End AssetModal.

(** ** [app/App.tsx]: the hash router *)

Module AppRouter.

(** [type Route = "/" | "/loans" | "/assets" | "/liabilities"] *)
Inductive Route := Home | Loans | Assets | Liabilities.

Definition path (r : Route) : string :=
  match r with
  | Home => "/"
  | Loans => "/loans"
  | Assets => "/assets"
  | Liabilities => "/liabilities"
  end.

(** [s.replace("#", "")]: the first ["#"] is taken out. *)
Fixpoint remove_first_hash (s : string) : string :=
  match s with
  | EmptyString => EmptyString
  | String c s' => if Ascii.eqb c "#"%char then s' else String c (remove_first_hash s')
  end.

(** [getRouteFromHash], [window.location.hash] being [hash]. *)
Definition getRouteFromHash (hash : string) : Route :=
  let h := remove_first_hash (if String.eqb hash EmptyString then "#/" else hash) in
  if String.eqb h "/loans" then Loans
  else if String.eqb h "/assets" then Assets
  else if String.eqb h "/liabilities" then Liabilities
  else Home.

(** The [href] of the navigation link to a route ([components/Layout.tsx]). *)
Definition href (r : Route) : string := ("#" ++ path r)%string.

End AppRouter.

(** ** [saveState] of the two storage modules

    [JSON.stringify] is a parameter; [setItem] puts the text under the
    module's key (a write that exceeds the storage quota throws: that is
    not modelled). *)

Module AppStorageSave.
Section WithStringify.
Variable JSON_stringify : Json.object -> string.

Definition saveState (state : Json.object) (localStorage : gmap string string)
    : gmap string string :=
  <[AppStorage.KEY := JSON_stringify state]> localStorage.
End WithStringify.
End AppStorageSave.

Module RootStorageSave.
Section WithStringify.
Variable JSON_stringify : Json.object -> string.

Definition saveState (state : Json.object) (localStorage : gmap string string)
    : gmap string string :=
  <[RootStorage.STORAGE_KEY := JSON_stringify state]> localStorage.
End WithStringify.
End RootStorageSave.

(** ** [App.tsx] (root variant): adding and removing entries *)

Module RootLists.
Import RootTypes.
#[local] Open Scope float_scope.

(** [defaultLoan()]: [uid()] is [fresh], [nowDate()] is [today]. *)
Definition defaultLoan (fresh today : string) : Loan.t :=
  {| Loan.id := fresh;
     Loan.name := EmptyString;
     Loan.loanType := EmptyString;
     Loan.lender := EmptyString;
     Loan.startDate := today;
     Loan.principal := 0;
     Loan.annualRate := 0;
     Loan.termMonths := 0;
     Loan.emi := Some 0;
     Loan.paymentFrequency := loan_monthly;
     Loan.nextDueDate := today;
     Loan.outstandingBalance := 0;
     Loan.currency := GBP;
     Loan.notes := Some EmptyString;
     Loan.autoCalculate := false |}.

Definition with_loans (state : AppState.t) (loans : list Loan.t) : AppState.t :=
  {| AppState.loans := loans;
     AppState.assets := AppState.assets state;
     AppState.liabilities := AppState.liabilities state;
     AppState.budget := AppState.budget state;
     AppState.expenseTransactions := AppState.expenseTransactions state;
     AppState.snapshots := AppState.snapshots state |}.

Definition addLoan (fresh today : string) (state : AppState.t) : AppState.t :=
  with_loans state (defaultLoan fresh today :: AppState.loans state).

(** [LoansView.removeLoan], handed to [handleLoansChange]. *)
Definition removeLoan (id : string) (state : AppState.t) : AppState.t :=
  with_loans state
    (List.filter (fun loan => negb (String.eqb (Loan.id loan) id)) (AppState.loans state)).

End RootLists.

(** ** [App.tsx] (root variant): [BudgetView] *)

Module BudgetView.
Import RootTypes.
#[local] Open Scope float_scope.

(** [keyof BudgetData] *)
Inductive ListKey := income | expenses.

Definition get (data : BudgetData.t) (listKey : ListKey) : list BudgetItem.t :=
  match listKey with
  | income => BudgetData.income data
  | expenses => BudgetData.expenses data
  end.

(** [{ ...data, [listKey]: next }] *)
Definition set (data : BudgetData.t) (listKey : ListKey) (next : list BudgetItem.t)
    : BudgetData.t :=
  match listKey with
  | income =>
      {| BudgetData.income := next; BudgetData.expenses := BudgetData.expenses data |}
  | expenses =>
      {| BudgetData.income := BudgetData.income data; BudgetData.expenses := next |}
  end.

Definition defaultBudgetItem (fresh : string) (listKey : ListKey) : BudgetItem.t :=
  {| BudgetItem.id := fresh;
     BudgetItem.category :=
       match listKey with income => "Salary" | expenses => "Household" end;
     BudgetItem.name := EmptyString;
     BudgetItem.amount := 0;
     BudgetItem.frequency := monthly |}.

Definition addItem (fresh : string) (listKey : ListKey) (data : BudgetData.t)
    : BudgetData.t :=
  set data listKey (defaultBudgetItem fresh listKey :: get data listKey).

Definition removeItem (listKey : ListKey) (id : string) (data : BudgetData.t)
    : BudgetData.t :=
  set data listKey
    (List.filter (fun item => negb (String.eqb (BudgetItem.id item) id))
       (get data listKey)).

(** [incomeTotal - expenseTotal - loansMonthlyEmi] *)
Definition leftOver (data : BudgetData.t) (loansMonthlyEmi : float) : float :=
  RootUtils.sum (map RootUtils.toMonthly (BudgetData.income data))
  - RootUtils.sum (map RootUtils.toMonthly (BudgetData.expenses data))
  - loansMonthlyEmi.

(** The cells of the transaction form. *)
Record t := mk {
  txDate : string;
  txCategory : string;
  txDescription : string;
  txAmount : float
}.

(** [addTransaction]: the list handed to [onTransactionsChange]; the
    list as it is when the function returns early. *)
Definition addTransaction (fresh : string) (form : t)
    (transactions : list ExpenseTransaction.t) : list ExpenseTransaction.t :=
  if String.eqb (txDescription form) EmptyString || (txAmount form <=? 0)
  then transactions
  else
    {| ExpenseTransaction.id := fresh;
       ExpenseTransaction.date := txDate form;
       ExpenseTransaction.category := txCategory form;
       ExpenseTransaction.description := txDescription form;
       ExpenseTransaction.amount := txAmount form |}
    :: transactions.

Definition removeTransaction (id : string)
    (transactions : list ExpenseTransaction.t) : list ExpenseTransaction.t :=
  List.filter (fun tx => negb (String.eqb (ExpenseTransaction.id tx) id)) transactions.

End BudgetView.

(** ** [App.tsx] (root variant): loading the transactions back *)

Module RemoteLoad.
Import RootTypes.
#[local] Open Scope float_scope.

(** A row as the select returns it: the columns
    [id, date, category, description, amount]. *)
Module Returned.
Record t := mk {
  id : string;
  date : string;
  category : string;
  description : string;
  amount : option float
}.
End Returned.

Definition returned (row : Remote.Row.t) : Returned.t :=
  {| Returned.id := Remote.Row.id row;
     Returned.date := Remote.Row.date row;
     Returned.category := Remote.Row.category row;
     Returned.description := Remote.Row.description row;
     Returned.amount := Some (Remote.Row.amount row) |}.

(** Rows in descending order of [date] (ISO dates compare as texts). *)
Fixpoint insert_by_date (r : Returned.t) (l : list Returned.t) : list Returned.t :=
  match l with
  | [] => [r]
  | x :: l' =>
      if String.ltb (Returned.date r) (Returned.date x)
      then x :: insert_by_date r l'
      else r :: l
  end.

Definition order_by_date_desc (l : list Returned.t) : list Returned.t :=
  fold_right insert_by_date [] l.

(** Modelled from the spec: the remote's answer to
    [.select(...).eq("user_id", uid).order("date", { ascending: false })]
    (the database is not in the sources): the rows of that user, latest
    date first.  A fault of the remote makes the request fail with its
    message; a read leaves the table as it is. *)
Definition select (uid : string) (r : Remote.t)
    : Remote.t * (option (list Returned.t) * option string) :=
  let fault := match Remote.faults r with f :: _ => f | [] => None end in
  let rest := match Remote.faults r with _ :: fs => fs | [] => [] end in
  let r' := Remote.mk (Remote.rows r) (Remote.received r) rest in
  match fault with
  | Some msg => (r', (None, Some msg))
  | None =>
      let mine :=
        List.filter (fun row => String.eqb (Remote.Row.user_id row) uid)
          (map snd (map_to_list (Remote.rows r))) in
      (r', (Some (order_by_date_desc (map returned mine)), None))
  end.

Definition with_transactions (state : AppState.t)
    (expenseTransactions : list ExpenseTransaction.t) : AppState.t :=
  {| AppState.loans := AppState.loans state;
     AppState.assets := AppState.assets state;
     AppState.liabilities := AppState.liabilities state;
     AppState.budget := AppState.budget state;
     AppState.expenseTransactions := expenseTransactions;
     AppState.snapshots := AppState.snapshots state |}.

(** [loadTransactionsFromSupabase]: the remote, the state and the error
    slot are threaded through. *)
Definition loadTransactionsFromSupabase (activeUserId : string)
    (remote : Remote.t) (state : AppState.t) (authError : option string)
    : Remote.t * AppState.t * option string :=
  let '(remote1, (data, error)) := select activeUserId remote in
  match error with
  | Some message => (remote1, state, Some message)
  | None =>
      let mapped :=
        map (fun row =>
               {| ExpenseTransaction.id := Returned.id row;
                  ExpenseTransaction.date := Returned.date row;
                  ExpenseTransaction.category := Returned.category row;
                  ExpenseTransaction.description := Returned.description row;
                  ExpenseTransaction.amount := JS.nullish (Returned.amount row) 0 |})
          (JS.nullish data []) in
      (remote1, with_transactions state mapped, authError)
  end.

End RemoteLoad.

(** ** Reading a month key back *)

Module MonthKey.

Definition digit_value (c : ascii) : option nat :=
  let n := nat_of_ascii c in
  if Nat.leb 48 n && Nat.leb n 57 then Some (n - 48) else None.

(** The number written by the leading digits of [s], after [v], and the
    rest of [s]. *)
Fixpoint read_nat (s : string) (v : nat) : nat * string :=
  match s with
  | EmptyString => (v, s)
  | String c s' =>
      match digit_value c with
      | Some d => read_nat s' (v * 10 + d)
      | None => (v, s)
      end
  end.

(** The year and the month (1 .. 12) a key [YYYY-MM] names. *)
Definition read (key : string) : option (nat * nat) :=
  let '(y, rest) := read_nat key 0 in
  match rest with
  | String c rest' =>
      if Ascii.eqb c "-"%char then
        let '(m, rest'') := read_nat rest' 0 in
        if String.eqb rest'' EmptyString then Some (y, m) else None
      else None
  | EmptyString => None
  end.

End MonthKey.

(** ** Numbers that differ at most by the sign of a zero *)

Module Numbers.
#[local] Open Scope float_scope.

Definition signed_zero (s : bool) : float := if s then neg_zero else zero.

Definition alike (x y : float) : Prop :=
  x = y \/ exists s s' : bool, x = signed_zero s /\ y = signed_zero s'.

End Numbers.

(** ** The shape the three pages share: a list keyed by [id] *)

Module KeyedList.
Section Ops.
Context {A : Type} (key : A -> string).

(** [l.some(...) ? l.map((y) => (y.id === x.id ? x : y)) : [x, ...l]] *)
Definition upsert (x : A) (l : list A) : list A :=
  if existsb (fun y => String.eqb (key y) (key x)) l
  then map (fun y => if String.eqb (key y) (key x) then x else y) l
  else x :: l.

(** [l.filter((y) => y.id !== k)] *)
Definition remove (k : string) (l : list A) : list A :=
  List.filter (fun y => negb (String.eqb (key y) k)) l.

(** [l.find((y) => y.id === k)] *)
Definition lookup (k : string) (l : list A) : option A :=
  find (fun y => String.eqb (key y) k) l.

End Ops.
End KeyedList.

(** ** The table after a sync that the remote carried out *)

Module Synced.

Definition rows (uid : string) (items : list RootTypes.ExpenseTransaction.t)
    (before : gmap string Remote.Row.t) : gmap string Remote.Row.t :=
  match items with
  | [] => filter (fun kv => Remote.Row.user_id kv.2 <> uid) before
  | _ :: _ =>
      filter
        (fun kv =>
           ~ (Remote.Row.user_id kv.2 = uid
              /\ Remote.in_idsb (map RootTypes.ExpenseTransaction.id items) kv.1 = false))
        (Remote.upsert (RootApp.payload_of uid items) before)
  end.

End Synced.

(** ** The rounding of binary64 arithmetic *)

(** The operations on doubles round the exact result to the nearest
    double, the one with an even mantissa on a tie ([SpecFloat], which
    the primitive operations are specified by).  This module holds the
    vocabulary in which such roundings are stated: integers [N], [D]
    stand for the ratio [N / D]. *)

Module Binary64.
#[local] Open Scope Z_scope.

(** [N / D] lies from [m] up to [m + 1], where the location [l] says:
    on [m], below the middle, on the middle, or above it. *)
Definition located (m : Z) (l : location) (N D : Z) : Prop :=
  match l with
  | loc_Exact => N = m * D
  | loc_Inexact Lt => m * D < N /\ 2 * N < (2 * m + 1) * D
  | loc_Inexact Eq => 2 * N = (2 * m + 1) * D
  | loc_Inexact Gt => (2 * m + 1) * D < 2 * N /\ N < (m + 1) * D
  end.

(** [m] is the integer nearest to [N / D], and is even when [N / D] is
    half-way between two integers. *)
Definition nearest (m N D : Z) : Prop :=
  2 * Z.abs (m * D - N) <= D
  /\ (2 * Z.abs (m * D - N) = D -> Z.even m = true).

(** The double of sign [sx], mantissa [m] and exponent [E], for a
    mantissa from 2^52 to 2^53: a mantissa of 2^53 is carried to the
    next exponent. *)
Definition pack (sx : bool) (m E : Z) : spec_float :=
  match m with
  | Zpos p =>
      if m <? 2 ^ 53 then S754_finite sx p E
      else S754_finite sx (Z.to_pos (2 ^ 52)) (E + 1)
  | _ => S754_nan
  end.

(** A normal double whose exponent is at least [e0]. *)
Definition normal (e0 : Z) (f : spec_float) : Prop :=
  match f with
  | S754_finite _ m e =>
      2 ^ 52 <= Zpos m < 2 ^ 53 /\ e0 <= e /\ -1074 <= e <= 970
  | _ => False
  end.

(** The value of a finite double, counted in units of [2 ^ e0]. *)
Definition scaled (e0 : Z) (f : spec_float) : Z :=
  match f with
  | S754_finite s m e => cond_Zopp s (Zpos m * 2 ^ (e - e0))
  | _ => 0
  end.

(** The finite double of sign [s], mantissa [m > 0] and exponent [e]. *)
Definition number (s : bool) (m e : Z) : spec_float :=
  S754_finite s (Z.to_pos m) e.

(** The double [p * 2 ^ e] of sign [s], for [p] below 2^53. *)
Definition dyadic (s : bool) (p : positive) (e : Z) : spec_float :=
  number s (Zpos p * 2 ^ (53 - Zpos (digits2_pos p)))
    (e + Zpos (digits2_pos p) - 53).

(** The doubles [100] and [Number.EPSILON]. *)
Definition hundred : spec_float := S754_finite false 7036874417766400 (-46).
Definition epsilon : spec_float := S754_finite false 4503599627370496 (-104).

End Binary64.

(* ===================================================================== *)
(** * Part II: the properties *)
(* ===================================================================== *)

(** ** Lists keyed by a string *)

Section Keyed.
Context {A : Type} (key : A -> string).

Lemma existsb_key_In (k : string) (l : list A) :
  existsb (fun y => String.eqb (key y) k) l = true <-> In k (map key l).
Proof.
  induction l as [|y l IH]; simpl.
  - split; [discriminate | tauto].
  - rewrite orb_true_iff, IH, String.eqb_eq. tauto.
Qed.

Lemma existsb_key_not_In (k : string) (l : list A) :
  existsb (fun y => String.eqb (key y) k) l = false <-> ~ In k (map key l).
Proof.
  rewrite <- existsb_key_In. destruct (existsb _ l); split; congruence.
Qed.

(** Replacing by key keeps every key where it is. *)
Lemma map_key_replace (x : A) (l : list A) :
  map key (map (fun y => if String.eqb (key y) (key x) then x else y) l)
  = map key l.
Proof.
  induction l as [|y l IH]; simpl; [reflexivity|].
  rewrite IH. destruct (String.eqb_spec (key y) (key x)) as [E|E]; congruence.
Qed.

(** Where no key matches, replacing by key changes nothing. *)
Lemma replace_absent (x : A) (l : list A) :
  ~ In (key x) (map key l) ->
  map (fun y => if String.eqb (key y) (key x) then x else y) l = l.
Proof.
  induction l as [|y l IH]; simpl; intros H; [reflexivity|].
  destruct (String.eqb_spec (key y) (key x)) as [E|E]; [tauto|].
  rewrite IH; tauto.
Qed.

(** With distinct keys, replacing by key rewrites exactly one entry. *)
Lemma replace_in_place (x : A) (l : list A) :
  List.NoDup (map key l) -> In (key x) (map key l) ->
  exists before old after,
    l = before ++ old :: after /\ key old = key x /\
    map (fun y => if String.eqb (key y) (key x) then x else y) l
    = before ++ x :: after.
Proof.
  induction l as [|y l IH]; simpl; intros ND HIn; [tauto|].
  apply NoDup_cons_iff in ND as [Hy ND].
  destruct (String.eqb_spec (key y) (key x)) as [E|E].
  - exists [], y, l. split; [reflexivity|]. split; [exact E|].
    simpl. f_equal. apply replace_absent. rewrite <- E. exact Hy.
  - destruct HIn as [HIn|HIn]; [congruence|].
    destruct (IH ND HIn) as (before & old & after & -> & Hk & Hr).
    exists (y :: before), old, after. simpl. rewrite Hr. auto.
Qed.

Lemma NoDup_map_key_filter (f : A -> bool) (l : list A) :
  List.NoDup (map key l) -> List.NoDup (map key (List.filter f l)).
Proof.
  induction l as [|y l IH]; simpl; intros ND; [constructor|].
  apply NoDup_cons_iff in ND as [Hy ND].
  destruct (f y); simpl; [|auto].
  constructor; [|auto].
  intros HIn. apply Hy.
  apply in_map_iff in HIn as (z & Hz & Hf).
  apply filter_In in Hf as [Hf _].
  apply in_map_iff. eauto.
Qed.

End Keyed.

(** ** [pages/Loans.tsx]: loan identities *)

Module LoansPageFacts.
Import AppTypes LoansPage.

(** C10.  On a loan list with pairwise distinct identities, [upsertLoan]
    keeps the identities distinct: a loan whose identity occurs replaces
    that one entry where it stands (the entries before and after it are
    the same, so length and order are unchanged), a loan with a fresh
    identity is put in front; [removeLoan] keeps the identities distinct
    as well. *)
Theorem upsertLoan_removeLoan_keep_ids_distinct
    (state : AppState.t) (next : Loan.t) (id : string) :
  List.NoDup (map Loan.id (AppState.loans state)) ->
  List.NoDup (map Loan.id (AppState.loans (upsertLoan next state)))
  /\ (In (Loan.id next) (map Loan.id (AppState.loans state)) ->
      exists before old after,
        AppState.loans state = before ++ old :: after
        /\ Loan.id old = Loan.id next
        /\ AppState.loans (upsertLoan next state) = before ++ next :: after)
  /\ (~ In (Loan.id next) (map Loan.id (AppState.loans state)) ->
      AppState.loans (upsertLoan next state) = next :: AppState.loans state)
  /\ List.NoDup (map Loan.id (AppState.loans (removeLoan id state))).
Proof.
  intros ND. unfold upsertLoan, removeLoan; simpl.
  destruct (existsb _ (AppState.loans state)) eqn:Ex.
  - apply (existsb_key_In Loan.id) in Ex.
    repeat split.
    + rewrite (map_key_replace Loan.id). exact ND.
    + intros _. apply (replace_in_place Loan.id); assumption.
    + intros H. contradiction.
    + apply NoDup_map_key_filter. exact ND.
  - apply (existsb_key_not_In Loan.id) in Ex.
    repeat split.
    + simpl. constructor; assumption.
    + intros H. contradiction.
    + apply NoDup_map_key_filter. exact ND.
Qed.

Lemma upsertLoan_removeLoan_keep_ids_distinct_witness :
  let state := Samples.app_state [Samples.loan "a"; Samples.loan "b"] in
  List.NoDup (map Loan.id (AppState.loans (upsertLoan (Samples.loan "b") state)))
  /\ List.NoDup (map Loan.id (AppState.loans (removeLoan "a" state))).
Proof.
  intros state.
  assert (ND : List.NoDup (map Loan.id (AppState.loans state))).
  { simpl. repeat constructor; simpl; intuition discriminate. }
  destruct (upsertLoan_removeLoan_keep_ids_distinct state (Samples.loan "b") "a" ND)
    as (H1 & _ & _ & H4).
  split; assumption.
Defined.

End LoansPageFacts.

(** ** Snapshots: one per key *)

Section FilterFacts.
Context {A : Type} (p : A -> bool).

Lemma filter_filter_negb (l : list A) :
  List.filter p (List.filter (fun y => negb (p y)) l) = [].
Proof.
  induction l as [|y l IH]; simpl; [reflexivity|].
  destruct (p y) eqn:E; simpl; [exact IH|]. rewrite E. exact IH.
Qed.

Lemma find_none_filter (l : list A) :
  find p l = None <-> List.filter p l = [].
Proof.
  induction l as [|y l IH]; simpl; [tauto|].
  destruct (p y); [split; discriminate | exact IH].
Qed.

(** Replacing the entries that satisfy [p] by one that satisfies it keeps
    their number, and keeps the other entries, in order. *)
Lemma filter_replace (x : A) (l : list A) :
  p x = true ->
  length (List.filter p (map (fun y => if p y then x else y) l))
  = length (List.filter p l)
  /\ List.filter (fun y => negb (p y)) (map (fun y => if p y then x else y) l)
     = List.filter (fun y => negb (p y)) l.
Proof.
  intros Hx. induction l as [|y l [IH1 IH2]]; simpl; [tauto|].
  destruct (p y) eqn:E; simpl.
  - rewrite Hx. simpl. auto.
  - rewrite E. simpl. rewrite IH2. auto.
Qed.

End FilterFacts.

Module SnapshotFacts.

Lemma Currency_eqb_refl (c : AppTypes.Currency) : AppTypes.Currency_eqb c c = true.
Proof. destruct c; reflexivity. Qed.

Lemma same_key_refl (snap : AppTypes.Snapshot.t) : Dashboard.same_key snap snap = true.
Proof.
  unfold Dashboard.same_key. rewrite String.eqb_refl, Currency_eqb_refl. reflexivity.
Qed.

(** C1, as the sources have it.  [pages/Dashboard.tsx] (key: month and
    currency): whatever the prior list, the snapshots after a capture are
    the new snapshot followed by the prior ones of other keys, in their
    order; so exactly one snapshot has the captured key, and it carries
    the month, the currency and the totals computed at capture time.
    [App.tsx] (key: month): when no prior snapshot has the month, the new
    one is put in front; otherwise every prior snapshot of the month is
    replaced, where it stands, by the new one; snapshots of other months
    stay, in order; the list holds max(1, n) snapshots of the month when
    it held n; the new snapshot carries the totals computed at capture
    time. *)
Theorem saveSnapshot_per_key :
  (forall (fresh : string) (now : AppUtils.Date.t) (state : AppTypes.AppState.t),
     let snap := Dashboard.newSnapshot fresh now state in
     let after := AppTypes.AppState.snapshots (Dashboard.saveSnapshot fresh now state) in
     after = snap :: List.filter (fun s => negb (Dashboard.same_key snap s))
                       (AppTypes.AppState.snapshots state)
     /\ length (List.filter (Dashboard.same_key snap) after) = 1
     /\ AppTypes.Snapshot.month snap = AppUtils.yyyyMm now
     /\ AppTypes.Snapshot.currency snap = AppTypes.AppState.currency state
     /\ AppTypes.Snapshot.assetsTotal snap = Dashboard.assetsTotal state
     /\ AppTypes.Snapshot.liabilitiesTotal snap = Dashboard.liabilitiesTotal state
     /\ AppTypes.Snapshot.netWorth snap = Dashboard.netWorth state)
  /\
  (forall (fresh stamp : string) (now : AppUtils.Date.t) (state : RootTypes.AppState.t),
     let month := RootApp.month_of now in
     let snap :=
       RootApp.defaultSnapshot fresh stamp month
         (RootApp.assetsTotal state) (RootApp.liabilitiesTotal state) in
     let before := RootTypes.AppState.snapshots state in
     let after := RootTypes.AppState.snapshots (RootApp.saveSnapshot fresh stamp now state) in
     after = (if Nat.eqb (Vocabulary.of_month month before) 0
              then snap :: before
              else map (fun item =>
                          if String.eqb (RootTypes.Snapshot.month item) month
                          then snap else item) before)
     /\ Vocabulary.of_month month after = Nat.max 1 (Vocabulary.of_month month before)
     /\ List.filter (fun s => negb (String.eqb (RootTypes.Snapshot.month s) month)) after
        = List.filter (fun s => negb (String.eqb (RootTypes.Snapshot.month s) month)) before
     /\ RootTypes.Snapshot.assetsTotal snap = RootApp.assetsTotal state
     /\ RootTypes.Snapshot.liabilitiesTotal snap = RootApp.liabilitiesTotal state
     /\ RootTypes.Snapshot.netWorth snap
        = (RootApp.assetsTotal state - RootApp.liabilitiesTotal state)%float).
Proof.
  split.
  - intros fresh now state snap after. subst after. simpl. fold snap.
    split; [reflexivity|]. split; [|repeat split].
    rewrite same_key_refl. simpl.
    rewrite (filter_filter_negb (Dashboard.same_key snap)). reflexivity.
  - intros fresh stamp now state month snap before after.
    subst after. unfold RootApp.saveSnapshot. simpl. fold month. fold snap. fold before.
    set (p := fun s => String.eqb (RootTypes.Snapshot.month s) month).
    assert (Hsnap : p snap = true) by (subst p; simpl; apply String.eqb_refl).
    unfold Vocabulary.of_month. fold p.
    destruct (find p before) as [s|] eqn:Hf.
    + assert (Hne : List.filter p before <> []).
      { intros H. apply find_none_filter in H. congruence. }
      destruct (List.filter p before) as [|z zs] eqn:Hfl; [congruence|].
      simpl Nat.eqb. cbv iota.
      destruct (filter_replace p snap before Hsnap) as [H1 H2].
      rewrite Hfl in H1. simpl in H1.
      split; [reflexivity|].
      split; [transitivity (S (length zs)); [exact H1 | simpl; lia]|].
      split; [exact H2|]. repeat split.
    + apply find_none_filter in Hf. rewrite Hf. simpl.
      rewrite Hsnap. simpl. rewrite Hf. simpl.
      rewrite String.eqb_refl. simpl. repeat split.
Qed.

(** C1 does not hold of [App.tsx] as it is stated: recapturing February
    with a March snapshot in front leaves the new snapshot second, not at
    the head; and a prior list with two February snapshots holds two
    (identical) ones after the capture. *)
Lemma saveSnapshot_root_not_prepended :
  let mar := Samples.root_snapshot "m" "2026-03" 10 4 in
  let feb := Samples.root_snapshot "f" "2026-02" 7 2 in
  let feb' := Samples.root_snapshot "g" "2026-02" 8 3 in
  let new := RootApp.defaultSnapshot "n" "t" "2026-02" 0 0 in
  let after1 :=
    RootTypes.AppState.snapshots
      (RootApp.saveSnapshot "n" "t" Samples.feb_2026 (Samples.root_state [mar; feb])) in
  let after2 :=
    RootTypes.AppState.snapshots
      (RootApp.saveSnapshot "n" "t" Samples.feb_2026 (Samples.root_state [feb; feb'])) in
  (after1 = [mar; new] /\ after1 <> [new; mar])
  /\ (after2 = [new; new] /\ Vocabulary.of_month "2026-02" after2 = 2).
Proof.
  vm_compute. repeat split. intros H. discriminate H.
Qed.

End SnapshotFacts.

(** ** Binary64 facts *)

Module FloatFacts.
#[local] Open Scope float_scope.

Lemma SFeqb_self (x : spec_float) :
  SFeqb x x = match x with S754_nan => false | _ => true end.
Proof.
  destruct x as [s|s| |s m e]; try (destruct s; reflexivity); try reflexivity.
  unfold SFeqb, SFcompare.
  rewrite Z.compare_refl, Pos.compare_cont_refl. destruct s; reflexivity.
Qed.

Lemma SFeqb_abs_infinity (x : spec_float) :
  SFeqb (SFabs x) (S754_infinity false)
  = match x with S754_infinity _ => true | _ => false end.
Proof. destruct x as [s|s| |s m e]; reflexivity. Qed.

(** [isFinite] reads the class of the number. *)
Lemma is_finite_class (x : float) :
  is_finite x
  = match Prim2SF x with
    | S754_nan | S754_infinity _ => false
    | S754_zero _ | S754_finite _ _ _ => true
    end.
Proof.
  unfold is_finite, is_nan, is_infinity.
  rewrite !FloatAxioms.eqb_spec, FloatAxioms.abs_spec.
  change (Prim2SF infinity) with (S754_infinity false).
  rewrite SFeqb_self, SFeqb_abs_infinity.
  destruct (Prim2SF x); reflexivity.
Qed.

Lemma is_finite_opp (x : float) : is_finite (- x) = is_finite x.
Proof.
  rewrite !is_finite_class, opp_spec. destruct (Prim2SF x); reflexivity.
Qed.

(** A number whose class is zero is one of the two zeros. *)
Lemma zero_class (x : float) (s : bool) :
  Prim2SF x = S754_zero s -> x = if s then neg_zero else zero.
Proof.
  intros H. rewrite <- (SF2Prim_Prim2SF x), H. destruct s; reflexivity.
Qed.

(** [x - y] is [x + (-y)]. *)
Lemma sub_add_opp (x y : float) : x - y = x + (- y).
Proof.
  apply Prim2SF_inj. rewrite sub_spec, add_spec, opp_spec.
  destruct (Prim2SF x) as [sx|sx| |sx mx ex], (Prim2SF y) as [sy|sy| |sy my ey];
    try reflexivity;
    destruct sx, sy; reflexivity.
Qed.

(** A number is a zero or is of another class. *)
Lemma zero_or_not (x : float) :
  (exists s : bool, x = if s then neg_zero else zero)
  \/ (forall s, Prim2SF x <> S754_zero s).
Proof.
  destruct (Prim2SF x) as [s|s| |s m e] eqn:Hx;
    [left; exists s; apply zero_class; exact Hx | right; discriminate ..].
Qed.

(** Adding a zero to a number that is not a zero gives that number. *)
Lemma zeros_absorbed (x : float) :
  (forall s, Prim2SF x <> S754_zero s) ->
  0 + x = x /\ neg_zero + x = x /\ x + 0 = x /\ x + neg_zero = x.
Proof.
  intros Hx. repeat split; apply Prim2SF_inj; rewrite add_spec;
    change (Prim2SF 0) with (S754_zero false);
    change (Prim2SF neg_zero) with (S754_zero true);
    destruct (Prim2SF x) as [sx|sx| |sx mx ex]; try reflexivity;
    exfalso; apply (Hx sx); reflexivity.
Qed.

(** Two numbers that are [==] are the same number, or are both zeros. *)
Lemma eqb_true_cases (x y : float) :
  (x =? y) = true ->
  x = y \/ (exists s s', Prim2SF x = S754_zero s /\ Prim2SF y = S754_zero s').
Proof.
  rewrite FloatAxioms.eqb_spec. intros H.
  destruct (Prim2SF x) as [s|s| |s m e] eqn:Hx, (Prim2SF y) as [s'|s'| |s' m' e'] eqn:Hy;
    try discriminate H;
    try (destruct s; discriminate H); try (destruct s'; discriminate H).
  - right. eauto.
  - left. apply Prim2SF_inj. rewrite Hx, Hy.
    destruct s, s'; try discriminate H; reflexivity.
  - left. apply Prim2SF_inj. rewrite Hx, Hy.
    unfold SFeqb, SFcompare in H.
    destruct s, s'; try discriminate H;
      destruct (Z.compare e e') eqn:He; try discriminate H;
      apply Z.compare_eq in He; subst e';
      destruct (Pos.compare_cont Eq m m') eqn:Hm; try discriminate H;
      apply Pos.compare_eq in Hm; subst m'; reflexivity.
Qed.

(** A number above 0 is not a zero, is not NaN and is not at most 0. *)
Lemma above_zero (x : float) :
  (0 <? x) = true ->
  (x =? 0) = false /\ (x =? x) = true /\ (x <=? 0) = false.
Proof.
  rewrite FloatAxioms.ltb_spec, !FloatAxioms.eqb_spec, FloatAxioms.leb_spec.
  rewrite SFeqb_self.
  change (Prim2SF 0) with (S754_zero false).
  destruct (Prim2SF x) as [s|s| |s m e]; try discriminate;
    destruct s; try discriminate; intros _; repeat split.
Qed.

Lemma above_zero_truthy (x : float) :
  (0 <? x) = true -> JS.falsy (Some x) = false.
Proof.
  intros H. destruct (above_zero x H) as (Hz & Hn & _).
  unfold JS.falsy, is_zero, is_nan, zero. rewrite Hz, Hn. reflexivity.
Qed.

End FloatFacts.

(** ** Sums, net worth, cadences *)

Module AggregateFacts.
#[local] Open Scope float_scope.
#[local] Set Warnings "-inexact-float".

Lemma fold_left_coerced (g : float -> float) (l : list float) (acc : float) :
  fold_left (fun a b => a + g b) l acc = fold_left (fun a b => a + b) (map g l) acc.
Proof.
  revert acc. induction l as [|b l IH]; intros acc; simpl; [reflexivity | apply IH].
Qed.

(** C4, as the sources have it.  The helper of [app/utils.ts] is the plain
    left-to-right sum of the addends, each non-finite one counted as 0,
    rounded to 2 decimals once, at the end.  The helper of [utils.ts]
    (root variant) is the plain left-to-right sum from 0: it neither
    replaces a non-finite addend nor rounds. *)
Theorem sum_helpers :
  (forall nums : list float,
     AppUtils.sum nums
     = AppUtils.round2 (RootUtils.sum (map Vocabulary.finite_or_zero nums)))
  /\ RootUtils.sum [] = 0
  /\ (forall (values : list float) (v : float),
        RootUtils.sum (values ++ [v]) = RootUtils.sum values + v).
Proof.
  split; [|split].
  - intros nums. unfold AppUtils.sum, RootUtils.sum. f_equal.
    apply (fold_left_coerced Vocabulary.finite_or_zero).
  - reflexivity.
  - intros values v. unfold RootUtils.sum. rewrite fold_left_app. reflexivity.
Qed.

(** C4 does not hold of the helper of [utils.ts]: an infinite addend stays
    in the sum, and a sum with a third decimal is returned as it is, where
    rounding to 2 decimals would change it. *)
Lemma root_sum_neither_coerces_nor_rounds :
  RootUtils.sum [infinity] = infinity
  /\ Vocabulary.finite_or_zero infinity = 0
  /\ RootUtils.sum [0.005] = 0.005
  /\ AppUtils.round2 0.005 = 0.01.
Proof. vm_compute. repeat split. Qed.

(** Rounding to 2 decimals does not see the sign of a zero. *)
Lemma round2_zero_sign : AppUtils.round2 neg_zero = AppUtils.round2 0.
Proof. vm_compute. reflexivity. Qed.

Lemma round2_add_zero_l (a m : float) :
  AppUtils.round2 ((0 + a) + m) = AppUtils.round2 (a + m).
Proof.
  destruct (FloatFacts.zero_or_not a) as [[sa ->]|Ha].
  - destruct (FloatFacts.zero_or_not m) as [[sm ->]|Hm].
    + destruct sa, sm; vm_compute; reflexivity.
    + destruct sa.
      * change (0 + neg_zero) with 0.
        destruct (FloatFacts.zeros_absorbed m Hm) as (-> & -> & _). reflexivity.
      * change (0 + zero) with 0. reflexivity.
  - destruct (FloatFacts.zeros_absorbed a Ha) as (-> & _). reflexivity.
Qed.

Lemma round2_add_zero_r (a : float) :
  AppUtils.round2 (a + 0) = AppUtils.round2 (a + neg_zero).
Proof.
  destruct (FloatFacts.zero_or_not a) as [[sa ->]|Ha].
  - destruct sa; vm_compute; reflexivity.
  - destruct (FloatFacts.zeros_absorbed a Ha) as (_ & _ & -> & ->). reflexivity.
Qed.

(** C5, as the sources have it.  In [App.tsx] the net worth is the very
    number the assets total minus the liabilities total is, so it is
    [==] to it exactly when that difference is not NaN.  In
    [pages/Dashboard.tsx] it is that difference put through the summation
    helper: the difference of the two totals (a non-finite total counted
    as 0), rounded to 2 decimals. *)
Theorem netWorth_is_difference :
  (forall state : RootTypes.AppState.t,
     RootApp.netWorth state
     = RootApp.assetsTotal state - RootApp.liabilitiesTotal state)
  /\ (forall state : RootTypes.AppState.t,
        (RootApp.netWorth state
         =? RootApp.assetsTotal state - RootApp.liabilitiesTotal state)
        = negb (is_nan (RootApp.assetsTotal state - RootApp.liabilitiesTotal state)))
  /\ (forall state : AppTypes.AppState.t,
        Dashboard.netWorth state
        = AppUtils.round2
            (Vocabulary.finite_or_zero (Dashboard.assetsTotal state)
             - Vocabulary.finite_or_zero (Dashboard.liabilitiesTotal state))).
Proof.
  split; [reflexivity|]. split.
  - intros state. unfold RootApp.netWorth, is_nan.
    rewrite negb_involutive. reflexivity.
  - intros state. unfold Dashboard.netWorth, AppUtils.sum. simpl fold_left.
    generalize (Dashboard.assetsTotal state) (Dashboard.liabilitiesTotal state).
    intros a l. rewrite round2_add_zero_l.
    unfold Vocabulary.finite_or_zero, JS.isFinite.
    rewrite FloatFacts.is_finite_opp, FloatFacts.sub_add_opp.
    destruct (is_finite l); [reflexivity|].
    change (- 0) with neg_zero. apply round2_add_zero_r.
Qed.

(** C5 does not hold as it is stated.  In [pages/Dashboard.tsx], with one
    asset of 0.3 and one liability of 0.1 the totals are 0.3 and 0.1, the
    net worth is 0.2, and 0.3 - 0.1 is the double 0.19999999999999998.  In
    [App.tsx], with two assets and two liabilities of 1e308 each, both
    totals are Infinity, the net worth is NaN, and NaN is [==] to
    nothing. *)
Lemma dashboard_netWorth_is_rounded :
  let state :=
    Samples.balance_sheet [Samples.asset 0.3] [Samples.liability 0.1] in
  let huge_asset :=
    RootTypes.Asset.mk "a" "House" "Property" 1e308 RootTypes.Self "2026-02-01"
      RootTypes.GBP None in
  let huge_liability :=
    RootTypes.Liability.mk "l" "Mortgage" "Other" 1e308 None None RootTypes.GBP None in
  let root :=
    RootTypes.AppState.mk [] [huge_asset; huge_asset] [huge_liability; huge_liability]
      (RootTypes.BudgetData.mk [] []) [] [] in
  (Dashboard.assetsTotal state = 0.3
   /\ Dashboard.liabilitiesTotal state = 0.1
   /\ Dashboard.netWorth state = 0.2
   /\ Dashboard.assetsTotal state - Dashboard.liabilitiesTotal state
      = 0.19999999999999998
   /\ (Dashboard.netWorth state
       =? Dashboard.assetsTotal state - Dashboard.liabilitiesTotal state) = false)
  /\ (RootApp.assetsTotal root = infinity
      /\ RootApp.liabilitiesTotal root = infinity
      /\ is_nan (RootApp.netWorth root) = true
      /\ (RootApp.netWorth root
          =? RootApp.assetsTotal root - RootApp.liabilitiesTotal root) = false).
Proof. vm_compute. repeat split. Qed.

(** C6.  On a finite amount the cadence normalizers return the value of
    the factor table: the amount for monthly, amount * 52 / 12 for weekly,
    amount * 26 / 12 for fortnightly, amount / 12 for yearly
    ([monthlyEquivalent] of [app/utils.ts]) and for annual ([toMonthly] of
    [utils.ts]). *)
Theorem cadence_factor_table (amount : float) :
  JS.isFinite amount = true ->
  (AppUtils.monthlyEquivalent amount AppTypes.monthly = amount
   /\ AppUtils.monthlyEquivalent amount AppTypes.weekly = amount * 52 / 12
   /\ AppUtils.monthlyEquivalent amount AppTypes.fortnightly = amount * 26 / 12
   /\ AppUtils.monthlyEquivalent amount AppTypes.yearly = amount / 12)
  /\ (forall id category name : string,
        RootUtils.toMonthly
          (RootTypes.BudgetItem.mk id category name amount RootTypes.monthly)
        = amount
        /\ RootUtils.toMonthly
             (RootTypes.BudgetItem.mk id category name amount RootTypes.weekly)
           = amount * 52 / 12
        /\ RootUtils.toMonthly
             (RootTypes.BudgetItem.mk id category name amount RootTypes.annual)
           = amount / 12).
Proof.
  intros Hfin. unfold AppUtils.monthlyEquivalent. rewrite Hfin. simpl.
  repeat split.
Qed.

Lemma cadence_factor_table_witness :
  AppUtils.monthlyEquivalent 100 AppTypes.weekly = 100 * 52 / 12
  /\ AppUtils.monthlyEquivalent 100 AppTypes.fortnightly = 100 * 26 / 12.
Proof.
  destruct (cadence_factor_table 100 eq_refl) as [(_ & Hw & Hf & _) _].
  split; assumption.
Defined.

End AggregateFacts.

(** ** The roundings of binary64 arithmetic *)

Module Binary64Facts.
Import Binary64.
#[local] Open Scope Z_scope.

(** Powers of two with a symbolic exponent are put out of the way of
    the arithmetic procedures. *)
Ltac hide_pows :=
  change (2 ^ 0) with 1 in *;
  change (2 ^ 1) with 2 in *;
  change (2 ^ 52) with 4503599627370496 in *;
  change (2 ^ 53) with 9007199254740992 in *;
  repeat match goal with
  | |- context [Z.pow 2 ?x] =>
      let v := fresh "pw" in set (v := Z.pow 2 x) in *; clearbody v
  | H : context [Z.pow 2 ?x] |- _ =>
      let v := fresh "pw" in set (v := Z.pow 2 x) in *; clearbody v
  end.

Ltac plia := hide_pows; lia.
Ltac pnia := hide_pows; nia.

Lemma digits2_pos_bounds (p : positive) :
  2 ^ (Zpos (digits2_pos p) - 1) <= Zpos p < 2 ^ Zpos (digits2_pos p).
Proof.
  induction p as [p IH|p IH|]; cbn [digits2_pos].
  - rewrite Pos2Z.inj_succ, Pos2Z.inj_xI.
    replace (Z.succ (Zpos (digits2_pos p)) - 1) with (Z.succ (Zpos (digits2_pos p) - 1)) by lia.
    rewrite !Z.pow_succ_r by lia.
    generalize dependent (2 ^ (Z.pos (digits2_pos p) - 1)).
    generalize dependent (2 ^ (Z.pos (digits2_pos p))). intros. lia.
  - rewrite Pos2Z.inj_succ. change (Zpos p~0) with (2 * Zpos p).
    replace (Z.succ (Zpos (digits2_pos p)) - 1) with (Z.succ (Zpos (digits2_pos p) - 1)) by lia.
    rewrite !Z.pow_succ_r by lia.
    generalize dependent (2 ^ (Z.pos (digits2_pos p) - 1)).
    generalize dependent (2 ^ (Z.pos (digits2_pos p))). intros. lia.
  - simpl. lia.
Qed.

Lemma digits2_pos_unique (p : positive) (d : Z) :
  2 ^ (d - 1) <= Zpos p < 2 ^ d -> Zpos (digits2_pos p) = d.
Proof.
  intros [Hl Hu]. destruct (digits2_pos_bounds p) as [Hl' Hu'].
  set (d' := Zpos (digits2_pos p)) in *.
  assert (0 < d' ) by (unfold d'; lia).
  destruct (Z.lt_trichotomy d d') as [H1|[H1|H1]]; [exfalso| lia | exfalso].
  - assert (2 ^ d <= 2 ^ (d' - 1)).
    { destruct (Z.le_gt_cases 0 d).
      - apply Z.pow_le_mono_r; lia.
      - rewrite (Z.pow_neg_r 2 d) by lia. apply Z.pow_nonneg. lia. }
    lia.
  - assert (2 ^ d' <= 2 ^ (d - 1)) by (apply Z.pow_le_mono_r; lia).
    lia.
Qed.

Lemma located_record (m : Z) (l : location) :
  shr_m (shr_record_of_loc m l) = m
  /\ loc_of_shr_record (shr_record_of_loc m l) = l.
Proof. destruct l as [|[| |]]; split; reflexivity. Qed.

Lemma shr_1_located (r : shr_record) (N D : Z) :
  0 < D -> 0 <= shr_m r -> located (shr_m r) (loc_of_shr_record r) N D ->
  shr_m (shr_1 r) = shr_m r / 2
  /\ located (shr_m (shr_1 r)) (loc_of_shr_record (shr_1 r)) N (2 * D).
Proof.
  intros HD Hm H. destruct r as [m r s]. cbn [shr_m] in *.
  destruct m as [|p|p]; [| |lia].
  - destruct r, s; cbn in *; split; try reflexivity; lia.
  - destruct p as [p|p|].
    + assert (E : Z.pos p~1 / 2 = Z.pos p).
      { change (Zpos p~1) with (2 * Zpos p + 1). symmetry. apply (Z.div_unique _ 2 _ 1); lia. }
      change (Zpos p~1) with (2 * Zpos p + 1) in H.
      destruct r, s; cbn [shr_1 shr_m loc_of_shr_record located orb] in *;
        (split; [symmetry; exact E|]); nia.
    + assert (E : Z.pos p~0 / 2 = Z.pos p).
      { change (Zpos p~0) with (2 * Zpos p). symmetry. apply (Z.div_unique _ 2 _ 0); lia. }
      change (Zpos p~0) with (2 * Zpos p) in H.
      destruct r, s; cbn [shr_1 shr_m loc_of_shr_record located orb] in *;
        (split; [symmetry; exact E|]); nia.
    + destruct r, s; cbn [shr_1 shr_m loc_of_shr_record located orb] in *;
        (split; [reflexivity|]); nia.
Qed.

Lemma iter_shr_located (p : positive) (r : shr_record) (N D : Z) :
  0 < D -> 0 <= shr_m r -> located (shr_m r) (loc_of_shr_record r) N D ->
  shr_m (SpecFloat.iter_pos shr_1 p r) = shr_m r / 2 ^ Zpos p
  /\ located (shr_m (SpecFloat.iter_pos shr_1 p r)) (loc_of_shr_record (SpecFloat.iter_pos shr_1 p r))
       N (D * 2 ^ Zpos p).
Proof.
  revert r D. induction p as [p IH|p IH|]; intros r D HD Hm H; cbn [SpecFloat.iter_pos].
  - destruct (shr_1_located r N D HD Hm H) as [E1 L1].
    assert (Hm1 : 0 <= shr_m (shr_1 r)) by (rewrite E1; apply Z.div_pos; lia).
    destruct (IH (shr_1 r) (2 * D) ltac:(lia) Hm1 L1) as [E2 L2].
    assert (Hp : 0 < 2 ^ Zpos p) by (apply Z.pow_pos_nonneg; lia).
    assert (Hm2 : 0 <= shr_m (SpecFloat.iter_pos shr_1 p (shr_1 r)))
      by (rewrite E2; apply Z.div_pos; lia).
    destruct (IH _ (2 * D * 2 ^ Zpos p) ltac:(nia) Hm2 L2) as [E3 L3].
    change (Zpos p~1) with (2 * Zpos p + 1).
    replace (2 * Zpos p + 1) with (1 + Zpos p + Zpos p) by lia.
    rewrite !Z.pow_add_r by lia. change (2 ^ 1) with 2.
    split.
    + rewrite E3, E2, E1.
      rewrite (Z.div_div (shr_m r) 2 (2 ^ Zpos p)) by (try exact Hp; lia).
      rewrite Z.div_div by (try exact Hp; nia). reflexivity.
    + replace (D * (2 * 2 ^ Zpos p * 2 ^ Zpos p)) with (2 * D * 2 ^ Zpos p * 2 ^ Zpos p)
        by ring. exact L3.
  - destruct (IH r D HD Hm H) as [E2 L2].
    assert (Hp : 0 < 2 ^ Zpos p) by (apply Z.pow_pos_nonneg; lia).
    assert (Hm2 : 0 <= shr_m (SpecFloat.iter_pos shr_1 p r))
      by (rewrite E2; apply Z.div_pos; lia).
    destruct (IH _ (D * 2 ^ Zpos p) ltac:(nia) Hm2 L2) as [E3 L3].
    change (Zpos p~0) with (2 * Zpos p).
    replace (2 * Zpos p) with (Zpos p + Zpos p) by lia.
    rewrite !Z.pow_add_r by lia.
    split.
    + rewrite E3, E2.
      rewrite Z.div_div by (try exact Hp; lia). reflexivity.
    + replace (D * (2 ^ Zpos p * 2 ^ Zpos p)) with (D * 2 ^ Zpos p * 2 ^ Zpos p)
        by ring. exact L3.
  - destruct (shr_1_located r N D HD Hm H) as [E1 L1].
    change (2 ^ 1) with 2. split; [exact E1|].
    replace (D * 2) with (2 * D) by ring. exact L1.
Qed.

Lemma shr_located (m : Z) (l : location) (e n N D : Z) :
  0 < D -> 0 <= m -> located m l N D -> 0 <= n ->
  snd (shr (shr_record_of_loc m l) e n) = e + n
  /\ shr_m (fst (shr (shr_record_of_loc m l) e n)) = m / 2 ^ n
  /\ located (shr_m (fst (shr (shr_record_of_loc m l) e n)))
       (loc_of_shr_record (fst (shr (shr_record_of_loc m l) e n))) N (D * 2 ^ n).
Proof.
  intros HD Hm H Hn. destruct (located_record m l) as [Em El].
  destruct n as [|p|p]; [| |lia]; cbn [shr fst snd].
  - rewrite Em, El, Z.div_1_r, Z.mul_1_r. split; [lia|]. split; [reflexivity | exact H].
  - split; [reflexivity|].
    rewrite <- Em at 2.
    apply iter_shr_located; rewrite ?Em, ?El; assumption.
Qed.

Lemma round_nearest_even_nearest (m : Z) (l : location) (N D : Z) :
  0 < D -> located m l N D ->
  nearest (round_nearest_even m l) N D
  /\ m <= round_nearest_even m l <= m + 1.
Proof.
  intros HD H. unfold nearest.
  destruct l as [|[| |]]; cbn [round_nearest_even located] in *.
  - split; [|lia]. subst N. rewrite Z.sub_diag. simpl. split; [lia|]. lia.
  - destruct (Z.even m) eqn:Ev.
    + split; [|lia]. split; [lia|]. intros _. exact Ev.
    + split; [|lia]. split; [lia|]. intros _.
      rewrite Z.even_add, Ev. reflexivity.
  - split; [|lia]. split; lia.
  - split; [|lia]. split; lia.
Qed.

Lemma nearest_unique (a b N D : Z) :
  0 < D -> nearest a N D -> nearest b N D -> a = b.
Proof.
  intros HD [Ha Ea] [Hb Eb].
  destruct (Z.lt_trichotomy a b) as [H|[H|H]]; [exfalso|exact H|exfalso].
  - assert (b = a + 1) by nia. subst b.
    assert (T1 : 2 * Z.abs (a * D - N) = D) by nia.
    assert (T2 : 2 * Z.abs ((a + 1) * D - N) = D) by nia.
    specialize (Ea T1). specialize (Eb T2).
    rewrite Z.even_add, Ea in Eb. discriminate Eb.
  - assert (a = b + 1) by nia. subst a.
    assert (T1 : 2 * Z.abs (b * D - N) = D) by nia.
    assert (T2 : 2 * Z.abs ((b + 1) * D - N) = D) by nia.
    specialize (Ea T2). specialize (Eb T1).
    rewrite Z.even_add, Eb in Ea. discriminate Ea.
Qed.

Lemma fexp_normal (x : Z) : -1074 <= x - 53 -> fexp 53 1024 x = x - 53.
Proof. unfold fexp, emin. lia. Qed.

Lemma div_pow_bounds (m n a b : Z) :
  0 <= n -> a * 2 ^ n <= m < b * 2 ^ n -> a <= m / 2 ^ n < b.
Proof.
  intros Hn [Hl Hu].
  assert (Hp : 0 < 2 ^ n) by (apply Z.pow_pos_nonneg; lia).
  split.
  - apply Z.div_le_lower_bound; [exact Hp | lia].
  - apply Z.div_lt_upper_bound; [exact Hp | lia].
Qed.

(** The rounding of a positive number to binary64, in the normal range:
    the mantissa is the integer nearest to the number scaled to the
    exponent of its binade (an even one on a tie). *)
Lemma round_aux_exists (sx : bool) (m : positive) (e : Z) (l : location) (N D : Z) :
  0 < D -> located (Zpos m) l N D ->
  53 <= Zpos (digits2_pos m) ->
  -1074 <= Zpos (digits2_pos m) + e - 53 <= 970 ->
  exists m1,
    nearest m1 N (D * 2 ^ (Zpos (digits2_pos m) - 53))
    /\ 2 ^ 52 <= m1 <= 2 ^ 53
    /\ binary_round_aux 53 1024 sx (Zpos m) e l
       = pack sx m1 (Zpos (digits2_pos m) + e - 53).
Proof.
  intros HD Hloc Hd HE.
  set (d := Zpos (digits2_pos m)) in *.
  set (n := d - 53) in *.
  assert (Hn : 0 <= n) by (unfold n; lia).
  assert (Hp : 0 < 2 ^ n) by (apply Z.pow_pos_nonneg; lia).
  unfold binary_round_aux, shr_fexp. cbn [Zdigits2]. fold d.
  rewrite fexp_normal by lia.
  replace (d + e - 53 - e) with n by (unfold n; lia).
  destruct (shr_located (Zpos m) l e n N D HD ltac:(lia) Hloc Hn) as (Hs & Hm' & Hl').
  destruct (shr (shr_record_of_loc (Zpos m) l) e n) as [r' e'] eqn:Hshr.
  cbn [fst snd] in Hs, Hm', Hl'. subst e'.
  assert (HD' : 0 < D * 2 ^ n) by nia.
  destruct (round_nearest_even_nearest _ _ N _ HD' Hl') as [Hn1 Hb1].
  set (m1 := round_nearest_even (shr_m r') (loc_of_shr_record r')) in *.
  assert (Hm'b : 2 ^ 52 <= shr_m r' < 2 ^ 53).
  { rewrite Hm'. apply div_pow_bounds; [exact Hn|].
    destruct (digits2_pos_bounds m) as [Hl Hu]. fold d in Hl, Hu.
    assert (P1 : 2 ^ (d - 1) = 2 ^ 52 * 2 ^ n)
      by (rewrite <- Z.pow_add_r by lia; f_equal; unfold n; lia).
    assert (P2 : 2 ^ d = 2 ^ 53 * 2 ^ n)
      by (rewrite <- Z.pow_add_r by lia; f_equal; unfold n; lia).
    rewrite P1 in Hl. rewrite P2 in Hu. split; assumption. }
  exists m1. split; [exact Hn1|]. split; [lia|].
  replace (e + n) with (d + e - 53) by (unfold n; lia).
  set (E := d + e - 53) in *.
  destruct (Z.ltb_spec m1 (2 ^ 53)) as [Hlt|Hge].
  - destruct m1 as [|p|p] eqn:Em1; [lia| |lia].
    assert (Hdp : Zpos (digits2_pos p) = 53) by (apply digits2_pos_unique; lia).
    cbn [Zdigits2]. rewrite Hdp, fexp_normal by lia.
    replace (53 + E - 53 - E) with 0 by lia.
    cbn [shr shr_record_of_loc shr_m].
    unfold pack. destruct (Z.ltb_spec (Zpos p) (2 ^ 53)) as [_|?]; [|lia].
    destruct (Z.leb_spec E (1024 - 53)) as [_|?]; [reflexivity | lia].
  - assert (Hm1 : m1 = 2 ^ 53) by lia. rewrite Hm1.
    change (2 ^ 53) with 9007199254740992.
    change (Zdigits2 9007199254740992) with 54.
    rewrite fexp_normal by lia.
    replace (54 + E - 53 - E) with 1 by lia.
    cbn [shr shr_record_of_loc shr_m SpecFloat.iter_pos shr_1].
    destruct (Z.leb_spec (E + 1) (1024 - 53)) as [_|?]; [reflexivity | lia].
Qed.

Lemma round_aux_pack (sx : bool) (m : positive) (e : Z) (l : location)
    (N D m1 : Z) :
  0 < D -> located (Zpos m) l N D ->
  53 <= Zpos (digits2_pos m) ->
  -1074 <= Zpos (digits2_pos m) + e - 53 <= 970 ->
  nearest m1 N (D * 2 ^ (Zpos (digits2_pos m) - 53)) ->
  binary_round_aux 53 1024 sx (Zpos m) e l
  = pack sx m1 (Zpos (digits2_pos m) + e - 53).
Proof.
  intros HD Hloc Hd HE Hnear.
  destruct (round_aux_exists sx m e l N D HD Hloc Hd HE) as (m1' & Hn' & _ & ->).
  f_equal. apply (nearest_unique _ _ N (D * 2 ^ (Zpos (digits2_pos m) - 53)));
    [|assumption ..].
  assert (0 < 2 ^ (Zpos (digits2_pos m) - 53)) by (apply Z.pow_pos_nonneg; lia).
  nia.
Qed.

Lemma nearest_exact (m N D : Z) : N = m * D -> 0 < D -> nearest m N D.
Proof.
  intros -> HD. unfold nearest. rewrite Z.sub_diag. simpl. split; [lia|]. lia.
Qed.

(** Nearness depends on the ratio only. *)
Lemma nearest_ratio (m N D N' D' : Z) :
  0 < D -> 0 < D' -> N * D' = N' * D -> nearest m N D -> nearest m N' D'.
Proof.
  intros HD HD' HR [H1 H2]. unfold nearest.
  assert (K : Z.abs (m * D - N) * D' = Z.abs (m * D' - N') * D).
  { destruct (Z.abs_spec (m * D - N)) as [[? ->]|[? ->]],
      (Z.abs_spec (m * D' - N')) as [[? ->]|[? ->]]; nia. }
  split; [nia|]. intros T. apply H2. nia.
Qed.

Lemma pack_normal (sx : bool) (m E : Z) :
  2 ^ 52 <= m < 2 ^ 53 -> pack sx m E = S754_finite sx (Z.to_pos m) E.
Proof.
  intros H. unfold pack. destruct m as [|p|p]; [lia| |lia].
  destruct (Z.ltb_spec (Zpos p) (2 ^ 53)); [reflexivity | lia].
Qed.

Lemma pos_iter_xO (m d : positive) :
  Zpos (Pos.iter xO m d) = Zpos m * 2 ^ Zpos d.
Proof.
  induction d as [|d IH] using Pos.peano_ind.
  - change (Zpos (Pos.iter xO m 1)) with (2 * Zpos m). change (2 ^ 1) with 2. lia.
  - rewrite Pos.iter_succ, Pos2Z.inj_succ, Z.pow_succ_r by lia.
    change (Zpos (Pos.iter xO m d)~0) with (2 * Zpos (Pos.iter xO m d)).
    rewrite IH. ring.
Qed.

Lemma shl_align_below (m : positive) (e ez : Z) :
  ez <= e ->
  Zpos (fst (shl_align m e ez)) = Zpos m * 2 ^ (e - ez)
  /\ snd (shl_align m e ez) = ez.
Proof.
  intros H. unfold shl_align. destruct (ez - e) as [|p|p] eqn:E; [| lia |].
  - assert (e = ez) by lia. subst. rewrite Z.sub_diag. cbn [fst snd]. split; lia.
  - cbn [fst snd]. rewrite pos_iter_xO. split; [|reflexivity].
    f_equal. f_equal. lia.
Qed.

(** The rounding of a non-zero integer times a power of two: in the normal
    range it is the nearest to its 53-bit mantissa. *)
Lemma normalize_pack (S e d m1 N D : Z) (sz : bool) :
  S <> 0 -> 2 ^ (d - 1) <= Z.abs S < 2 ^ d ->
  -1074 <= d + e - 53 <= 970 ->
  0 < D -> N * 2 ^ Z.max 0 (d - 53) = Z.abs S * 2 ^ Z.max 0 (53 - d) * D ->
  nearest m1 N D ->
  binary_normalize 53 1024 S e sz = pack (S <? 0) m1 (d + e - 53).
Proof.
  intros HS Hd HE HD HR Hnear.
  assert (Hgen : forall (sx : bool) (p : positive),
            Z.abs S = Zpos p -> binary_round 53 1024 sx p e = pack sx m1 (d + e - 53)).
  { intros sx p Hp. rewrite Hp in Hd, HR.
    assert (Hdp := digits2_pos_unique p d Hd).
    assert (Hd1 : 0 < d) by (rewrite <- Hdp; lia).
    unfold binary_round. rewrite Hdp, fexp_normal by lia.
    destruct (Z_le_gt_dec 53 d) as [Hge|Hlt].
    - (* no shift to the left *)
      unfold shl_align. destruct (d + e - 53 - e) as [|q|q] eqn:Eq; [| |lia].
      + rewrite <- Hdp. apply (round_aux_pack sx p e loc_Exact (Zpos p) 1);
          rewrite ?Hdp; try lia; [cbn; lia|].
        rewrite Z.max_r, Z.max_l in HR by lia.
        assert (0 < 2 ^ (d - 53)) by (apply Z.pow_pos_nonneg; lia).
        apply (nearest_ratio m1 N D); [exact HD | plia | plia | exact Hnear].
      + rewrite <- Hdp. apply (round_aux_pack sx p e loc_Exact (Zpos p) 1);
          rewrite ?Hdp; try lia; [cbn; lia|].
        rewrite Z.max_r, Z.max_l in HR by lia.
        assert (0 < 2 ^ (d - 53)) by (apply Z.pow_pos_nonneg; lia).
        apply (nearest_ratio m1 N D); [exact HD | plia | plia | exact Hnear].
    - (* the mantissa is shifted to 53 bits *)
      destruct (shl_align_below p e (d + e - 53) ltac:(lia)) as [Hm He].
      destruct (shl_align p e (d + e - 53)) as [p' e'] eqn:Hsh.
      cbn [fst snd] in Hm, He. subst e'.
      replace (e - (d + e - 53)) with (53 - d) in Hm by lia.
      assert (Hpw : 0 < 2 ^ (53 - d)) by (apply Z.pow_pos_nonneg; lia).
      assert (Hb : 2 ^ 52 <= Zpos p' < 2 ^ 53).
      { rewrite Hm. destruct Hd as [Hl Hu].
        assert (P1 : 2 ^ 52 = 2 ^ (d - 1) * 2 ^ (53 - d))
          by (rewrite <- Z.pow_add_r by lia; f_equal; lia).
        assert (P2 : 2 ^ 53 = 2 ^ d * 2 ^ (53 - d))
          by (rewrite <- Z.pow_add_r by lia; f_equal; lia).
        rewrite P1, P2. clear P1 P2. pnia. }
      assert (Hdp' : Zpos (digits2_pos p') = 53) by (apply digits2_pos_unique; lia).
      replace (d + e - 53) with (Zpos (digits2_pos p') + (d + e - 53) - 53) at 2
        by lia.
      apply (round_aux_pack sx p' (d + e - 53) loc_Exact (Zpos p') 1);
        rewrite ?Hdp'; try lia; [cbn; lia|].
      rewrite Z.max_l, Z.max_r in HR by lia.
      change (53 - 53) with 0.
      apply (nearest_ratio m1 N D); [exact HD | plia | plia | exact Hnear]. }
  destruct S as [|p|p]; [congruence| |]; cbn [binary_normalize].
  - apply Hgen. reflexivity.
  - apply Hgen. reflexivity.
Qed.


Lemma pow2_add (a b c : Z) : 0 <= b -> 0 <= c -> a = b + c -> 2 ^ a = 2 ^ b * 2 ^ c.
Proof. intros Hb Hc ->. apply Z.pow_add_r; assumption. Qed.

Lemma pow2_pos (a : Z) : 0 <= a -> 0 < 2 ^ a.
Proof. intros H. apply Z.pow_pos_nonneg; lia. Qed.

(** The rounding of [S * 2 ^ e], told from its value in units of
    [2 ^ e0]. *)
Lemma normalize_near (S e e0 E m1 : Z) (b : bool) :
  e0 <= e -> e0 <= E -> -1074 <= E <= 970 ->
  2 ^ 52 * 2 ^ (E - e0) <= Z.abs S * 2 ^ (e - e0) < 2 ^ 53 * 2 ^ (E - e0) ->
  nearest m1 (Z.abs S * 2 ^ (e - e0)) (2 ^ (E - e0)) ->
  binary_normalize 53 1024 S e b = pack (S <? 0) m1 E.
Proof.
  intros He HE HR [Hl Hu] Hnear.
  assert (HA := pow2_pos (e - e0) ltac:(lia)).
  assert (HB := pow2_pos (E - e0) ltac:(lia)).
  assert (HS : S <> 0).
  { intros ->. simpl in Hl. plia. }
  assert (Hd : 1 <= 53 + E - e).
  { destruct (Z_le_gt_dec 1 (53 + E - e)) as [?|Hgt]; [assumption|exfalso].
    assert (P : 2 ^ (e - e0) = 2 ^ (53 + (E - e0)) * 2 ^ (e - 53 - E))
      by (apply pow2_add; lia).
    assert (Q : 2 ^ (53 + (E - e0)) = 2 ^ 53 * 2 ^ (E - e0)) by (apply pow2_add; lia).
    assert (HC := pow2_pos (e - 53 - E) ltac:(lia)).
    rewrite P, Q in Hu. clear P Q Hl Hnear HA.
    change (2 ^ 53) with 9007199254740992 in Hu.
    set (B := 2 ^ (E - e0)) in *. set (C := 2 ^ (e - 53 - E)) in *.
    clearbody B C.
    assert (H1 : 1 * 1 <= Z.abs S * C) by (apply Z.mul_le_mono_nonneg; lia).
    assert (H2 : 9007199254740992 * B * 1 <= 9007199254740992 * B * (Z.abs S * C))
      by (apply Z.mul_le_mono_nonneg_l; lia).
    lia. }
  replace (pack (S <? 0) m1 E) with (pack (S <? 0) m1 (53 + E - e + e - 53))
    by (f_equal; lia).
  apply (normalize_pack S e (53 + E - e) m1 (Z.abs S * 2 ^ (e - e0)) (2 ^ (E - e0)));
    [exact HS | | lia | exact HB | | exact Hnear].
  - assert (P1 : 2 ^ (52 + (E - e0)) = 2 ^ (53 + E - e - 1) * 2 ^ (e - e0))
      by (apply pow2_add; lia).
    assert (P2 : 2 ^ (53 + (E - e0)) = 2 ^ (53 + E - e) * 2 ^ (e - e0))
      by (apply pow2_add; lia).
    assert (Q1 : 2 ^ (52 + (E - e0)) = 2 ^ 52 * 2 ^ (E - e0)) by (apply pow2_add; lia).
    assert (Q2 : 2 ^ (53 + (E - e0)) = 2 ^ 53 * 2 ^ (E - e0)) by (apply pow2_add; lia).
    rewrite <- Q1 in Hl. rewrite <- Q2 in Hu. rewrite P1 in Hl. rewrite P2 in Hu.
    clear P1 P2 Q1 Q2. split; hide_pows; nia.
  - destruct (Z_le_gt_dec e E) as [Hle|Hgt].
    + rewrite Z.max_r, Z.max_l by lia.
      assert (P : 2 ^ (E - e0) = 2 ^ (e - e0) * 2 ^ (53 + E - e - 53))
        by (apply pow2_add; lia).
      rewrite P. change (2 ^ 0) with 1. ring.
    + rewrite Z.max_l, Z.max_r by lia.
      assert (P : 2 ^ (e - e0) = 2 ^ (53 - (53 + E - e)) * 2 ^ (E - e0))
        by (apply pow2_add; lia).
      rewrite P. change (2 ^ 0) with 1. ring.
Qed.

Lemma scaled_sign (e0 : Z) (z : spec_float) (S : Z) :
  normal e0 z -> S = scaled e0 z ->
  exists (s : bool) (m : positive) (E : Z),
    z = S754_finite s m E /\ (S <? 0) = s
    /\ Z.abs S = Zpos m * 2 ^ (E - e0)
    /\ 2 ^ 52 <= Zpos m < 2 ^ 53 /\ e0 <= E /\ -1074 <= E <= 970.
Proof.
  destruct z as [| | |s m E]; cbn [normal scaled]; try tauto.
  intros (Hm & HE0 & HE) ->. exists s, m, E.
  assert (HB := pow2_pos (E - e0) ltac:(lia)).
  assert (0 < Zpos m * 2 ^ (E - e0)) by nia.
  split; [reflexivity|]. destruct s; cbn [cond_Zopp].
  - split; [apply Z.ltb_lt; lia|]. split; [lia|]. tauto.
  - split; [apply Z.ltb_ge; lia|]. split; [lia|]. tauto.
Qed.

(** A sum or product whose value is that of a normal number [z] is
    rounded to [z]. *)
Lemma normalize_exact (S e e0 : Z) (z : spec_float) (b : bool) :
  e0 <= e -> normal e0 z -> S * 2 ^ (e - e0) = scaled e0 z ->
  binary_normalize 53 1024 S e b = z.
Proof.
  intros He Hz HS.
  assert (HA := pow2_pos (e - e0) ltac:(lia)).
  destruct (scaled_sign e0 z _ Hz HS) as (s & m & E & -> & Hs & Habs & Hm & HE0 & HE).
  assert (HB := pow2_pos (E - e0) ltac:(lia)).
  assert (Hsg : (S <? 0) = s).
  { rewrite <- Hs. destruct (Z.ltb_spec S 0), (Z.ltb_spec (S * 2 ^ (e - e0)) 0);
      try reflexivity; nia. }
  assert (Habs' : Z.abs S * 2 ^ (e - e0) = Zpos m * 2 ^ (E - e0)).
  { rewrite <- Habs, Z.abs_mul, (Z.abs_eq (2 ^ (e - e0))) by lia. reflexivity. }
  rewrite (normalize_near S e e0 E (Zpos m) b He HE0 HE).
  - rewrite Hsg. unfold pack.
    destruct (Z.ltb_spec (Zpos m) (2 ^ 53)); [reflexivity|lia].
  - rewrite Habs'. split; hide_pows; nia.
  - apply nearest_exact; [exact Habs' | exact HB].
Qed.


Lemma normalize_value (S e e0 E m1 V : Z) (b : bool) :
  e0 <= e -> e0 <= E -> -1074 <= E <= 970 ->
  S * 2 ^ (e - e0) = V ->
  2 ^ 52 * 2 ^ (E - e0) <= Z.abs V < 2 ^ 53 * 2 ^ (E - e0) ->
  nearest m1 (Z.abs V) (2 ^ (E - e0)) ->
  binary_normalize 53 1024 S e b = pack (V <? 0) m1 E.
Proof.
  intros He HE0 HE HV Hb Hnear.
  assert (HA := pow2_pos (e - e0) ltac:(lia)).
  assert (Habs : Z.abs V = Z.abs S * 2 ^ (e - e0)).
  { rewrite <- HV, Z.abs_mul, (Z.abs_eq (2 ^ (e - e0))) by lia. reflexivity. }
  assert (Hsg : (V <? 0) = (S <? 0)).
  { rewrite <- HV. destruct (Z.ltb_spec S 0), (Z.ltb_spec (S * 2 ^ (e - e0)) 0);
      try reflexivity; nia. }
  rewrite Hsg. rewrite Habs in Hb, Hnear.
  apply (normalize_near S e e0 E m1 b); assumption.
Qed.

Lemma aligned (e0 : Z) (s : bool) (m : positive) (e ez : Z) :
  e0 <= ez -> ez <= e ->
  cond_Zopp s (Zpos (fst (shl_align m e ez))) * 2 ^ (ez - e0)
  = scaled e0 (S754_finite s m e).
Proof.
  intros H0 Hz. destruct (shl_align_below m e ez Hz) as [-> _].
  cbn [scaled].
  assert (P : 2 ^ (e - e0) = 2 ^ (e - ez) * 2 ^ (ez - e0)) by (apply pow2_add; lia).
  rewrite P. destruct s; cbn [cond_Zopp]; ring.
Qed.

(** A sum or a difference of two normal numbers is the rounding of the
    exact one. *)
Lemma SFadd_normalize (e0 : Z) (x y : spec_float) :
  normal e0 x -> normal e0 y ->
  exists S e, e0 <= e /\ S * 2 ^ (e - e0) = scaled e0 x + scaled e0 y
    /\ SFadd 53 1024 x y = binary_normalize 53 1024 S e false.
Proof.
  destruct x as [| | |sx mx ex], y as [| | |sy my ey]; cbn [normal]; try tauto.
  intros (_ & Hx & _) (_ & Hy & _).
  eexists _, (Z.min ex ey). split; [lia|]. split; [|reflexivity].
  rewrite Z.mul_add_distr_r, !aligned by lia. reflexivity.
Qed.

Lemma SFsub_normalize (e0 : Z) (x y : spec_float) :
  normal e0 x -> normal e0 y ->
  exists S e, e0 <= e /\ S * 2 ^ (e - e0) = scaled e0 x - scaled e0 y
    /\ SFsub 53 1024 x y = binary_normalize 53 1024 S e false.
Proof.
  destruct x as [| | |sx mx ex], y as [| | |sy my ey]; cbn [normal]; try tauto.
  intros (_ & Hx & _) (_ & Hy & _).
  eexists _, (Z.min ex ey). split; [lia|]. split; [|reflexivity].
  rewrite Z.mul_sub_distr_r, !aligned by lia. reflexivity.
Qed.

Lemma add_exact (e0 : Z) (x y z : spec_float) :
  normal e0 x -> normal e0 y -> normal e0 z ->
  scaled e0 x + scaled e0 y = scaled e0 z ->
  SFadd 53 1024 x y = z.
Proof.
  intros Hx Hy Hz H.
  destruct (SFadd_normalize e0 x y Hx Hy) as (S & e & He & HS & ->).
  apply (normalize_exact S e e0 z false He Hz). congruence.
Qed.

Lemma sub_exact (e0 : Z) (x y z : spec_float) :
  normal e0 x -> normal e0 y -> normal e0 z ->
  scaled e0 x - scaled e0 y = scaled e0 z ->
  SFsub 53 1024 x y = z.
Proof.
  intros Hx Hy Hz H.
  destruct (SFsub_normalize e0 x y Hx Hy) as (S & e & He & HS & ->).
  apply (normalize_exact S e e0 z false He Hz). congruence.
Qed.

Lemma sub_zero (e0 : Z) (x y : spec_float) :
  normal e0 x -> normal e0 y -> scaled e0 x = scaled e0 y ->
  SFsub 53 1024 x y = S754_zero false.
Proof.
  intros Hx Hy H.
  destruct (SFsub_normalize e0 x y Hx Hy) as (S & e & He & HS & ->).
  assert (HA := pow2_pos (e - e0) ltac:(lia)).
  assert (S = 0) by nia. subst S. reflexivity.
Qed.

Lemma add_near (e0 E m1 : Z) (x y : spec_float) :
  normal e0 x -> normal e0 y -> e0 <= E -> -1074 <= E <= 970 ->
  2 ^ 52 * 2 ^ (E - e0) <= Z.abs (scaled e0 x + scaled e0 y) < 2 ^ 53 * 2 ^ (E - e0) ->
  nearest m1 (Z.abs (scaled e0 x + scaled e0 y)) (2 ^ (E - e0)) ->
  SFadd 53 1024 x y = pack (scaled e0 x + scaled e0 y <? 0) m1 E.
Proof.
  intros Hx Hy HE0 HE Hb Hnear.
  destruct (SFadd_normalize e0 x y Hx Hy) as (S & e & He & HS & ->).
  apply (normalize_value S e e0 E m1 _ false); assumption.
Qed.

(** Normal numbers compare as their values do. *)
Lemma compare_normal (e0 : Z) (x y : spec_float) :
  normal e0 x -> normal e0 y ->
  SFcompare x y = Some (scaled e0 x ?= scaled e0 y).
Proof.
  destruct x as [| | |sx mx ex], y as [| | |sy my ey]; cbn [normal]; try tauto.
  intros (Hmx & Hx & _) (Hmy & Hy & _). cbn [SFcompare scaled]. f_equal.
  assert (HA := pow2_pos (ex - e0) ltac:(lia)).
  assert (HB := pow2_pos (ey - e0) ltac:(lia)).
  assert (Hlt : forall (m1 m2 : positive) (e1 e2 : Z),
            2 ^ 52 <= Zpos m1 < 2 ^ 53 -> 2 ^ 52 <= Zpos m2 < 2 ^ 53 ->
            e0 <= e1 -> e1 < e2 ->
            Zpos m1 * 2 ^ (e1 - e0) < Zpos m2 * 2 ^ (e2 - e0)).
  { intros m1 m2 e1 e2 H1 H2 H3 H4.
    assert (P : 2 ^ (e2 - e0) = 2 ^ (e1 - e0) * 2 ^ (e2 - e1)) by (apply pow2_add; lia).
    assert (Q : 2 ^ (e2 - e1) = 2 ^ 1 * 2 ^ (e2 - e1 - 1)) by (apply pow2_add; lia).
    assert (HC := pow2_pos (e1 - e0) ltac:(lia)).
    assert (HD := pow2_pos (e2 - e1 - 1) ltac:(lia)).
    rewrite P, Q. clear P Q.
    change (2 ^ 1) with 2. change (2 ^ 52) with 4503599627370496 in *.
    change (2 ^ 53) with 9007199254740992 in *.
    set (A := 2 ^ (e1 - e0)) in *. set (C := 2 ^ (e2 - e1 - 1)) in *. clearbody A C.
    assert (Zpos m1 * A < 9007199254740992 * A) by nia.
    assert (9007199254740992 * A * 1 <= 9007199254740992 * A * C)
      by (apply Z.mul_le_mono_nonneg_l; lia).
    assert (4503599627370496 * (A * (2 * C)) <= Zpos m2 * (A * (2 * C)))
      by (apply Z.mul_le_mono_nonneg_r; lia).
    lia. }
  assert (Heq : forall (m1 m2 : positive) (e : Z), e0 <= e ->
            Pos.compare_cont Eq m1 m2
            = (Zpos m1 * 2 ^ (e - e0) ?= Zpos m2 * 2 ^ (e - e0))).
  { intros m1 m2 e He. assert (HC := pow2_pos (e - e0) ltac:(lia)).
    change (Pos.compare_cont Eq m1 m2) with (Zpos m1 ?= Zpos m2).
    destruct (Z.compare_spec (Zpos m1) (Zpos m2)) as [E|E|E]; symmetry.
    - apply Z.compare_eq_iff. rewrite E. reflexivity.
    - apply Z.compare_lt_iff. nia.
    - apply Z.compare_gt_iff. nia. }
  destruct sx, sy; cbn [cond_Zopp].
  - rewrite Z.compare_opp.
    destruct (Z.compare_spec ex ey) as [->|H|H].
    + rewrite (Heq mx my ey Hy), Z.compare_antisym.
      destruct (Z.pos my * 2 ^ (ey - e0) ?= Z.pos mx * 2 ^ (ey - e0)); reflexivity.
    + symmetry. apply Z.compare_gt_iff. apply Hlt; assumption.
    + symmetry. apply Z.compare_lt_iff. apply Hlt; assumption.
  - symmetry. apply Z.compare_lt_iff. nia.
  - symmetry. apply Z.compare_gt_iff. nia.
  - destruct (Z.compare_spec ex ey) as [->|H|H].
    + apply Heq. exact Hy.
    + symmetry. apply Z.compare_lt_iff. apply Hlt; assumption.
    + symmetry. apply Z.compare_gt_iff. apply Hlt; assumption.
Qed.


Lemma normal_number (e0 : Z) (s : bool) (m e : Z) :
  2 ^ 52 <= m < 2 ^ 53 -> e0 <= e -> -1074 <= e <= 970 ->
  normal e0 (number s m e) /\ scaled e0 (number s m e) = cond_Zopp s (m * 2 ^ (e - e0)).
Proof.
  intros Hm H0 He. unfold number. cbn [normal scaled].
  rewrite Z2Pos.id by lia. tauto.
Qed.

Lemma pack_number (s : bool) (m e : Z) :
  0 < m < 2 ^ 53 -> pack s m e = number s m e.
Proof.
  intros Hm. unfold pack, number. destruct m as [|p|p]; [lia| |lia].
  destruct (Z.ltb_spec (Zpos p) (2 ^ 53)); [reflexivity | lia].
Qed.

Lemma pack_carry (s : bool) (e : Z) : pack s (2 ^ 53) e = number s (2 ^ 52) (e + 1).
Proof. reflexivity. Qed.

Lemma dyadic_mantissa (p : positive) :
  Zpos p < 2 ^ 53 ->
  2 ^ 52 <= Zpos p * 2 ^ (53 - Zpos (digits2_pos p)) < 2 ^ 53
  /\ 1 <= Zpos (digits2_pos p) <= 53.
Proof.
  intros Hp. destruct (digits2_pos_bounds p) as [Hl Hu].
  set (d := Zpos (digits2_pos p)) in *.
  assert (Hd1 : 1 <= d) by (unfold d; lia).
  assert (Hd : d <= 53).
  { destruct (Z_le_gt_dec d 53) as [?|Hgt]; [assumption|exfalso].
    assert (2 ^ 53 <= 2 ^ (d - 1)) by (apply Z.pow_le_mono_r; lia). lia. }
  split; [|lia].
  assert (P1 : 2 ^ 52 = 2 ^ (d - 1) * 2 ^ (53 - d)) by (apply pow2_add; lia).
  assert (P2 : 2 ^ 53 = 2 ^ d * 2 ^ (53 - d)) by (apply pow2_add; lia).
  assert (HT := pow2_pos (53 - d) ltac:(lia)).
  rewrite P1, P2. clear P1 P2 Hp.
  set (A := 2 ^ (d - 1)) in *. set (B := 2 ^ d) in *. set (T := 2 ^ (53 - d)) in *.
  clearbody A B T. nia.
Qed.

Lemma dyadic_normal (e0 : Z) (s : bool) (p : positive) (e : Z) :
  Zpos p < 2 ^ 53 -> e0 <= e - 52 -> -1022 <= e <= 970 ->
  normal e0 (dyadic s p e)
  /\ scaled e0 (dyadic s p e) = cond_Zopp s (Zpos p * 2 ^ (e - e0)).
Proof.
  intros Hp H0 He. destruct (dyadic_mantissa p Hp) as [Hm Hd].
  unfold dyadic.
  destruct (normal_number e0 s _ (e + Zpos (digits2_pos p) - 53) Hm ltac:(lia) ltac:(lia))
    as [Hn Hs].
  split; [exact Hn|]. rewrite Hs. f_equal.
  assert (P : 2 ^ (e - e0)
              = 2 ^ (53 - Zpos (digits2_pos p)) * 2 ^ (e + Zpos (digits2_pos p) - 53 - e0))
    by (apply pow2_add; lia).
  rewrite P. ring.
Qed.

Lemma dyadic_opp (s : bool) (p : positive) (e : Z) :
  SFopp (dyadic s p e) = dyadic (negb s) p e.
Proof. reflexivity. Qed.

(** Products and quotients of normal numbers. *)
Lemma SFmul_exists (sx sy : bool) (mx my : positive) (ex ey d : Z) :
  2 ^ (d - 1) <= Zpos mx * Zpos my < 2 ^ d -> 53 <= d ->
  -1074 <= d + (ex + ey) - 53 <= 970 ->
  exists m1,
    nearest m1 (Zpos mx * Zpos my) (2 ^ (d - 53))
    /\ 2 ^ 52 <= m1 <= 2 ^ 53
    /\ SFmul 53 1024 (S754_finite sx mx ex) (S754_finite sy my ey)
       = pack (xorb sx sy) m1 (d + (ex + ey) - 53).
Proof.
  intros Hd H53 HE. cbn [SFmul].
  assert (Hdp : Zpos (digits2_pos (mx * my)) = d)
    by (apply digits2_pos_unique; rewrite Pos2Z.inj_mul; exact Hd).
  destruct (round_aux_exists (xorb sx sy) (mx * my) (ex + ey) loc_Exact
              (Zpos mx * Zpos my) 1) as (m1 & Hn & Hb & Heq).
  - lia.
  - cbn [located]. rewrite Pos2Z.inj_mul. ring.
  - rewrite Hdp. exact H53.
  - rewrite Hdp. exact HE.
  - exists m1. rewrite Hdp, Z.mul_1_l in *. tauto.
Qed.

Lemma new_location_located (D q r : Z) :
  0 < D -> 0 <= r < D -> located q (new_location D r) (q * D + r) D.
Proof.
  intros HD Hr. unfold new_location, new_location_even, new_location_odd.
  destruct (Z.even D) eqn:Ev.
  - destruct (Z.eqb_spec r 0) as [->|Hr0]; [cbn [located]; lia|].
    destruct (Z.compare_spec (2 * r) D); cbn [located]; nia.
  - destruct (Z.eqb_spec r 0) as [->|Hr0]; [cbn [located]; lia|].
    destruct (Z.compare_spec (2 * r + 1) D) as [E|E|E]; cbn [located]; try nia.
    assert (2 * r <> D).
    { intros <-. rewrite Z.even_mul in Ev. discriminate Ev. }
    nia.
Qed.

Lemma SFdiv_exists (sx sy : bool) (mx my : positive) (ex ey d : Z) :
  2 ^ 52 <= Zpos mx < 2 ^ 53 -> 2 ^ 52 <= Zpos my < 2 ^ 53 ->
  -1074 <= ex - ey - 53 ->
  2 ^ (d - 1) <= Zpos mx * 2 ^ 53 / Zpos my < 2 ^ d -> 53 <= d ->
  -1074 <= d + (ex - ey - 53) - 53 <= 970 ->
  exists m1,
    nearest m1 (Zpos mx * 2 ^ 53) (Zpos my * 2 ^ (d - 53))
    /\ 2 ^ 52 <= m1 <= 2 ^ 53
    /\ SFdiv 53 1024 (S754_finite sx mx ex) (S754_finite sy my ey)
       = pack (xorb sx sy) m1 (d + (ex - ey - 53) - 53).
Proof.
  intros Hmx Hmy He Hd H53 HE. cbn [SFdiv]. unfold SFdiv_core_binary.
  cbn [Zdigits2].
  rewrite (digits2_pos_unique mx 53 Hmx), (digits2_pos_unique my 53 Hmy).
  replace (53 + ex - (53 + ey)) with (ex - ey) by lia.
  unfold fexp, emin.
  replace (Z.min (Z.max (ex - ey - 53) (3 - 1024 - 53)) (ex - ey)) with (ex - ey - 53) by lia.
  replace (ex - ey - (ex - ey - 53)) with 53 by lia.
  rewrite Z.shiftl_mul_pow2 by lia.
  assert (Hdiv := Z.div_eucl_eq (Zpos mx * 2 ^ 53) (Zpos my) ltac:(lia)).
  assert (Hmod := Z.mod_pos_bound (Zpos mx * 2 ^ 53) (Zpos my) ltac:(lia)).
  unfold Z.div, Z.modulo in *.
  destruct (Z.div_eucl (Zpos mx * 2 ^ 53) (Zpos my)) as [q r].
  destruct q as [|q|q]; [cbn in Hd; lia| |lia].
  assert (Hdp : Zpos (digits2_pos q) = d) by (apply digits2_pos_unique; exact Hd).
  destruct (round_aux_exists (xorb sx sy) q (ex - ey - 53) (new_location (Zpos my) r)
              (Zpos mx * 2 ^ 53) (Zpos my)) as (m1 & Hn & Hb & Heq).
  - lia.
  - rewrite Hdiv. replace (Zpos my * Zpos q + r) with (Zpos q * Zpos my + r) by ring.
    apply new_location_located; lia.
  - rewrite Hdp. exact H53.
  - rewrite Hdp. exact HE.
  - exists m1. rewrite Hdp in *. tauto.
Qed.


Ltac consts :=
  change (2 ^ (53 - 1)) with 4503599627370496 in *;
  change (2 ^ (54 - 1)) with 9007199254740992 in *;
  change (2 ^ (53 - 53)) with 1 in *;
  change (2 ^ (54 - 53)) with 2 in *;
  change (2 ^ 52) with 4503599627370496 in *;
  change (2 ^ 53) with 9007199254740992 in *;
  change (2 ^ 54) with 18014398509481984 in *;
  change (2 ^ 0) with 1 in *;
  change (2 ^ 1) with 2 in *.

(** Division by 100: the quotient is within half a unit of its last
    place, which is 7 binary places below that of the dividend, or 6
    when the mantissa of the dividend is at least that of 100. *)
Lemma div_hundred (s : bool) (m : positive) (e : Z) :
  2 ^ 52 <= Zpos m < 2 ^ 53 -> -900 <= e <= 900 ->
  exists my i,
    (i = 0 \/ i = 1 /\ 7036874417766400 <= Zpos m)
    /\ 2 ^ 52 <= my < 2 ^ 53
    /\ SFdiv 53 1024 (S754_finite s m e) hundred = number s my (e - 7 + i)
    /\ Z.abs (100 * 2 ^ i * my - 128 * Zpos m) <= 50 * 2 ^ i.
Proof.
  intros Hm He. unfold hundred.
  set (q := Zpos m * 2 ^ 53 / 7036874417766400).
  assert (Hq : 2 ^ 52 <= q < 2 ^ 54).
  { unfold q. consts. split.
    - apply Z.div_le_lower_bound; lia.
    - apply Z.div_lt_upper_bound; lia. }
  destruct (Z_lt_ge_dec q (2 ^ 53)) as [Hlt|Hge].
  - destruct (SFdiv_exists s false m 7036874417766400 e (-46) 53 Hm)
      as (m1 & Hn & Hb & Heq); try (fold q; consts; lia).
    rewrite Heq, xorb_false_r.
    apply (nearest_ratio m1 _ _ (128 * Zpos m) 100) in Hn; try (consts; lia).
    destruct Hn as [Hn _].
    destruct (Z_lt_ge_dec m1 (2 ^ 53)) as [Hlt1|Hge1].
    + exists m1, 0. rewrite pack_number by lia.
      replace (53 + (e - -46 - 53) - 53) with (e - 7 + 0) by lia.
      split; [left; reflexivity|]. split; [lia|]. split; [reflexivity|].
      consts. lia.
    + assert (Hm1 : m1 = 2 ^ 53) by lia. subst m1.
      exists (2 ^ 52), 1. rewrite pack_carry.
      replace (53 + (e - -46 - 53) - 53 + 1) with (e - 7 + 1) by lia.
      split; [right; split; [reflexivity | consts; lia]|].
      split; [consts; lia|]. split; [reflexivity|].
      consts. lia.
  - assert (Hbig : 7036874417766400 <= Zpos m).
    { destruct (Z_le_gt_dec 7036874417766400 (Zpos m)) as [?|Hgt]; [assumption|exfalso].
      assert (q < 2 ^ 53); [|lia].
      unfold q. consts. apply Z.div_lt_upper_bound; lia. }
    destruct (SFdiv_exists s false m 7036874417766400 e (-46) 54 Hm)
      as (m1 & Hn & Hb & Heq); try (fold q; consts; lia).
    rewrite Heq, xorb_false_r.
    apply (nearest_ratio m1 _ _ (128 * Zpos m) 200) in Hn; try (consts; lia).
    destruct Hn as [Hn _].
    exists m1, 1. rewrite pack_number by (consts; lia).
    replace (54 + (e - -46 - 53) - 53) with (e - 7 + 1) by lia.
    split; [right; split; [reflexivity | exact Hbig]|].
    split; [consts; lia|]. split; [reflexivity|].
    consts. lia.
Qed.

(** Multiplication by 100: the product is within half a unit of its last
    place, which is 6 or 7 binary places above that of the factor. *)
Lemma mul_hundred (s : bool) (my : positive) (e : Z) :
  2 ^ 52 <= Zpos my < 2 ^ 53 -> -900 <= e <= 900 ->
  exists mw j,
    (j = 0 \/ j = 1) /\ 2 ^ 52 <= mw < 2 ^ 53
    /\ SFmul 53 1024 (S754_finite s my e) hundred = number s mw (e + 6 + j)
    /\ Z.abs (64 * 2 ^ j * mw - 100 * Zpos my) <= 32 * 2 ^ j.
Proof.
  intros Hm He. unfold hundred.
  destruct (Z_lt_ge_dec (Zpos my * 7036874417766400) (2 ^ 105)) as [Hlt|Hge].
  - destruct (SFmul_exists s false my 7036874417766400 e (-46) 105)
      as (m1 & Hn & Hb & Heq); try lia.
    + rewrite Heq, xorb_false_r.
      apply (nearest_ratio m1 _ _ (100 * Zpos my) 64) in Hn;
        try (change (2 ^ (105 - 53)) with 4503599627370496; lia).
      destruct Hn as [Hn _].
      destruct (Z_lt_ge_dec m1 (2 ^ 53)) as [Hlt1|Hge1].
      * exists m1, 0. rewrite pack_number by lia.
        replace (105 + (e + -46) - 53) with (e + 6 + 0) by lia.
        split; [left; reflexivity|]. split; [lia|]. split; [reflexivity|].
        consts. lia.
      * assert (Hm1 : m1 = 2 ^ 53) by lia. subst m1.
        exists (2 ^ 52), 1. rewrite pack_carry.
        replace (105 + (e + -46) - 53 + 1) with (e + 6 + 1) by lia.
        split; [right; reflexivity|]. split; [consts; lia|]. split; [reflexivity|].
        consts. lia.
  - destruct (SFmul_exists s false my 7036874417766400 e (-46) 106)
      as (m1 & Hn & Hb & Heq); try lia.
    + rewrite Heq, xorb_false_r.
      apply (nearest_ratio m1 _ _ (100 * Zpos my) 128) in Hn;
        try (change (2 ^ (106 - 53)) with 9007199254740992; lia).
      destruct Hn as [Hn _].
      exists m1, 1. rewrite pack_number by (consts; lia).
      replace (106 + (e + -46) - 53) with (e + 6 + 1) by lia.
      split; [right; reflexivity|]. split; [consts; lia|]. split; [reflexivity|].
      consts. lia.
Qed.


(** [Number.EPSILON] is absorbed by a number of magnitude 4 or more. *)
Lemma add_epsilon (s : bool) (my : positive) (e : Z) :
  2 ^ 52 <= Zpos my < 2 ^ 53 -> -50 <= e <= 970 ->
  SFadd 53 1024 (S754_finite s my e) epsilon = S754_finite s my e.
Proof.
  intros Hm He.
  assert (Hx : normal (-104) (S754_finite s my e)) by (cbn [normal]; lia).
  assert (Hy : normal (-104) epsilon) by (cbn [normal epsilon]; lia).
  assert (P : 2 ^ (e - -104) = 2 ^ 54 * 2 ^ (e + 50)) by (apply pow2_add; lia).
  assert (Q : 2 ^ (e - 1 - -104) = 2 ^ 53 * 2 ^ (e + 50)) by (apply pow2_add; lia).
  assert (HT := pow2_pos (e + 50) ltac:(lia)).
  assert (Hsx : scaled (-104) (S754_finite s my e)
                = cond_Zopp s (Zpos my * (2 ^ 54 * 2 ^ (e + 50)))).
  { cbn [scaled]. rewrite P. reflexivity. }
  assert (Hsy : scaled (-104) epsilon = 2 ^ 52) by reflexivity.
  set (T := 2 ^ (e + 50)) in *. clearbody T.
  destruct s; cbn [cond_Zopp] in Hsx.
  - assert (Hsg : (- (Zpos my * (2 ^ 54 * T)) + 2 ^ 52 <? 0) = true)
      by (apply Z.ltb_lt; consts; nia).
    destruct (Z.eq_dec (Zpos my) (2 ^ 52)) as [Heq|Hne].
    + assert (Hb : 2 ^ 52 * 2 ^ (e - 1 - -104)
                   <= Z.abs (scaled (-104) (S754_finite true my e) + scaled (-104) epsilon)
                   < 2 ^ 53 * 2 ^ (e - 1 - -104)).
      { rewrite Hsx, Hsy, Q, Heq. consts. lia. }
      assert (Hn : nearest (2 ^ 53)
                     (Z.abs (scaled (-104) (S754_finite true my e) + scaled (-104) epsilon))
                     (2 ^ (e - 1 - -104))).
      { rewrite Hsx, Hsy, Q, Heq. unfold nearest. consts. split; [lia|]. intros _. reflexivity. }
      rewrite (add_near (-104) (e - 1) (2 ^ 53) _ _ Hx Hy ltac:(lia) ltac:(lia) Hb Hn).
      rewrite Hsx, Hsy, Hsg, pack_carry. unfold number.
      replace (e - 1 + 1) with e by lia. rewrite <- Heq, Pos2Z.id. reflexivity.
    + assert (Hb : 2 ^ 52 * 2 ^ (e - -104)
                   <= Z.abs (scaled (-104) (S754_finite true my e) + scaled (-104) epsilon)
                   < 2 ^ 53 * 2 ^ (e - -104)).
      { rewrite Hsx, Hsy, P. consts. nia. }
      assert (Hn : nearest (Zpos my)
                     (Z.abs (scaled (-104) (S754_finite true my e) + scaled (-104) epsilon))
                     (2 ^ (e - -104))).
      { rewrite Hsx, Hsy, P. unfold nearest. consts. split; [nia|]. intros K. nia. }
      rewrite (add_near (-104) e (Zpos my) _ _ Hx Hy ltac:(lia) ltac:(lia) Hb Hn).
      rewrite Hsx, Hsy, Hsg, pack_number by lia. unfold number. rewrite Pos2Z.id.
      reflexivity.
  - assert (Hsg : (Zpos my * (2 ^ 54 * T) + 2 ^ 52 <? 0) = false)
      by (apply Z.ltb_ge; consts; nia).
    assert (Hb : 2 ^ 52 * 2 ^ (e - -104)
                 <= Z.abs (scaled (-104) (S754_finite false my e) + scaled (-104) epsilon)
                 < 2 ^ 53 * 2 ^ (e - -104)).
    { rewrite Hsx, Hsy, P. consts. nia. }
    assert (Hn : nearest (Zpos my)
                   (Z.abs (scaled (-104) (S754_finite false my e) + scaled (-104) epsilon))
                   (2 ^ (e - -104))).
    { rewrite Hsx, Hsy, P. unfold nearest. consts. split; [nia|]. intros K. nia. }
    rewrite (add_near (-104) e (Zpos my) _ _ Hx Hy ltac:(lia) ltac:(lia) Hb Hn).
    rewrite Hsx, Hsy, Hsg, pack_number by lia. unfold number. rewrite Pos2Z.id.
    reflexivity.
Qed.

(** Doubling a normal number raises its exponent. *)
Lemma mul_two (s : bool) (m : positive) (e : Z) :
  2 ^ 52 <= Zpos m < 2 ^ 53 -> -1074 <= e + 1 <= 970 ->
  SFmul 53 1024 (S754_finite false 4503599627370496 (-51)) (S754_finite s m e)
  = S754_finite s m (e + 1).
Proof.
  intros Hm He.
  destruct (SFmul_exists false s 4503599627370496 m (-51) e 105)
    as (m1 & Hn & Hb & Heq); try lia.
  rewrite Heq. cbn [xorb].
  assert (m1 = Zpos m).
  { apply (nearest_unique m1 (Zpos m) (4503599627370496 * Zpos m) (2 ^ (105 - 53)));
      [lia | exact Hn | apply nearest_exact; lia]. }
  subst m1. rewrite pack_number by lia. unfold number. rewrite Pos2Z.id. f_equal. lia.
Qed.

End Binary64Facts.

(** ** Doubles that are whole numbers of cents *)

Module CentsFacts.
Import Binary64 Binary64Facts.
#[local] Open Scope Z_scope.

Lemma prim_add (e0 : Z) (x y : float) (z : spec_float) :
  normal e0 (Prim2SF x) -> normal e0 (Prim2SF y) -> normal e0 z ->
  scaled e0 (Prim2SF x) + scaled e0 (Prim2SF y) = scaled e0 z ->
  Prim2SF (x + y) = z.
Proof. intros. rewrite add_spec. apply (add_exact e0); assumption. Qed.

Lemma prim_sub (e0 : Z) (x y : float) (z : spec_float) :
  normal e0 (Prim2SF x) -> normal e0 (Prim2SF y) -> normal e0 z ->
  scaled e0 (Prim2SF x) - scaled e0 (Prim2SF y) = scaled e0 z ->
  Prim2SF (x - y) = z.
Proof. intros. rewrite sub_spec. apply (sub_exact e0); assumption. Qed.

Lemma prim_ltb (e0 : Z) (x y : float) :
  normal e0 (Prim2SF x) -> normal e0 (Prim2SF y) ->
  (x <? y)%float = (scaled e0 (Prim2SF x) <? scaled e0 (Prim2SF y)).
Proof.
  intros Hx Hy. rewrite FloatAxioms.ltb_spec. unfold SFltb.
  rewrite (compare_normal e0 _ _ Hx Hy). reflexivity.
Qed.

Lemma prim_leb (e0 : Z) (x y : float) :
  normal e0 (Prim2SF x) -> normal e0 (Prim2SF y) ->
  (x <=? y)%float = (scaled e0 (Prim2SF x) <=? scaled e0 (Prim2SF y)).
Proof.
  intros Hx Hy. rewrite FloatAxioms.leb_spec. unfold SFleb, Z.leb.
  rewrite (compare_normal e0 _ _ Hx Hy).
  destruct (scaled e0 (Prim2SF x) ?= scaled e0 (Prim2SF y)); reflexivity.
Qed.

(** A whole number below 2^53 is a double. *)
Lemma dyadic_double (s : bool) (p : positive) (e : Z) :
  Zpos p~0 < 2 ^ 53 -> dyadic s p~0 e = dyadic s p (e + 1).
Proof.
  intros Hp. unfold dyadic. cbn [digits2_pos]. rewrite Pos2Z.inj_succ.
  destruct (dyadic_mantissa p~0 Hp) as [_ Hd]. cbn [digits2_pos] in Hd.
  rewrite Pos2Z.inj_succ in Hd.
  f_equal; [|lia].
  assert (P : 2 ^ (53 - Zpos (digits2_pos p))
              = 2 ^ 1 * 2 ^ (53 - Z.succ (Zpos (digits2_pos p))))
    by (apply pow2_add; lia).
  rewrite P. change (Zpos p~0) with (2 * Zpos p). change (2 ^ 1) with 2. ring.
Qed.

Lemma pos2float_dyadic (p : positive) :
  Zpos p < 2 ^ 53 -> Prim2SF (JS.pos2float p) = dyadic false p 0.
Proof.
  assert (Hdouble : forall q, Zpos q~0 < 2 ^ 53 ->
            Prim2SF (JS.pos2float q) = dyadic false q 0 ->
            Prim2SF (2 * JS.pos2float q) = dyadic false q~0 0).
  { intros q Hq IH. rewrite mul_spec, IH, dyadic_double by exact Hq.
    destruct (dyadic_mantissa q ltac:(lia)) as [Hm Hd].
    change (Prim2SF 2) with (S754_finite false 4503599627370496 (-51)).
    unfold dyadic, number. unfold SF64mul. rewrite mul_two.
    - f_equal. lia.
    - rewrite Z2Pos.id by lia. exact Hm.
    - lia. }
  induction p as [q IH|q IH|]; intros Hp; cbn [JS.pos2float].
  - assert (Hq : Zpos q~0 < 2 ^ 53) by lia.
    specialize (Hdouble q Hq (IH ltac:(lia))).
    destruct (dyadic_normal (-52) false q~0 0 Hq ltac:(lia) ltac:(lia)) as [N1 S1].
    destruct (dyadic_normal (-52) false 1 0 ltac:(lia) ltac:(lia) ltac:(lia)) as [N2 S2].
    destruct (dyadic_normal (-52) false q~1 0 Hp ltac:(lia) ltac:(lia)) as [N3 S3].
    apply (prim_add (-52)); rewrite ?Hdouble; try assumption.
    change (Prim2SF 1) with (dyadic false 1 0).
    rewrite S1, S2, S3. cbn [cond_Zopp]. lia.
  - apply Hdouble; [exact Hp | apply IH; lia].
  - reflexivity.
Qed.


(** [Math.round] of a number [x] of magnitude from 1 up to 2^52 - 2,
    whole part [a] and fraction [R / 2 ^ (- Ew)]: the magnitude of the
    result is [a + 1] when the fraction is above one half, and also when
    it is one half and [x] is positive; otherwise it is [a]. *)
Lemma Math_round_floor (x : float) (s : bool) (mw a : positive) (Ew : Z) :
  Prim2SF x = S754_finite s mw Ew ->
  2 ^ 52 <= Zpos mw < 2 ^ 53 -> -52 <= Ew <= -1 -> Zpos a + 1 < 2 ^ 52 ->
  0 <= Zpos mw - Zpos a * 2 ^ (- Ew) < 2 ^ (- Ew) ->
  Prim2SF (JS.Math_round x)
  = dyadic s
      (if (if s then 2 ^ (- Ew - 1) <? Zpos mw - Zpos a * 2 ^ (- Ew)
           else 2 ^ (- Ew - 1) <=? Zpos mw - Zpos a * 2 ^ (- Ew))
       then Pos.succ a else a) 0.
Proof.
  intros Hx Hm HE Hc Hfloor.
  set (e0 := Ew - 52).
  set (H := 2 ^ (- Ew - 1)).
  assert (HH : 1 <= H) by (assert (T := pow2_pos (- Ew - 1) ltac:(lia)); unfold H; lia).
  assert (PW : 2 ^ (- Ew) = 2 * H) by (apply (pow2_add _ 1 (- Ew - 1)); lia).
  assert (P0 : 2 ^ (0 - e0) = 2 ^ 52 * (2 * H)).
  { rewrite <- PW. apply pow2_add; unfold e0; lia. }
  assert (P1 : 2 ^ (-52 - e0) = 2 * H).
  { rewrite <- PW. f_equal. unfold e0. lia. }
  assert (P2 : 2 ^ (-53 - e0) = H).
  { unfold H. f_equal. unfold e0. lia. }
  assert (P3 : 2 ^ (Ew - e0) = 2 ^ 52).
  { f_equal. unfold e0. lia. }
  rewrite PW in *.
  set (R := Zpos mw - Zpos a * (2 * H)) in *.
  (* the numbers at hand *)
  assert (Ha : Prim2SF (abs x) = S754_finite false mw Ew)
    by (rewrite abs_spec, Hx; reflexivity).
  assert (Na : normal e0 (S754_finite false mw Ew)) by (cbn [normal]; unfold e0; lia).
  assert (Sa : scaled e0 (S754_finite false mw Ew) = Zpos mw * 2 ^ 52)
    by (cbn [scaled cond_Zopp]; rewrite P3; reflexivity).
  assert (H52 : Prim2SF JS.two52 = S754_finite false 4503599627370496 0) by reflexivity.
  assert (N52 : normal e0 (S754_finite false 4503599627370496 0))
    by (cbn [normal]; unfold e0; lia).
  assert (S52 : scaled e0 (S754_finite false 4503599627370496 0)
                = 2 ^ 52 * (2 ^ 52 * (2 * H)))
    by (cbn [scaled cond_Zopp]; rewrite P0; reflexivity).
  assert (H1 : Prim2SF 1 = S754_finite false 4503599627370496 (-52)) by reflexivity.
  assert (N1 : normal e0 (S754_finite false 4503599627370496 (-52)))
    by (cbn [normal]; unfold e0; lia).
  assert (S1 : scaled e0 (S754_finite false 4503599627370496 (-52)) = 2 ^ 52 * (2 * H))
    by (cbn [scaled cond_Zopp]; rewrite P1; reflexivity).
  assert (Hh : Prim2SF 0.5 = S754_finite false 4503599627370496 (-53)) by reflexivity.
  assert (Nh : normal e0 (S754_finite false 4503599627370496 (-53)))
    by (cbn [normal]; unfold e0; lia).
  assert (Sh : scaled e0 (S754_finite false 4503599627370496 (-53)) = 2 ^ 52 * H)
    by (cbn [scaled cond_Zopp]; rewrite P2; reflexivity).
  assert (Hwhole : forall c : positive, Zpos c < 2 ^ 52 ->
            normal e0 (dyadic false c 0)
            /\ scaled e0 (dyadic false c 0) = Zpos c * (2 ^ 52 * (2 * H))
            /\ normal e0 (number false (2 ^ 52 + Zpos c) 0)
            /\ scaled e0 (number false (2 ^ 52 + Zpos c) 0)
               = (2 ^ 52 + Zpos c) * (2 ^ 52 * (2 * H))).
  { intros c Hc'.
    destruct (dyadic_normal e0 false c 0 ltac:(lia) ltac:(unfold e0; lia) ltac:(lia))
      as [Nc Sc].
    destruct (normal_number e0 false (2 ^ 52 + Zpos c) 0 ltac:(lia)
                ltac:(unfold e0; lia) ltac:(lia)) as [Nt St].
    rewrite P0 in Sc, St. cbn [cond_Zopp] in Sc, St. tauto. }
  destruct (Hwhole a ltac:(lia)) as (Nc & Sc & _ & _).
  destruct (Hwhole (Pos.succ a) ltac:(rewrite Pos2Z.inj_succ; lia)) as (Nc' & Sc' & _ & _).
  rewrite Pos2Z.inj_succ in Sc'.
  (* the guards *)
  assert (Gnan : is_nan x = false).
  { unfold is_nan. rewrite FloatAxioms.eqb_spec, Hx, FloatFacts.SFeqb_self. reflexivity. }
  assert (Ginf : is_infinity x = false).
  { unfold is_infinity. rewrite FloatAxioms.eqb_spec, Ha. reflexivity. }
  assert (Gbig : (JS.two52 <=? abs x)%float = false).
  { rewrite (prim_leb e0), H52, Ha, S52, Sa by (rewrite ?H52, ?Ha; assumption).
    apply Z.leb_gt. consts. nia. }
  assert (Gsign : get_sign x = s).
  { unfold get_sign, is_zero. rewrite FloatAxioms.eqb_spec, Hx.
    change (Prim2SF zero) with (S754_zero false).
    replace (SFeqb (S754_finite s mw Ew) (S754_zero false)) with false
      by (destruct s; reflexivity).
    cbv iota. rewrite FloatAxioms.ltb_spec, Hx.
    change (Prim2SF zero) with (S754_zero false).
    destruct s; reflexivity. }
  (* adding and removing 2^52 gives a whole number next to [x] *)
  assert (Hnext : forall c : positive,
            Zpos c < 2 ^ 52 ->
            2 * Z.abs (Zpos c * (2 * H) - Zpos mw) <= 2 * H ->
            (2 * Z.abs (Zpos c * (2 * H) - Zpos mw) = 2 * H -> Z.even (Zpos c) = true) ->
            Prim2SF (abs x + JS.two52 - JS.two52) = dyadic false c 0).
  { intros c Hc' Hle Hev.
    destruct (Hwhole c Hc') as (Nd & Sd & Nt & St).
    assert (Ht' : Prim2SF (abs x + JS.two52) = number false (2 ^ 52 + Zpos c) 0).
    { rewrite add_spec, Ha, H52. unfold SF64add.
      change prec with 53. change emax with 1024.
      assert (Hb : 2 ^ 52 * 2 ^ (0 - e0)
                   <= Z.abs (scaled e0 (S754_finite false mw Ew)
                             + scaled e0 (S754_finite false 4503599627370496 0))
                   < 2 ^ 53 * 2 ^ (0 - e0)).
      { rewrite Sa, S52, P0. consts. nia. }
      assert (Hn : nearest (2 ^ 52 + Zpos c)
                     (Z.abs (scaled e0 (S754_finite false mw Ew)
                             + scaled e0 (S754_finite false 4503599627370496 0)))
                     (2 ^ (0 - e0))).
      { rewrite Sa, S52, P0. unfold nearest.
        assert (K : Z.abs ((2 ^ 52 + Zpos c) * (2 ^ 52 * (2 * H))
                           - Z.abs (Zpos mw * 2 ^ 52 + 2 ^ 52 * (2 ^ 52 * (2 * H))))
                    = 2 ^ 52 * Z.abs (Zpos c * (2 * H) - Zpos mw)).
        { consts. nia. }
        rewrite K. split; [consts; nia|].
        intros T. rewrite Z.even_add. change (Z.even (2 ^ 52)) with true.
        rewrite Hev; [reflexivity|]. consts. nia. }
      rewrite (add_near e0 0 (2 ^ 52 + Zpos c) _ _ Na N52 ltac:(unfold e0; lia) ltac:(lia)
                 Hb Hn).
      rewrite Sa, S52, pack_number by lia.
      replace (Zpos mw * 2 ^ 52 + 2 ^ 52 * (2 ^ 52 * (2 * H)) <? 0) with false
        by (symmetry; apply Z.ltb_ge; consts; nia).
      reflexivity. }
    apply (prim_sub e0); rewrite ?Ht', ?H52; try assumption.
    rewrite St, S52, Sd. ring. }
  (* the floor *)
  assert (Hfl : Prim2SF (JS.floor_small (abs x)) = dyadic false a 0).
  { unfold JS.floor_small. cbv zeta.
    assert (Hdown : Prim2SF (abs x + JS.two52 - JS.two52) = dyadic false a 0 ->
              Prim2SF (if (abs x <? abs x + JS.two52 - JS.two52)%float
                       then (abs x + JS.two52 - JS.two52 - 1)%float
                       else (abs x + JS.two52 - JS.two52)%float) = dyadic false a 0).
    { intros Ht.
      rewrite (prim_ltb e0), Ha, Ht, Sa, Sc by (rewrite ?Ha, ?Ht; assumption).
      replace (Zpos mw * 2 ^ 52 <? Zpos a * (2 ^ 52 * (2 * H))) with false
        by (symmetry; apply Z.ltb_ge; consts; nia).
      exact Ht. }
    assert (Hup : Prim2SF (abs x + JS.two52 - JS.two52) = dyadic false (Pos.succ a) 0 ->
              Prim2SF (if (abs x <? abs x + JS.two52 - JS.two52)%float
                       then (abs x + JS.two52 - JS.two52 - 1)%float
                       else (abs x + JS.two52 - JS.two52)%float) = dyadic false a 0).
    { intros Ht.
      rewrite (prim_ltb e0), Ha, Ht, Sa, Sc' by (rewrite ?Ha, ?Ht; assumption).
      replace (Zpos mw * 2 ^ 52 <? Z.succ (Zpos a) * (2 ^ 52 * (2 * H))) with true
        by (symmetry; apply Z.ltb_lt; consts; nia).
      apply (prim_sub e0); rewrite ?Ht, ?H1; try assumption.
      rewrite Sc', S1, Sc. ring. }
    destruct (Z.lt_trichotomy R H) as [Lt|[Eq|Gt]].
    - apply Hdown, Hnext; [lia | lia | lia].
    - destruct (Z.even (Zpos a)) eqn:Ev.
      + apply Hdown, Hnext; [lia | lia | intros _; exact Ev].
      + apply Hup, Hnext; rewrite Pos2Z.inj_succ; [lia | lia | intros _].
        rewrite Z.even_succ, <- Z.negb_even, Ev. reflexivity.
    - apply Hup, Hnext; rewrite Pos2Z.inj_succ; [lia | lia | lia]. }
  (* the fraction against one half *)
  assert (C : (0.5 <? abs x - JS.floor_small (abs x))%float = (H <? R)
              /\ (0.5 <=? abs x - JS.floor_small (abs x))%float = (H <=? R)).
  { destruct (Z.eq_dec R 0) as [R0|R0].
    - assert (Hd : Prim2SF (abs x - JS.floor_small (abs x)) = S754_zero false).
      { rewrite sub_spec. apply (sub_zero e0); rewrite ?Ha, ?Hfl; try assumption.
        rewrite Sa, Sc. unfold R in R0. consts. nia. }
      rewrite FloatAxioms.ltb_spec, FloatAxioms.leb_spec, Hh, Hd, R0.
      split; symmetry; [apply Z.ltb_ge | apply Z.leb_gt]; lia.
    - set (r := Z.to_pos R).
      assert (Er : Zpos r = R) by (unfold r; rewrite Z2Pos.id; lia).
      assert (Hr53 : Zpos r < 2 ^ 53) by (rewrite Er; unfold R; consts; nia).
      destruct (dyadic_normal e0 false r Ew Hr53 ltac:(unfold e0; lia) ltac:(lia))
        as [Nr Sr].
      rewrite P3, Er in Sr. cbn [cond_Zopp] in Sr.
      assert (Hd : Prim2SF (abs x - JS.floor_small (abs x)) = dyadic false r Ew).
      { apply (prim_sub e0); rewrite ?Ha, ?Hfl; try assumption.
        rewrite Sa, Sc, Sr. unfold R. ring. }
      split.
      + rewrite (prim_ltb e0), Hh, Hd, Sh, Sr by (rewrite ?Hh, ?Hd; assumption).
        destruct (Z.ltb_spec H R); [apply Z.ltb_lt | apply Z.ltb_ge]; consts; nia.
      + rewrite (prim_leb e0), Hh, Hd, Sh, Sr by (rewrite ?Hh, ?Hd; assumption).
        destruct (Z.leb_spec H R); [apply Z.leb_le | apply Z.leb_gt]; consts; nia. }
  destruct C as [C1 C2].
  assert (Hnextup : Prim2SF (JS.floor_small (abs x) + 1) = dyadic false (Pos.succ a) 0).
  { apply (prim_add e0); rewrite ?Hfl, ?H1; try assumption.
    rewrite Sc, S1, Sc'. ring. }
  unfold JS.Math_round. cbv zeta.
  rewrite Gnan, Ginf, Gbig, Gsign, C1, C2. cbn [orb].
  destruct s.
  - rewrite opp_spec. destruct (H <? R).
    + rewrite Hnextup. reflexivity.
    + rewrite Hfl. reflexivity.
  - destruct (H <=? R); assumption.
Qed.

(** [Math.round] of a number that lies less than one half from a whole
    number [c] is [c], with the sign of the number. *)
Lemma Math_round_near (x : float) (s : bool) (mw c : positive) (Ew : Z) :
  Prim2SF x = S754_finite s mw Ew ->
  2 ^ 52 <= Zpos mw < 2 ^ 53 -> -52 <= Ew <= -1 -> 2 <= Zpos c < 2 ^ 52 - 1 ->
  2 * Z.abs (Zpos mw - Zpos c * 2 ^ (- Ew)) < 2 ^ (- Ew) ->
  Prim2SF (JS.Math_round x) = dyadic s c 0.
Proof.
  intros Hx Hm HE Hc Hnear.
  assert (HH : 1 <= 2 ^ (- Ew - 1)) by (assert (T := pow2_pos (- Ew - 1) ltac:(lia)); lia).
  assert (PW : 2 ^ (- Ew) = 2 * 2 ^ (- Ew - 1)) by (apply (pow2_add _ 1 (- Ew - 1)); lia).
  destruct (Z_lt_ge_dec (Zpos mw) (Zpos c * 2 ^ (- Ew))) as [L|L].
  - set (c1 := Z.to_pos (Zpos c - 1)).
    assert (Ec1 : Zpos c1 = Zpos c - 1) by (unfold c1; rewrite Z2Pos.id; lia).
    assert (Es : Pos.succ c1 = c) by (apply Pos2Z.inj; rewrite Pos2Z.inj_succ; lia).
    assert (Hfloor : 0 <= Zpos mw - Zpos c1 * 2 ^ (- Ew) < 2 ^ (- Ew)).
    { rewrite Ec1, PW in *. set (H := 2 ^ (- Ew - 1)) in *. clearbody H. nia. }
    rewrite (Math_round_floor x s mw c1 Ew Hx Hm HE ltac:(lia) Hfloor).
    rewrite Ec1, PW in *. set (H := 2 ^ (- Ew - 1)) in *. clearbody H.
    replace (H <? Zpos mw - (Zpos c - 1) * (2 * H)) with true
      by (symmetry; apply Z.ltb_lt; nia).
    replace (H <=? Zpos mw - (Zpos c - 1) * (2 * H)) with true
      by (symmetry; apply Z.leb_le; nia).
    rewrite Es. destruct s; reflexivity.
  - assert (Hfloor : 0 <= Zpos mw - Zpos c * 2 ^ (- Ew) < 2 ^ (- Ew)).
    { rewrite PW in *. set (H := 2 ^ (- Ew - 1)) in *. clearbody H. nia. }
    rewrite (Math_round_floor x s mw c Ew Hx Hm HE ltac:(lia) Hfloor).
    rewrite PW in *. set (H := 2 ^ (- Ew - 1)) in *. clearbody H.
    replace (H <? Zpos mw - Zpos c * (2 * H)) with false
      by (symmetry; apply Z.ltb_ge; nia).
    replace (H <=? Zpos mw - Zpos c * (2 * H)) with false
      by (symmetry; apply Z.leb_gt; nia).
    destruct s; reflexivity.
Qed.

(** [Math.round] of a number half-way between the whole numbers [a] and
    [a + 1] in magnitude: [a + 1] when the number is positive, [- a]
    when it is negative; the one nearer to +infinity. *)
Lemma Math_round_tie (x : float) (s : bool) (mw a : positive) (Ew : Z) :
  Prim2SF x = S754_finite s mw Ew ->
  2 ^ 52 <= Zpos mw < 2 ^ 53 -> -52 <= Ew <= -1 -> Zpos a + 1 < 2 ^ 52 ->
  Zpos mw = Zpos a * 2 ^ (- Ew) + 2 ^ (- Ew - 1) ->
  Prim2SF (JS.Math_round x) = dyadic s (if s then a else Pos.succ a) 0.
Proof.
  intros Hx Hm HE Hc Hhalf.
  assert (HH : 1 <= 2 ^ (- Ew - 1)) by (assert (T := pow2_pos (- Ew - 1) ltac:(lia)); lia).
  assert (PW : 2 ^ (- Ew) = 2 * 2 ^ (- Ew - 1)) by (apply (pow2_add _ 1 (- Ew - 1)); lia).
  assert (Hfloor : 0 <= Zpos mw - Zpos a * 2 ^ (- Ew) < 2 ^ (- Ew)).
  { rewrite Hhalf, PW. set (H := 2 ^ (- Ew - 1)) in *. clearbody H. lia. }
  rewrite (Math_round_floor x s mw a Ew Hx Hm HE Hc Hfloor).
  rewrite Hhalf.
  replace (Zpos a * 2 ^ (- Ew) + 2 ^ (- Ew - 1) - Zpos a * 2 ^ (- Ew))
    with (2 ^ (- Ew - 1)) by ring.
  rewrite Z.ltb_irrefl, Z.leb_refl. destruct s; reflexivity.
Qed.

(** A whole number of cents, at least 2^22 and less than 100 * 2^45 in
    magnitude, divided by 100, is rounded to itself: the quotient and its
    product with 100 are each within half a unit of their last place,
    the epsilon is absorbed, and the product is less than one half away
    from the number of cents. *)
Lemma large_cents_fixed (s : bool) (c : positive) (v : float) :
  2 ^ 22 <= Zpos c < 100 * 2 ^ 45 -> Prim2SF v = dyadic s c 0 ->
  Vocabulary.fixed_cents v = true.
Proof.
  intros Hc Hv.
  change (2 ^ 45) with 35184372088832 in Hc.
  destruct (digits2_pos_bounds c) as [Hl Hu].
  destruct (dyadic_mantissa c ltac:(consts; lia)) as [Hm _].
  set (dc := Zpos (digits2_pos c)) in *.
  assert (Hd1 : 0 < dc) by (unfold dc; lia).
  assert (Hdc : 23 <= dc <= 52).
  { split.
    - assert (22 < dc); [|lia].
      apply (Z.pow_lt_mono_r_iff 2); lia.
    - assert (dc - 1 < 52); [|lia].
      apply (Z.pow_lt_mono_r_iff 2); lia. }
  set (T2 := 2 ^ (52 - dc)).
  assert (HT2 : 1 <= T2) by (assert (T := pow2_pos (52 - dc) ltac:(lia)); unfold T2; lia).
  assert (PT : 2 ^ (53 - dc) = 2 * T2) by (apply (pow2_add _ 1 (52 - dc)); lia).
  rewrite PT in Hm.
  unfold dyadic, number in Hv. fold dc in Hv. rewrite PT in Hv.
  set (mc := Z.to_pos (Zpos c * (2 * T2))) in *.
  assert (Emc : Zpos mc = Zpos c * (2 * T2)) by (unfold mc; rewrite Z2Pos.id; lia).
  rewrite <- Emc in Hm.
  (* the quotient *)
  destruct (div_hundred s mc (0 + dc - 53) Hm ltac:(lia))
    as (my & i & Hi & Hmy & Hy & Ey).
  assert (Hi' : i = 0 \/ i = 1 /\ 2 <= T2).
  { destruct Hi as [Hi|[Hi Hbig]]; [left; exact Hi | right; split; [exact Hi|]].
    destruct (Z.eq_dec dc 52) as [E52|N52].
    - exfalso. unfold T2 in Emc. rewrite E52 in Emc. change (2 ^ (52 - 52)) with 1 in Emc.
      lia.
    - unfold T2. change 2 with (2 ^ 1) at 1. apply Z.pow_le_mono_r; lia. }
  clear Hi.
  assert (Hy' : Prim2SF (v / 100) = number s my (0 + dc - 53 - 7 + i)).
  { rewrite div_spec, Hv. exact Hy. }
  unfold number in Hy'.
  set (py := Z.to_pos my) in *.
  assert (Epy : Zpos py = my) by (unfold py; rewrite Z2Pos.id; lia).
  rewrite <- Epy in Hmy.
  (* the epsilon is absorbed *)
  assert (Habs : (v / 100 + JS.EPSILON)%float = (v / 100)%float).
  { apply Prim2SF_inj. rewrite add_spec, Hy'.
    change (Prim2SF JS.EPSILON) with epsilon.
    apply add_epsilon; [exact Hmy | destruct Hi' as [->|[-> _]]; lia]. }
  (* the product *)
  destruct (mul_hundred s py (0 + dc - 53 - 7 + i) Hmy
              ltac:(destruct Hi' as [->|[-> _]]; lia))
    as (mw & j & Hj & Hmw & Hw & Ew).
  assert (Hw' : Prim2SF (v / 100 * 100)
                = number s mw (0 + dc - 53 - 7 + i + 6 + j)).
  { rewrite mul_spec, Hy'. exact Hw. }
  unfold number in Hw'.
  set (pw := Z.to_pos mw) in *.
  assert (Epw : Zpos pw = mw) by (unfold pw; rewrite Z2Pos.id; lia).
  rewrite <- Epw in Hmw.
  assert (HT52 : dc = 52 -> T2 = 1) by (intros E52; unfold T2; rewrite E52; reflexivity).
  (* the whole number of cents is recovered *)
  assert (Hround : JS.Math_round (v / 100 * 100) = v).
  { apply Prim2SF_inj. rewrite Hv.
    change (S754_finite s mc (0 + dc - 53)) with (number s (Zpos c * (2 * T2)) (0 + dc - 53)).
    rewrite <- PT. fold (dyadic s c 0).
    apply (Math_round_near _ s pw c _ Hw' Hmw);
      [destruct Hi' as [->|[-> ?]], Hj; subst j; lia | consts; lia |].
    rewrite Epw, Emc, Epy in *.
    set (X := Zpos c * T2) in *.
    destruct Hi' as [->|[-> HT2']], Hj; subst j.
    - replace (- (0 + dc - 53 - 7 + 0 + 6 + 0)) with (2 + (52 - dc)) by lia.
      rewrite (pow2_add (2 + (52 - dc)) 2 (52 - dc)) by lia. fold T2.
      change (2 ^ 2) with 4. consts.
      replace (Zpos c * (4 * T2)) with (4 * X) by (unfold X; ring).
      replace (Zpos c * (2 * T2)) with (2 * X) in Ey by (unfold X; ring).
      clearbody X T2. lia.
    - replace (- (0 + dc - 53 - 7 + 0 + 6 + 1)) with (1 + (52 - dc)) by lia.
      rewrite (pow2_add (1 + (52 - dc)) 1 (52 - dc)) by lia. fold T2.
      consts.
      replace (Zpos c * (2 * T2)) with (2 * X) in * by (unfold X; ring).
      clearbody X T2. lia.
    - replace (- (0 + dc - 53 - 7 + 1 + 6 + 0)) with (1 + (52 - dc)) by lia.
      rewrite (pow2_add (1 + (52 - dc)) 1 (52 - dc)) by lia. fold T2.
      consts.
      replace (Zpos c * (2 * T2)) with (2 * X) in * by (unfold X; ring).
      clearbody X T2. lia.
    - replace (- (0 + dc - 53 - 7 + 1 + 6 + 1)) with (52 - dc) by lia.
      fold T2. consts.
      replace (Zpos c * (2 * T2)) with (2 * X) in * by (unfold X; ring).
      fold X. clearbody X T2. lia. }
  unfold Vocabulary.fixed_cents. cbv zeta. unfold AppUtils.round2.
  rewrite Habs, Hround.
  rewrite FloatFacts.is_finite_class, FloatAxioms.eqb_spec, Hy', FloatFacts.SFeqb_self.
  reflexivity.
Qed.

(** A whole number and a half: [Math.round] takes it to the next whole
    number toward +infinity. *)
Lemma Math_round_half (n : Z) :
  Z.abs n < 2 ^ 51 -> n <> -1 ->
  JS.Math_round (JS.Z2float n + 0.5) = JS.Z2float (n + 1).
Proof.
  intros Hn Hn1.
  assert (Hh : Prim2SF 0.5 = S754_finite false 4503599627370496 (-53)) by reflexivity.
  assert (Nh : normal (-53) (S754_finite false 4503599627370496 (-53)))
    by (cbn [normal]; lia).
  assert (Sh : scaled (-53) (S754_finite false 4503599627370496 (-53)) = 2 ^ 52)
    by reflexivity.
  assert (Htie : forall (s : bool) (v : float) (p q a : positive),
            Prim2SF v = dyadic s p 0 -> Zpos p < 2 ^ 51 ->
            Zpos q = 2 * Zpos a + 1 ->
            cond_Zopp s (2 * Zpos p) + 1 = cond_Zopp s (Zpos q) ->
            Prim2SF (JS.Math_round (v + 0.5)) = dyadic s (if s then a else Pos.succ a) 0).
  { intros s v p q a Hv Hp Hq Hsum.
    assert (Hq53 : Zpos q < 2 ^ 53) by (destruct s; cbn [cond_Zopp] in Hsum; consts; lia).
    assert (Ha51 : Zpos a + 1 < 2 ^ 52)
      by (destruct s; cbn [cond_Zopp] in Hsum; consts; lia).
    destruct (dyadic_normal (-53) s p 0 ltac:(consts; lia) ltac:(lia) ltac:(lia))
      as [Np Sp].
    destruct (dyadic_normal (-53) s q (-1) Hq53 ltac:(lia) ltac:(lia)) as [Nq Sq].
    assert (Hw : Prim2SF (v + 0.5) = dyadic s q (-1)).
    { apply (prim_add (-53)); rewrite ?Hv, ?Hh; try assumption.
      rewrite Sp, Sh, Sq.
      change (2 ^ (0 - -53)) with (2 * 2 ^ 52). change (2 ^ (-1 - -53)) with (2 ^ 52).
      destruct s; cbn [cond_Zopp] in *; consts; lia. }
    destruct (dyadic_mantissa q Hq53) as [Hm Hd].
    destruct (digits2_pos_bounds q) as [Hl Hu].
    set (d := Zpos (digits2_pos q)) in *.
    assert (Hd2 : 2 <= d).
    { assert (1 < d); [|lia]. apply (Z.pow_lt_mono_r_iff 2); [lia | lia |].
      change (2 ^ 1) with 2. lia. }
    unfold dyadic, number in Hw. fold d in Hw.
    set (mw := Z.to_pos (Zpos q * 2 ^ (53 - d))) in *.
    assert (Emw : Zpos mw = Zpos q * 2 ^ (53 - d)) by (unfold mw; rewrite Z2Pos.id; lia).
    rewrite <- Emw in Hm.
    apply (Math_round_tie _ s mw a (-1 + d - 53) Hw Hm); [lia | exact Ha51 |].
    rewrite Emw, Hq.
    replace (- (-1 + d - 53) - 1) with (53 - d) by lia.
    replace (- (-1 + d - 53)) with (1 + (53 - d)) by lia.
    rewrite (pow2_add (1 + (53 - d)) 1 (53 - d)) by lia.
    change (2 ^ 1) with 2. ring. }
  apply Prim2SF_inj.
  destruct n as [|p|p]; cbn [Z.abs] in Hn.
  - reflexivity.
  - cbn [JS.Z2float].
    rewrite (Htie false (JS.pos2float p) p (p~1)%positive p).
    + replace (Zpos p + 1) with (Zpos (Pos.succ p)) by (rewrite Pos2Z.inj_succ; lia).
      cbn [JS.Z2float]. symmetry. apply pos2float_dyadic.
      rewrite Pos2Z.inj_succ. consts. lia.
    + apply pos2float_dyadic. consts. lia.
    + exact Hn.
    + reflexivity.
    + reflexivity.
  - cbn [JS.Z2float].
    set (a := Z.to_pos (Zpos p - 1)).
    assert (Ea : Zpos a = Zpos p - 1) by (unfold a; rewrite Z2Pos.id; lia).
    set (q := Z.to_pos (2 * Zpos p - 1)).
    assert (Eq : Zpos q = 2 * Zpos p - 1) by (unfold q; rewrite Z2Pos.id; lia).
    rewrite (Htie true (- JS.pos2float p)%float p q a).
    + replace (Zneg p + 1) with (Zneg a) by lia.
      cbn [JS.Z2float]. rewrite opp_spec, pos2float_dyadic by (consts; lia).
      reflexivity.
    + rewrite opp_spec, pos2float_dyadic by (consts; lia). reflexivity.
    + exact Hn.
    + lia.
    + cbn [cond_Zopp]. lia.
Qed.

End CentsFacts.

(** ** Rounding to 2 decimals *)

Module Round2Facts.
#[local] Open Scope float_scope.
#[local] Set Warnings "-inexact-float".

(** [Math.round] on ties, on negative numbers, next to a tie, on zeros,
    on integers too large to have a fraction, and on non-finite numbers. *)
Example Math_round_examples :
  JS.Math_round 2.5 = 3 /\ JS.Math_round (-2.5) = -2
  /\ JS.Math_round 0.5 = 1 /\ JS.Math_round (-0.5) = neg_zero
  /\ JS.Math_round 0.49999999999999994 = 0
  /\ JS.Math_round (-0.2) = neg_zero /\ JS.Math_round neg_zero = neg_zero
  /\ JS.Math_round 100.49999999999999 = 100 /\ JS.Math_round 100.50000000000001 = 101
  /\ JS.Math_round 4503599627370495.5 = 4503599627370496
  /\ JS.Math_round 9007199254740993 = 9007199254740993
  /\ JS.Math_round infinity = infinity /\ JS.Math_round nan = nan.
Proof. vm_compute. repeat split. Qed.

(** [round2] on everyday amounts. *)
Example round2_examples :
  AppUtils.round2 1.005 = 1.01 /\ AppUtils.round2 (-1.005) = -1
  /\ AppUtils.round2 2.675 = 2.68 /\ AppUtils.round2 1234.5678 = 1234.57
  /\ AppUtils.round2 (1 / 3) = 0.33 /\ AppUtils.round2 0 = 0.
Proof. vm_compute. repeat split. Qed.

Lemma size_nat_bound (q : positive) (n : nat) :
  (Zpos q < 2 ^ Z.of_nat n)%Z -> Pos.size_nat q <= n.
Proof.
  revert n. induction q as [q IH|q IH|]; intros [|n] H; simpl Pos.size_nat.
  - simpl in H. lia.
  - rewrite Nat2Z.inj_succ, Z.pow_succ_r in H by lia. apply le_n_S, IH. lia.
  - simpl in H. lia.
  - rewrite Nat2Z.inj_succ, Z.pow_succ_r in H by lia. apply le_n_S, IH. lia.
  - simpl in H. lia.
  - lia.
Qed.

Lemma all_fixed_head (d : nat) (v : float) :
  Vocabulary.all_fixed d v = true ->
  Vocabulary.fixed_cents v = true /\ Vocabulary.fixed_cents (- v) = true.
Proof.
  intros H.
  assert (H' : Vocabulary.fixed_cents v && Vocabulary.fixed_cents (- v) = true).
  { destruct d as [|d].
    - change (Vocabulary.fixed_cents v && Vocabulary.fixed_cents (- v) && true = true) in H.
      rewrite andb_true_r in H. exact H.
    - change (Vocabulary.fixed_cents v && Vocabulary.fixed_cents (- v)
              && (Vocabulary.all_fixed d (2 * v) && Vocabulary.all_fixed d (2 * v + 1))
              = true) in H.
      apply andb_true_iff in H as [H _]. exact H. }
  apply andb_true_iff in H'. exact H'.
Qed.

Lemma all_fixed_step (d : nat) (v : float) :
  Vocabulary.all_fixed (S d) v = true ->
  Vocabulary.all_fixed d (2 * v) = true /\ Vocabulary.all_fixed d (2 * v + 1) = true.
Proof.
  intros H. change (Vocabulary.all_fixed (S d) v)
    with (Vocabulary.fixed_cents v && Vocabulary.fixed_cents (- v)
          && (Vocabulary.all_fixed d (2 * v) && Vocabulary.all_fixed d (2 * v + 1))) in H.
  apply andb_true_iff in H as [_ H]. apply andb_true_iff in H. exact H.
Qed.

(** The check started at 1 reaches every positive integer of at most
    [S D] bits. *)
Lemma all_fixed_reaches (D : nat) (q : positive) :
  Vocabulary.all_fixed D 1 = true ->
  Pos.size_nat q <= S D ->
  Vocabulary.all_fixed (S D - Pos.size_nat q) (JS.pos2float q) = true.
Proof.
  intros Hall. induction q as [q IH|q IH|]; simpl Pos.size_nat; intros Hq.
  - specialize (IH ltac:(lia)).
    replace (S D - Pos.size_nat q)%nat with (S (S D - S (Pos.size_nat q)))%nat in IH by lia.
    apply all_fixed_step in IH as [_ IH]. exact IH.
  - specialize (IH ltac:(lia)).
    replace (S D - Pos.size_nat q)%nat with (S (S D - S (Pos.size_nat q)))%nat in IH by lia.
    apply all_fixed_step in IH as [IH _]. exact IH.
  - replace (S D - 1)%nat with D by lia. exact Hall.
Qed.

(** Every amount of less than 2^22 cents in magnitude is rounded to
    itself (checked on each of them). *)
Lemma all_fixed_22 : Vocabulary.all_fixed 21 1 = true.
Proof. vm_cast_no_check (eq_refl true). Qed.

Lemma cents_fixed (k : Z) :
  (Z.abs k < 2 ^ 22)%Z -> Vocabulary.fixed_cents (JS.Z2float k) = true.
Proof.
  intros Hk. destruct k as [|q|q]; simpl JS.Z2float.
  - vm_compute. reflexivity.
  - apply (all_fixed_head (22 - Pos.size_nat q)).
    apply (all_fixed_reaches 21 q all_fixed_22).
    apply (size_nat_bound q 22). simpl Z.abs in Hk. exact Hk.
  - apply (all_fixed_head (22 - Pos.size_nat q)).
    apply (all_fixed_reaches 21 q all_fixed_22).
    apply (size_nat_bound q 22). simpl Z.abs in Hk. exact Hk.
Qed.

(** A number that is [==] a whole number of cents below 2^22, divided
    by 100, is finite and is rounded to itself. *)
Lemma whole_cents_fixed (v : float) (k : Z) :
  (v =? JS.Z2float k) = true -> (Z.abs k < 2 ^ 22)%Z ->
  is_finite (v / 100) = true /\ (AppUtils.round2 (v / 100) =? v / 100) = true.
Proof.
  intros Hv Hk. apply andb_true_iff.
  change (Vocabulary.fixed_cents v = true).
  apply FloatFacts.eqb_true_cases in Hv as [->|(s & s' & Hs & _)].
  - exact (cents_fixed k Hk).
  - apply FloatFacts.zero_class in Hs. rewrite Hs.
    destruct s; vm_compute; reflexivity.
Qed.

(** Every amount of less than 100 * 2^45 cents in magnitude is rounded
    to itself: checked on each of them below 2^22 cents, and from there
    on by the roundings of the division, the addition of the epsilon and
    the multiplication. *)
Lemma cents_fixed_wide (k : Z) :
  (Z.abs k < 100 * 2 ^ 45)%Z -> Vocabulary.fixed_cents (JS.Z2float k) = true.
Proof.
  intros Hk. destruct (Z_lt_ge_dec (Z.abs k) (2 ^ 22)) as [Hs|Hb].
  - exact (cents_fixed k Hs).
  - change (2 ^ 45)%Z with 35184372088832%Z in Hk.
    destruct k as [|c|c]; cbn [Z.abs JS.Z2float] in *.
    + lia.
    + apply (CentsFacts.large_cents_fixed false c); [split; [lia | exact Hk]|].
      apply CentsFacts.pos2float_dyadic. lia.
    + apply (CentsFacts.large_cents_fixed true c); [split; [lia | exact Hk]|].
      rewrite opp_spec, CentsFacts.pos2float_dyadic by lia. reflexivity.
Qed.

(** A number that is [==] a whole number of cents below 100 * 2^45,
    divided by 100, is finite and is rounded to itself. *)
Lemma whole_cents_fixed_wide (v : float) (k : Z) :
  (v =? JS.Z2float k) = true -> (Z.abs k < 100 * 2 ^ 45)%Z ->
  is_finite (v / 100) = true /\ (AppUtils.round2 (v / 100) =? v / 100) = true.
Proof.
  intros Hv Hk. apply andb_true_iff.
  change (Vocabulary.fixed_cents v = true).
  apply FloatFacts.eqb_true_cases in Hv as [->|(s & s' & Hs & _)].
  - exact (cents_fixed_wide k Hk).
  - apply FloatFacts.zero_class in Hs. rewrite Hs.
    destruct s; vm_compute; reflexivity.
Qed.

(** A number of cents that is exactly half-way, [n + 1/2] with [n] a
    whole number below 2^51 in magnitude, is rounded to [n + 1] cents. *)
Lemma half_way_cents (x : float) (n : Z) :
  (Z.abs n < 2 ^ 51)%Z ->
  (x + JS.EPSILON) * 100 = JS.Z2float n + 0.5 ->
  (AppUtils.round2 x =? JS.Z2float (n + 1) / 100) = true.
Proof.
  intros Hn Hx. unfold AppUtils.round2. rewrite Hx.
  destruct (Z.eq_dec n (-1)%Z) as [->|Hn1].
  - vm_compute. reflexivity.
  - rewrite (CentsFacts.Math_round_half n Hn Hn1).
    assert (Hfix : Vocabulary.fixed_cents (JS.Z2float (n + 1)) = true).
    { apply cents_fixed_wide. change (2 ^ 45)%Z with 35184372088832%Z.
      change (2 ^ 51)%Z with 2251799813685248%Z in Hn. lia. }
    unfold Vocabulary.fixed_cents in Hfix. apply andb_true_iff in Hfix as [Hfin _].
    rewrite FloatFacts.is_finite_class in Hfin.
    rewrite FloatAxioms.eqb_spec, FloatFacts.SFeqb_self.
    destruct (Prim2SF (JS.Z2float (n + 1) / 100)); [reflexivity | reflexivity | | reflexivity].
    discriminate Hfin.
Qed.

(** C9, as the code has it.  Rounding to 2 decimals twice gives the same
    number as rounding once ([==]) whenever the number of cents that
    [Math.round] returns for [x] is ([==]) an integer [k] of magnitude
    below 100 * 2^45 = 3518437208883200 (amounts below 2^45 =
    35184372088832 in magnitude).  A value that is exactly half-way
    between two cents when [Math.round] receives it, [n + 1/2] cents,
    goes to the cent nearer to +infinity, [n + 1], which is how
    [Math.round] resolves a tie: 4.125 to 4.13 and -4.125 to -4.12. *)
Theorem round2_idempotent_on_cents :
  (forall (x : float) (k : Z),
     (JS.Math_round ((x + JS.EPSILON) * 100) =? JS.Z2float k) = true ->
     (Z.abs k < 100 * 2 ^ 45)%Z ->
     (AppUtils.round2 (AppUtils.round2 x) =? AppUtils.round2 x) = true)
  /\ (forall (x : float) (n : Z),
        (Z.abs n < 2 ^ 51)%Z ->
        (x + JS.EPSILON) * 100 = JS.Z2float n + 0.5 ->
        (AppUtils.round2 x =? JS.Z2float (n + 1) / 100) = true)
  /\ AppUtils.round2 4.125 = 4.13
  /\ AppUtils.round2 (-4.125) = -4.12.
Proof.
  split; [|split; [exact half_way_cents | vm_compute; split; reflexivity]].
  intros x k Hround Hk.
  change (AppUtils.round2 (AppUtils.round2 x) =? AppUtils.round2 x)
    with (AppUtils.round2 (JS.Math_round ((x + JS.EPSILON) * 100) / 100)
          =? JS.Math_round ((x + JS.EPSILON) * 100) / 100).
  apply (whole_cents_fixed_wide _ k Hround Hk).
Qed.

Lemma round2_idempotent_on_cents_witness :
  (AppUtils.round2 (AppUtils.round2 1.005) =? AppUtils.round2 1.005) = true
  /\ (AppUtils.round2 (AppUtils.round2 (-0.001)) =? AppUtils.round2 (-0.001)) = true
  /\ (AppUtils.round2 (AppUtils.round2 35184372088831.992)
      =? AppUtils.round2 35184372088831.992) = true
  /\ (AppUtils.round2 4.125 =? JS.Z2float 413 / 100) = true
  /\ (AppUtils.round2 (-4.125) =? JS.Z2float (-412) / 100) = true.
Proof.
  split; [|split; [|split; [|split]]].
  - apply (proj1 round2_idempotent_on_cents 1.005 101%Z); reflexivity.
  - apply (proj1 round2_idempotent_on_cents (-0.001) 0%Z); reflexivity.
  - apply (proj1 round2_idempotent_on_cents 35184372088831.992 3518437208883199%Z);
      reflexivity.
  - apply (proj1 (proj2 round2_idempotent_on_cents) 4.125 412%Z); reflexivity.
  - apply (proj1 (proj2 round2_idempotent_on_cents) (-4.125) (-413)%Z); reflexivity.
Defined.

(** C9 does not hold of every number.  35184372088832.015625 is rounded
    to 35184372088832.02, which is 3518437208883202 cents, and that to
    35184372088832.03; 43276706790505.336 is rounded to
    43276706790505.34, and that to 43276706790505.35; NaN is rounded to
    NaN, which is not [==] itself.  And the negative half-way value
    -4.125 is rounded toward zero, to -4.12, not away from it. *)
Lemma round2_not_idempotent :
  let x := 35184372088832.015625 in
  AppUtils.round2 x = 35184372088832.02
  /\ (JS.Math_round ((x + JS.EPSILON) * 100) =? JS.Z2float 3518437208883202) = true
  /\ AppUtils.round2 (AppUtils.round2 x) = 35184372088832.03
  /\ (AppUtils.round2 (AppUtils.round2 x) =? AppUtils.round2 x) = false
  /\ AppUtils.round2 43276706790505.336 = 43276706790505.34
  /\ AppUtils.round2 (AppUtils.round2 43276706790505.336) = 43276706790505.35
  /\ (AppUtils.round2 (AppUtils.round2 nan) =? AppUtils.round2 nan) = false
  /\ (-4.125 + JS.EPSILON) * 100 = -412.5
  /\ AppUtils.round2 (-4.125) = -4.12.
Proof. vm_compute. repeat split. Qed.

End Round2Facts.

(** ** The EMI calculator and a loan's effective monthly EMI *)

Module EmiFacts.
Import AppTypes.
#[local] Open Scope float_scope.
#[local] Set Warnings "-inexact-float".

(** With an annual rate of 0 the calculator of [app/utils.ts] returns
    [null], whatever the principal and the term: the guard [!annualRate]
    is true of 0, so the branch [r === 0] is not reached. *)
Lemma calcEmiMonthly_zero_rate_is_null
    (Math_pow : float -> float -> float) (P n : float) :
  AppUtils.calcEmiMonthly Math_pow (Some P) (Some 0) (Some n) = None.
Proof.
  unfold AppUtils.calcEmiMonthly.
  change (JS.falsy (Some 0)) with true.
  rewrite orb_true_r. reflexivity.
Qed.

(** The straight-line branch of the calculator of [app/utils.ts],
    [if (r === 0) return round2(P / n)]: for a principal and a term above
    0 it is taken when the annual rate passes the guard [!annualRate] (it
    is present, is not a zero and is not NaN) and the monthly rate
    derived from it is exactly zero. *)
Lemma straight_line_branch
    (Math_pow : float -> float -> float) (P rate n : float) :
  (0 <? P) = true -> (0 <? n) = true ->
  JS.falsy (Some rate) = false ->
  (rate / 100 / 12 =? 0) = true ->
  AppUtils.calcEmiMonthly Math_pow (Some P) (Some rate) (Some n)
  = Some (AppUtils.round2 (P / n)).
Proof.
  intros HP Hn Hrate Hr.
  unfold AppUtils.calcEmiMonthly.
  rewrite (FloatFacts.above_zero_truthy P HP), (FloatFacts.above_zero_truthy n Hn), Hrate.
  destruct (FloatFacts.above_zero P HP) as (_ & _ & ->).
  destruct (FloatFacts.above_zero n Hn) as (_ & _ & ->).
  simpl. rewrite Hr. reflexivity.
Qed.

(** [calculateEmi] of [utils.ts] (root variant) returns 0 at an annual
    rate of 0: it guards on [monthlyRate <= 0]. *)
Lemma calculateEmi_zero_rate
    (Math_pow : float -> float -> float)
    (id name loanType lender startDate nextDueDate : string)
    (principal termMonths outstandingBalance : float) (emi : option float)
    (currency : RootTypes.CurrencyCode) (notes : option string)
    (autoCalculate : bool) :
  RootUtils.calculateEmi Math_pow
    (RootTypes.Loan.mk id name loanType lender startDate principal 0
       termMonths emi RootTypes.loan_monthly nextDueDate
       outstandingBalance currency notes autoCalculate)
  = 0.
Proof.
  unfold RootUtils.calculateEmi. simpl.
  change (0 / 100 / 12 <=? 0) with true.
  rewrite orb_true_r. reflexivity.
Qed.

(** C2.  The calculator of [app/utils.ts] at an annual rate of 0, the
    input the claim is about: for every principal and term it returns
    [null], where the claim has the straight-line installment
    round2(P / n), which is 100 for 1200 over 12 months.  The function
    has the straight-line branch, but behind the guard [!annualRate],
    which is true of 0: the branch returns round2(P / n) only at a rate
    that is not 0 and whose monthly rate underflows to zero, such as
    2^-1074.  A loan saved with these inputs has effective monthly EMI 0
    at every cadence. *)
Theorem calcEmiMonthly_at_zero_rate :
  (forall (Math_pow : float -> float -> float) (P n : float),
     AppUtils.calcEmiMonthly Math_pow (Some P) (Some 0) (Some n) = None)
  /\ (forall Math_pow : float -> float -> float,
        AppUtils.calcEmiMonthly Math_pow (Some 1200) (Some 0) (Some 12) = None)
  /\ AppUtils.round2 (1200 / 12) = 100
  /\ (forall Math_pow : float -> float -> float,
        AppUtils.calcEmiMonthly Math_pow (Some 1200) (Some 0x1p-1074) (Some 12)
        = Some 100)
  /\ (forall (Math_pow : float -> float -> float) (freq : PaymentFrequency),
        AppUtils.getLoanMonthlyEmi Math_pow (Samples.auto_loan 1200 0 12 freq) = 0).
Proof.
  split; [intros; apply calcEmiMonthly_zero_rate_is_null|].
  split; [intros; apply calcEmiMonthly_zero_rate_is_null|].
  split; [vm_compute; reflexivity|].
  split; [intros Math_pow; vm_compute; reflexivity|].
  intros Math_pow freq. unfold AppUtils.getLoanMonthlyEmi.
  cbn [Samples.auto_loan Loan.autoCalcEmi Loan.principal Loan.annualRate
       Loan.termMonths Loan.paymentFrequency].
  rewrite calcEmiMonthly_zero_rate_is_null.
  destruct freq; vm_compute; reflexivity.
Qed.

(** At an annual rate of 0 neither calculator returns the straight-line
    installment: that of 1200 over 12 months is 100; the calculator of
    [app/utils.ts] returns [null] and [calculateEmi] of [utils.ts]
    returns 0, whatever [Math.pow] is. *)
Lemma zero_rate_is_not_straight_line :
  AppUtils.round2 (1200 / 12) = 100
  /\ (forall Math_pow : float -> float -> float,
        AppUtils.calcEmiMonthly Math_pow (Some 1200) (Some 0) (Some 12) = None
        /\ RootUtils.calculateEmi Math_pow (Samples.root_loan 1200 0 12) = 0).
Proof.
  split; [vm_compute; reflexivity|].
  intros Math_pow. split; [apply calcEmiMonthly_zero_rate_is_null|].
  vm_compute. reflexivity.
Qed.

(** The rate at which the straight-line branch is reached: one so small
    that the monthly rate underflows to 0. *)
Lemma calcEmiMonthly_underflow_rate (Math_pow : float -> float -> float) :
  AppUtils.calcEmiMonthly Math_pow (Some 1200) (Some 0x1p-1074) (Some 12) = Some 100.
Proof. vm_compute. reflexivity. Qed.

(** C3, as the sources have it.  In [app/utils.ts] a loan's effective
    monthly EMI is [round2] of the cadence-normalized base, where the base
    is the calculator's output (0 when it returns [null]) when
    auto-calculation is enabled and the manually entered EMI (0 when
    absent) otherwise: the cadence normalization and the rounding apply in
    both modes.  So with auto-calculation enabled and a monthly cadence it
    is ([==]) the calculator's output, when that output is a whole number
    of cents below 2^22.  A manual EMI of 500 at weekly cadence yields
    round2(500 * 52 / 12) = 2166.67.  In [App.tsx] the term of a loan in
    the monthly EMI total is [calculateEmi(loan)] when auto-calculation is
    enabled and [loan.emi || 0] otherwise, neither normalized (the one
    cadence there is monthly) nor rounded. *)
Theorem loan_monthly_emi :
  (forall (Math_pow : float -> float -> float) (loan : Loan.t),
     AppUtils.getLoanMonthlyEmi Math_pow loan
     = AppUtils.round2
         (AppUtils.monthlyEquivalent
            (if Loan.autoCalcEmi loan
             then JS.nullish
                    (AppUtils.calcEmiMonthly Math_pow (Loan.principal loan)
                       (Loan.annualRate loan) (Loan.termMonths loan)) 0
             else JS.nullish (Loan.emi loan) 0)
            (Loan.paymentFrequency loan)))
  /\ (forall (Math_pow : float -> float -> float) (loan : Loan.t) (c : float) (k : Z),
        Loan.autoCalcEmi loan = true ->
        Loan.paymentFrequency loan = monthly ->
        AppUtils.calcEmiMonthly Math_pow (Loan.principal loan)
          (Loan.annualRate loan) (Loan.termMonths loan) = Some c ->
        (c =? JS.Z2float k / 100) = true -> (Z.abs k < 2 ^ 22)%Z ->
        (AppUtils.getLoanMonthlyEmi Math_pow loan =? c) = true)
  /\ (forall (Math_pow : float -> float -> float) (id name : string)
        (type : LoanType) (lender nextDueDate startDate notes : option string)
        (currency : Currency) (principal annualRate termMonths : option float)
        (outstandingBalance : float),
        AppUtils.getLoanMonthlyEmi Math_pow
          (Loan.mk id name type lender currency principal annualRate termMonths
             (Some 500) weekly outstandingBalance nextDueDate startDate notes false)
        = 2166.67)
  /\ AppUtils.round2 (500 * 52 / 12) = 2166.67
  /\ (forall (Math_pow : float -> float -> float) (loan : RootTypes.Loan.t),
        RootApp.loanEmi Math_pow loan
        = if RootTypes.Loan.autoCalculate loan
          then RootUtils.calculateEmi Math_pow loan
          else if JS.falsy (RootTypes.Loan.emi loan) then 0
               else JS.nullish (RootTypes.Loan.emi loan) 0).
Proof.
  split; [|split; [|split; [|split]]].
  - intros Math_pow loan. unfold AppUtils.getLoanMonthlyEmi.
    destruct (Loan.autoCalcEmi loan); reflexivity.
  - intros Math_pow loan c k Hauto Hfreq Hcalc Hc Hk.
    unfold AppUtils.getLoanMonthlyEmi. rewrite Hauto, Hfreq, Hcalc.
    unfold JS.nullish, AppUtils.monthlyEquivalent, JS.isFinite.
    assert (Hfix : is_finite c = true /\ (AppUtils.round2 c =? c) = true).
    { apply FloatFacts.eqb_true_cases in Hc as [->|(s & _ & Hs & _)].
      - apply andb_true_iff. exact (Round2Facts.cents_fixed k Hk).
      - apply FloatFacts.zero_class in Hs. rewrite Hs.
        destruct s; vm_compute; split; reflexivity. }
    destruct Hfix as [-> Hfix]. exact Hfix.
  - intros. vm_compute. reflexivity.
  - vm_compute. reflexivity.
  - intros Math_pow loan. reflexivity.
Qed.

Lemma loan_monthly_emi_witness :
  let engine := fun _ _ : float => 1.1268250301319698 in
  let loan := Samples.auto_loan 12000 12 12 monthly in
  AppUtils.calcEmiMonthly engine (Some 12000) (Some 12) (Some 12) = Some 1066.19
  /\ (AppUtils.getLoanMonthlyEmi engine loan =? 1066.19) = true.
Proof.
  intros engine loan.
  assert (Hc : AppUtils.calcEmiMonthly engine (Some 12000) (Some 12) (Some 12)
               = Some 1066.19) by (vm_compute; reflexivity).
  split; [exact Hc|].
  apply (proj1 (proj2 loan_monthly_emi) engine loan 1066.19 106619%Z);
    reflexivity || exact Hc.
Defined.

(** C3 does not hold as it is stated: with auto-calculation enabled the
    effective monthly EMI is not the calculator's output when the cadence
    is not monthly.  For the weekly loan of principal 1200 over 12 months
    whose calculator output is 100, it is round2(100 * 52 / 12) = 433.33.
    (The rate of this loan is one at which the calculator takes its
    straight-line branch, so that no value of [Math.pow] is involved;
    [auto_emi_weekly_example] below is the same on an everyday loan.) *)
Lemma auto_emi_is_normalized :
  ~ (forall (Math_pow : float -> float -> float) (loan : Loan.t),
       Loan.autoCalcEmi loan = true ->
       AppUtils.getLoanMonthlyEmi Math_pow loan
       = JS.nullish
           (AppUtils.calcEmiMonthly Math_pow (Loan.principal loan)
              (Loan.annualRate loan) (Loan.termMonths loan)) 0).
Proof.
  intros H.
  specialize (H (fun _ _ => 1) (Samples.auto_loan 1200 0x1p-1074 12 weekly) eq_refl).
  apply (f_equal (fun v => v =? 433.33)) in H.
  vm_compute in H. discriminate H.
Qed.

(** The same on an everyday loan: 12000 at 12% over 12 months, paid
    weekly.  Where the engine's [Math.pow(1.01, 12)] is
    1.1268250301319698, the calculator gives 1066.19 and the effective
    monthly EMI is round2(1066.19 * 52 / 12) = 4620.16. *)
Lemma auto_emi_weekly_example (Math_pow : float -> float -> float) :
  Math_pow (1 + 12 / 100 / 12) 12 = 1.1268250301319698 ->
  AppUtils.calcEmiMonthly Math_pow (Some 12000) (Some 12) (Some 12) = Some 1066.19
  /\ AppUtils.getLoanMonthlyEmi Math_pow (Samples.auto_loan 12000 12 12 weekly)
     = 4620.16.
Proof.
  intros Hpow.
  assert (Hc : AppUtils.calcEmiMonthly Math_pow (Some 12000) (Some 12) (Some 12)
               = Some 1066.19).
  { unfold AppUtils.calcEmiMonthly.
    change (JS.falsy (Some 12000) || JS.falsy (Some 12) || JS.falsy (Some 12)) with false.
    change ((12000 <=? 0) || (12 <=? 0)) with false.
    change (12 / 100 / 12 =? 0) with false.
    cbv iota zeta. rewrite Hpow. vm_compute. reflexivity. }
  split; [exact Hc|].
  change (AppUtils.getLoanMonthlyEmi Math_pow (Samples.auto_loan 12000 12 12 weekly))
    with (AppUtils.round2
            (AppUtils.monthlyEquivalent
               (JS.nullish
                  (AppUtils.calcEmiMonthly Math_pow (Some 12000) (Some 12) (Some 12)) 0)
               weekly)).
  rewrite Hc. vm_compute. reflexivity.
Qed.

End EmiFacts.

(** ** Loading the persisted state *)

Module StorageFacts.
Import Json.






End StorageFacts.

(** ** The remote transaction sync *)

Module SyncFacts.
Import RootTypes.

Lemma append_cons (c : ascii) (s t : string) :
  (String c s ++ t)%string = String c (s ++ t).
Proof. reflexivity. Qed.

Lemma append_nil_l (s : string) : (EmptyString ++ s)%string = s.
Proof. reflexivity. Qed.

Lemma append_nil_r (s : string) : (s ++ EmptyString)%string = s.
Proof.
  induction s as [|c s IH]; [reflexivity|]. rewrite append_cons, IH. reflexivity.
Qed.

Lemma append_assoc (a b c : string) : ((a ++ b) ++ c)%string = (a ++ b ++ c)%string.
Proof.
  induction a as [|x a IH]; [reflexivity|]. rewrite !append_cons, IH. reflexivity.
Qed.

Lemma length_append (s t : string) :
  String.length (s ++ t) = String.length s + String.length t.
Proof.
  induction s as [|c s IH]; [reflexivity|]. rewrite append_cons. simpl. rewrite IH.
  reflexivity.
Qed.

(** *** Reading back the [in] list the client writes *)

Lemma read_quoted_plain (s rest item : string) :
  Vocabulary.plain s = true ->
  Remote.read_quoted (s ++ String Remote.dquote rest) item
  = Some ((item ++ s)%string, rest).
Proof.
  revert item. induction s as [|c s IH]; intros item Hs.
  - rewrite append_nil_l, append_nil_r. reflexivity.
  - simpl in Hs. apply andb_true_iff in Hs as [Hc Hs].
    apply andb_true_iff in Hc as [Hq Hb].
    apply negb_true_iff in Hq, Hb.
    rewrite append_cons. simpl Remote.read_quoted.
    rewrite Hq, Hb, (IH _ Hs), append_assoc. reflexivity.
Qed.

Lemma read_items_join (ids : list string) (fuel : nat) :
  ids <> [] -> Forall (fun id => Vocabulary.plain id = true) ids ->
  length ids <= fuel ->
  Remote.read_items fuel (RootApp.join "," (map RootApp.quoted ids) ++ ")")
  = Some ids.
Proof.
  revert fuel. induction ids as [|x ids IH]; intros fuel Hne Hplain Hfuel;
    [congruence|].
  apply Forall_cons_iff in Hplain as [Hx Hplain].
  destruct fuel as [|fuel]; [simpl in Hfuel; lia|].
  destruct ids as [|y ids].
  - change (RootApp.join "," (map RootApp.quoted [x])) with (RootApp.quoted x).
    unfold RootApp.quoted.
    rewrite !append_cons, !append_nil_l, append_assoc, append_cons, append_nil_l.
    simpl Remote.read_items.
    rewrite (read_quoted_plain x ")" EmptyString Hx). reflexivity.
  - assert (IH' : Remote.read_items fuel
                   (RootApp.join "," (map RootApp.quoted (y :: ids)) ++ ")")
                 = Some (y :: ids))
      by (apply IH; [discriminate | exact Hplain | simpl in *; lia]).
    change (RootApp.join "," (map RootApp.quoted (x :: y :: ids)))
      with (RootApp.quoted x ++ "," ++ RootApp.join "," (map RootApp.quoted (y :: ids)))%string.
    rewrite !append_assoc.
    set (J := (RootApp.join "," (map RootApp.quoted (y :: ids)) ++ ")")%string) in *.
    unfold RootApp.quoted.
    rewrite !append_cons, !append_nil_l, !append_assoc, !append_cons, !append_nil_l.
    simpl Remote.read_items.
    rewrite (read_quoted_plain x _ EmptyString Hx).
    rewrite append_nil_l. change (Ascii.eqb "," ",") with true. cbv iota.
    rewrite IH'. reflexivity.
Qed.

Lemma join_quoted_length (ids : list string) :
  length ids <= String.length (RootApp.join "," (map RootApp.quoted ids) ++ ")").
Proof.
  induction ids as [|x ids IH]; [simpl; lia|].
  destruct ids as [|y ids].
  - change (RootApp.join "," (map RootApp.quoted [x])) with (RootApp.quoted x).
    unfold RootApp.quoted. rewrite !length_append. simpl. lia.
  - change (RootApp.join "," (map RootApp.quoted (x :: y :: ids)))
      with (RootApp.quoted x ++ "," ++ RootApp.join "," (map RootApp.quoted (y :: ids)))%string.
    rewrite !append_assoc, length_append.
    rewrite (length_append ","). simpl in *. lia.
Qed.

Lemma join_quoted_shape (x : string) (ids : list string) :
  exists rest,
    (RootApp.join "," (map RootApp.quoted (x :: ids)) ++ ")")%string
    = String Remote.dquote (x ++ String Remote.dquote rest).
Proof.
  destruct ids as [|y ids].
  - exists ")"%string.
    change (RootApp.join "," (map RootApp.quoted [x])) with (RootApp.quoted x).
    unfold RootApp.quoted.
    rewrite !append_cons, !append_nil_l, append_assoc, append_cons, append_nil_l.
    reflexivity.
  - exists ("," ++ RootApp.join "," (map RootApp.quoted (y :: ids)) ++ ")")%string.
    change (RootApp.join "," (map RootApp.quoted (x :: y :: ids)))
      with (RootApp.quoted x ++ "," ++ RootApp.join "," (map RootApp.quoted (y :: ids)))%string.
    unfold RootApp.quoted at 1.
    rewrite !append_cons, !append_nil_l, !append_assoc, !append_cons, !append_nil_l.
    reflexivity.
Qed.

(** The literal the client sends is read back as the identities it was
    written from, when each can stand between quotes as it is. *)
Lemma read_ids_literal (items : list ExpenseTransaction.t) :
  items <> [] ->
  Forall (fun id => Vocabulary.plain id = true) (map ExpenseTransaction.id items) ->
  Remote.read_in_list ("(" ++ RootApp.ids_literal items ++ ")")
  = Some (map ExpenseTransaction.id items).
Proof.
  intros Hne Hplain. unfold RootApp.ids_literal.
  rewrite <- (map_map ExpenseTransaction.id RootApp.quoted).
  set (ids := map ExpenseTransaction.id items) in *.
  assert (Hids : ids <> []) by (subst ids; destruct items; [congruence | discriminate]).
  pose proof (read_items_join ids _ Hids Hplain (join_quoted_length ids)) as Hread.
  rewrite append_cons, append_nil_l.
  unfold Remote.read_in_list. change (Ascii.eqb "(" "(") with true. cbv iota.
  destruct ids as [|x ids]; [congruence|].
  destruct (join_quoted_shape x ids) as [rest HJ].
  destruct (RootApp.join "," (map RootApp.quoted (x :: ids)) ++ ")")%string
    as [|d [|e J]]; [discriminate HJ | | exact Hread].
  injection HJ as _ HJ. destruct x; discriminate HJ.
Qed.

(** *** What the requests do to the table *)

Lemma upserted_other (payload : list Remote.Row.t) (rows : gmap string Remote.Row.t)
    (k : string) :
  ~ In k (map Remote.Row.id payload) -> Remote.upsert payload rows !! k = rows !! k.
Proof.
  revert rows. induction payload as [|r payload IH]; intros rows Hk; [reflexivity|].
  simpl in Hk. unfold Remote.upsert in *. simpl. rewrite IH by tauto.
  apply lookup_insert_ne. tauto.
Qed.

Lemma upserted_member (payload : list Remote.Row.t) (rows : gmap string Remote.Row.t)
    (row : Remote.Row.t) :
  List.NoDup (map Remote.Row.id payload) -> In row payload ->
  Remote.upsert payload rows !! Remote.Row.id row = Some row.
Proof.
  revert rows. induction payload as [|r payload IH]; intros rows ND HIn; [contradiction|].
  simpl in ND. apply NoDup_cons_iff in ND as [Hr ND].
  unfold Remote.upsert in *. simpl. destruct HIn as [->|HIn].
  - change (Remote.upsert payload (<[Remote.Row.id row:=row]> rows) !! Remote.Row.id row
            = Some row).
    rewrite upserted_other by exact Hr. apply lookup_insert_eq.
  - apply IH; assumption.
Qed.

Lemma in_idsb_In (ids : list string) (k : string) :
  Remote.in_idsb ids k = true <-> In k ids.
Proof.
  unfold Remote.in_idsb. rewrite existsb_exists. split.
  - intros (x & Hx & E). apply String.eqb_eq in E. subst. exact Hx.
  - intros H. exists k. split; [exact H | apply String.eqb_refl].
Qed.

Lemma payload_ids (uid : string) (items : list ExpenseTransaction.t) :
  map Remote.Row.id (RootApp.payload_of uid items) = map ExpenseTransaction.id items.
Proof. unfold RootApp.payload_of. rewrite map_map. reflexivity. Qed.

Lemma payload_user (uid : string) (items : list ExpenseTransaction.t)
    (row : Remote.Row.t) :
  In row (RootApp.payload_of uid items) -> Remote.Row.user_id row = uid.
Proof.
  unfold RootApp.payload_of. rewrite in_map_iff. intros (tx & <- & _). reflexivity.
Qed.

(** *** The run of [saveTransactionsToSupabase] *)

Lemma send_carried_out (q : Remote.Request) (r : Remote.t)
    (rows' : gmap string Remote.Row.t) :
  Remote.faults r = [] -> Remote.carry_out q (Remote.rows r) = Some rows' ->
  Remote.send q r = (Remote.mk rows' (Remote.received r ++ [q]) [], None).
Proof. intros Hf Hc. unfold Remote.send. rewrite Hf, Hc. reflexivity. Qed.

Lemma save_empty (uid : string) (remote : Remote.t) (authError : option string) :
  uid <> EmptyString -> Remote.faults remote = [] ->
  RootApp.saveTransactionsToSupabase (Some uid) [] remote authError
  = (Remote.mk (filter (fun kv => Remote.Row.user_id kv.2 <> uid) (Remote.rows remote))
       (Remote.received remote ++ [Remote.DeleteEq uid]) [],
     authError).
Proof.
  intros Huid Hf. unfold RootApp.saveTransactionsToSupabase.
  apply String.eqb_neq in Huid. rewrite Huid.
  rewrite (send_carried_out (Remote.DeleteEq uid) remote _ Hf eq_refl). reflexivity.
Qed.

Lemma save_nonempty (uid : string) (items : list ExpenseTransaction.t)
    (remote : Remote.t) (authError : option string)
    (rows2 : gmap string Remote.Row.t) :
  uid <> EmptyString -> items <> [] -> Remote.faults remote = [] ->
  Remote.carry_out
    (Remote.DeleteEqNotIn uid ("(" ++ RootApp.ids_literal items ++ ")"))
    (Remote.upsert (RootApp.payload_of uid items) (Remote.rows remote))
  = Some rows2 ->
  RootApp.saveTransactionsToSupabase (Some uid) items remote authError
  = (Remote.mk rows2
       (Remote.received remote
        ++ [Remote.Upsert (RootApp.payload_of uid items);
            Remote.DeleteEqNotIn uid ("(" ++ RootApp.ids_literal items ++ ")")])
       [],
     authError).
Proof.
  intros Huid Hne Hf Hdel. unfold RootApp.saveTransactionsToSupabase.
  apply String.eqb_neq in Huid. rewrite Huid.
  destruct items as [|tx items]; [congruence|]. cbv beta iota.
  remember (tx :: items) as all eqn:Hall.
  rewrite (send_carried_out (Remote.Upsert (RootApp.payload_of uid all)) remote _ Hf eq_refl).
  cbv beta iota zeta.
  rewrite (send_carried_out
             (Remote.DeleteEqNotIn uid ("(" ++ RootApp.ids_literal all ++ ")"))
             (Remote.mk (Remote.upsert (RootApp.payload_of uid all) (Remote.rows remote))
                (Remote.received remote ++ [Remote.Upsert (RootApp.payload_of uid all)])
                [])
             rows2 eq_refl Hdel).
  simpl Remote.received. rewrite <- app_assoc. reflexivity.
Qed.

Lemma upserted_some (payload : list Remote.Row.t) (rows : gmap string Remote.Row.t)
    (k : string) :
  In k (map Remote.Row.id payload) ->
  exists row, In row payload /\ Remote.Row.id row = k
              /\ Remote.upsert payload rows !! k = Some row.
Proof.
  revert rows. induction payload as [|r payload IH]; intros rows Hk; [contradiction|].
  destruct (in_dec string_dec k (map Remote.Row.id payload)) as [Hin|Hout].
  - destruct (IH (<[Remote.Row.id r := r]> rows) Hin) as (row & Hrow & Hid & Hl).
    exists row. split; [right; exact Hrow|]. split; [exact Hid | exact Hl].
  - destruct Hk as [Hk|Hk]; [|contradiction].
    exists r. split; [left; reflexivity|]. split; [exact Hk|].
    change (Remote.upsert payload (<[Remote.Row.id r := r]> rows) !! k = Some r).
    rewrite upserted_other by exact Hout. subst k. apply lookup_insert_eq.
Qed.

(** C8.  While a session is active and the remote answers its requests,
    [saveTransactionsToSupabase] sends, for an empty local set, one
    delete of all the rows of that user and no upsert; for a non-empty
    set, the upsert of one row per local transaction, carrying its id,
    the user, its date, category, description and amount, followed by
    the delete of that user's rows whose id is not in a list.  When the
    local identities are free of double quotes and backslashes (every
    identity [crypto.randomUUID()] returns is), the list reads back as
    the local identities and, afterwards, the rows of that user in the
    remote table mirror the local set: every row of the user is the row
    of a local transaction, stored under its id; every local identity has
    such a row, which is the row of the transaction itself when the local
    identities are pairwise distinct; the rows of other users under other
    ids are as they were; and the error slot is untouched. *)
Theorem saveTransactions_mirrors_local_set
    (uid : string) (items : list ExpenseTransaction.t)
    (remote : Remote.t) (authError : option string) :
  uid <> EmptyString ->
  Remote.faults remote = [] ->
  let row_of tx :=
    Remote.Row.mk (ExpenseTransaction.id tx) uid (ExpenseTransaction.date tx)
      (ExpenseTransaction.category tx) (ExpenseTransaction.description tx)
      (ExpenseTransaction.amount tx) in
  let ids := map ExpenseTransaction.id items in
  let after := RootApp.saveTransactionsToSupabase (Some uid) items remote authError in
  (exists literal,
     Remote.received (fst after)
     = Remote.received remote
       ++ match items with
          | [] => [Remote.DeleteEq uid]
          | _ :: _ =>
              [Remote.Upsert (map row_of items); Remote.DeleteEqNotIn uid literal]
          end
     /\ (Forall (fun id => Vocabulary.plain id = true) ids ->
         Remote.read_in_list literal = Some ids))
  /\ (Forall (fun id => Vocabulary.plain id = true) ids ->
      (forall k row,
         Remote.rows (fst after) !! k = Some row -> Remote.Row.user_id row = uid ->
         exists tx, In tx items /\ k = ExpenseTransaction.id tx /\ row = row_of tx)
      /\ (forall tx, In tx items ->
            exists tx', In tx' items
              /\ ExpenseTransaction.id tx' = ExpenseTransaction.id tx
              /\ Remote.rows (fst after) !! ExpenseTransaction.id tx = Some (row_of tx'))
      /\ (List.NoDup ids ->
          forall tx, In tx items ->
            Remote.rows (fst after) !! ExpenseTransaction.id tx = Some (row_of tx))
      /\ (forall k row,
            Remote.Row.user_id row <> uid -> ~ In k ids ->
            Remote.rows (fst after) !! k = Some row <-> Remote.rows remote !! k = Some row)
      /\ snd after = authError).
Proof.
  intros Huid Hfaults row_of ids after. subst ids after.
  destruct items as [|tx0 items0].
  - rewrite (save_empty uid remote authError Huid Hfaults). simpl fst. simpl snd.
    simpl Remote.rows. simpl Remote.received.
    split; [exists "()"%string; split; [reflexivity | intros _; reflexivity]|].
    intros _. split; [|split; [|split; [|split; [|reflexivity]]]].
    + intros k row Hk Hu. apply map_lookup_filter_Some in Hk as [_ Hk].
      simpl in Hk. contradiction.
    + intros tx [].
    + intros _ tx [].
    + intros k row Hu _. rewrite map_lookup_filter_Some. simpl. tauto.
  - remember (tx0 :: items0) as all eqn:Hall.
    assert (Hne : all <> []) by (subst all; discriminate).
    assert (Hpay : RootApp.payload_of uid all = map row_of all) by reflexivity.
    assert (Hids : map Remote.Row.id (map row_of all) = map ExpenseTransaction.id all).
    { rewrite <- Hpay. apply payload_ids. }
    destruct (Remote.read_in_list ("(" ++ RootApp.ids_literal all ++ ")")) as [read|] eqn:Hread.
    + (* the list is read *)
      rewrite (save_nonempty uid all remote authError
                 (filter
                    (fun kv => ~ (Remote.Row.user_id kv.2 = uid
                                  /\ Remote.in_idsb read kv.1 = false))
                    (Remote.upsert (RootApp.payload_of uid all) (Remote.rows remote)))
                 Huid Hne Hfaults)
        by (unfold Remote.carry_out; rewrite Hread; reflexivity).
      simpl fst. simpl snd. simpl Remote.rows. simpl Remote.received.
      split.
      { exists ("(" ++ RootApp.ids_literal all ++ ")")%string. split.
        - rewrite Hpay. destruct all; [congruence | reflexivity].
        - intros Hplain. apply read_ids_literal; assumption. }
      intros Hplain.
      assert (Hr : read = map ExpenseTransaction.id all).
      { assert (H := read_ids_literal all Hne Hplain). rewrite Hread in H.
        injection H as ->. reflexivity. }
      subst read. rewrite Hpay.
      split; [|split; [|split; [|split; [|reflexivity]]]].
      * intros k row Hk Hu. apply map_lookup_filter_Some in Hk as [Hk Hkeep].
        simpl in Hkeep.
        assert (Hin : In k (map ExpenseTransaction.id all)).
        { apply in_idsb_In. destruct (Remote.in_idsb _ k); [reflexivity|].
          exfalso. apply Hkeep. split; [exact Hu | reflexivity]. }
        rewrite <- Hids in Hin.
        destruct (upserted_some _ (Remote.rows remote) k Hin) as (row' & Hrow' & Hid & Hl).
        rewrite Hl in Hk. injection Hk as ->.
        apply in_map_iff in Hrow' as (tx & <- & Htx).
        exists tx. split; [exact Htx|]. split; [symmetry; exact Hid | reflexivity].
      * intros tx Htx.
        assert (Hin : In (ExpenseTransaction.id tx) (map Remote.Row.id (map row_of all))).
        { rewrite Hids. apply in_map. exact Htx. }
        destruct (upserted_some _ (Remote.rows remote) _ Hin) as (row' & Hrow' & Hid & Hl).
        apply in_map_iff in Hrow' as (tx' & <- & Htx').
        exists tx'. split; [exact Htx'|]. split; [exact Hid|].
        apply map_lookup_filter_Some. split; [exact Hl|]. simpl.
        intros [_ Hno].
        assert (Hin' : In (ExpenseTransaction.id tx) (map ExpenseTransaction.id all))
          by (apply in_map; exact Htx).
        apply in_idsb_In in Hin'. congruence.
      * intros ND tx Htx.
        apply map_lookup_filter_Some. split.
        -- apply (upserted_member (map row_of all) (Remote.rows remote) (row_of tx));
             [rewrite Hids; exact ND | apply in_map; exact Htx].
        -- simpl. intros [_ Hno].
           assert (Hin' : In (ExpenseTransaction.id tx) (map ExpenseTransaction.id all))
          by (apply in_map; exact Htx).
           apply in_idsb_In in Hin'. congruence.
      * intros k row Hu Hk. rewrite map_lookup_filter_Some. simpl.
        rewrite upserted_other by (rewrite Hids; exact Hk).
        tauto.
    + (* the list is not read: the identities are not all plain *)
      split.
      { exists ("(" ++ RootApp.ids_literal all ++ ")")%string. split.
        - unfold RootApp.saveTransactionsToSupabase.
          apply String.eqb_neq in Huid. rewrite Huid.
          rewrite Hall. rewrite <- Hall. cbv beta iota.
          rewrite (send_carried_out (Remote.Upsert (RootApp.payload_of uid all)) remote _
                     Hfaults eq_refl).
          cbv beta iota zeta. unfold Remote.send.
          cbn [Remote.faults Remote.rows Remote.received Remote.carry_out].
          rewrite Hread. cbv beta iota zeta. cbn [fst Remote.received].
          rewrite <- app_assoc, Hpay. destruct all; [congruence | reflexivity].
        - intros Hplain. apply read_ids_literal; assumption. }
      intros Hplain. assert (H := read_ids_literal all Hne Hplain).
      rewrite Hread in H. discriminate H.
Qed.

Lemma saveTransactions_mirrors_local_set_witness :
  let items := [Samples.transaction "a" 12; Samples.transaction "b" 30] in
  let after :=
    RootApp.saveTransactionsToSupabase (Some "user-1") items
      Samples.remote_with_stale_row None in
  Remote.rows (fst after) !! "b"
  = Some (Remote.Row.mk "b" "user-1" "2026-02-14" "Food" "Groceries" 30)
  /\ snd after = None.
Proof.
  intros items after.
  assert (ND : List.NoDup (map ExpenseTransaction.id items)).
  { simpl. repeat constructor; simpl; intuition discriminate. }
  assert (Hplain : Forall (fun id => Vocabulary.plain id = true)
                     (map ExpenseTransaction.id items)).
  { simpl. repeat constructor. }
  assert (Huid : "user-1"%string <> EmptyString) by discriminate.
  destruct (saveTransactions_mirrors_local_set "user-1" items
              Samples.remote_with_stale_row None Huid eq_refl)
    as (_ & H).
  destruct (H Hplain) as (_ & _ & H3 & _ & H5).
  split; [|exact H5].
  apply (H3 ND (Samples.transaction "b" 30)). right. left. reflexivity.
Defined.

(** Without a session nothing is sent. *)
Lemma no_session_sends_nothing (items : list ExpenseTransaction.t)
    (remote : Remote.t) (authError : option string) :
  RootApp.saveTransactionsToSupabase None items remote authError = (remote, authError)
  /\ RootApp.saveTransactionsToSupabase (Some EmptyString) items remote authError
     = (remote, authError).
Proof. split; reflexivity. Qed.

(** When the upsert fails, its message goes to the error slot and the
    delete is not sent. *)
Lemma failed_upsert_stops (uid msg : string) (items : list ExpenseTransaction.t)
    (remote : Remote.t) (rest : list (option string)) (authError : option string) :
  uid <> EmptyString -> items <> [] -> Remote.faults remote = Some msg :: rest ->
  RootApp.saveTransactionsToSupabase (Some uid) items remote authError
  = (Remote.mk (Remote.rows remote)
       (Remote.received remote ++ [Remote.Upsert (RootApp.payload_of uid items)])
       rest,
     Some msg).
Proof.
  intros Huid Hne Hf. unfold RootApp.saveTransactionsToSupabase.
  apply String.eqb_neq in Huid. rewrite Huid.
  destruct items as [|tx items]; [congruence|].
  unfold Remote.send. rewrite Hf. reflexivity.
Qed.

End SyncFacts.

(** ** The summation helper and the addends it skips *)

Module SumFacts.
#[local] Open Scope float_scope.

Lemma alike_refl (x : float) : Numbers.alike x x.
Proof. left. reflexivity. Qed.

Lemma alike_trans (x y z : float) :
  Numbers.alike x y -> Numbers.alike y z -> Numbers.alike x z.
Proof.
  intros [Exy|(s & s' & Ex & Ey)] [Eyz|(t & t' & Ey' & Ez)].
  - left. congruence.
  - right. exists t, t'. split; congruence.
  - right. exists s, s'. split; congruence.
  - right. exists s, t'. split; assumption.
Qed.

(** Adding 0 changes at most the sign of a zero. *)
Lemma add_zero_alike (x : float) : Numbers.alike (x + 0) x.
Proof.
  destruct (FloatFacts.zero_or_not x) as [[s ->]|Hx].
  - right. exists false, s. destruct s; split; reflexivity.
  - left. apply (FloatFacts.zeros_absorbed x Hx).
Qed.

Lemma alike_add (x y b : float) :
  Numbers.alike x y -> Numbers.alike (x + b) (y + b).
Proof.
  intros [->|(s & s' & -> & ->)]; [left; reflexivity|].
  destruct (FloatFacts.zero_or_not b) as [[t ->]|Hb].
  - right. exists (s && t), (s' && t). destruct s, s', t; split; reflexivity.
  - left. destruct (FloatFacts.zeros_absorbed b Hb) as (H0 & Hn & _).
    change (zero + b = b) in H0.
    unfold Numbers.signed_zero. destruct s, s'; congruence.
Qed.

Lemma round2_alike (x y : float) :
  Numbers.alike x y -> AppUtils.round2 x = AppUtils.round2 y.
Proof.
  intros [->|(s & s' & -> & ->)]; [reflexivity|].
  destruct s, s'; vm_compute; reflexivity.
Qed.

Lemma fold_skips_non_finite (nums : list float) (a a' : float) :
  Numbers.alike a a' ->
  Numbers.alike
    (fold_left (fun a b => a + (if JS.isFinite b then b else 0)) nums a)
    (fold_left (fun a b => a + (if JS.isFinite b then b else 0))
       (List.filter JS.isFinite nums) a').
Proof.
  revert a a'. induction nums as [|b nums IH]; intros a a' Ha; simpl; [exact Ha|].
  destruct (JS.isFinite b) eqn:Hb; simpl.
  - rewrite Hb. apply IH. apply alike_add. exact Ha.
  - apply IH. apply (alike_trans _ a); [apply add_zero_alike | exact Ha].
Qed.

(** X1.  The summation helper of [app/utils.ts] ignores the addends that
    are NaN or infinite: the sum of a list is the sum of its finite
    members. *)
Theorem sum_ignores_non_finite (nums : list float) :
  AppUtils.sum nums = AppUtils.sum (List.filter JS.isFinite nums).
Proof.
  unfold AppUtils.sum. apply round2_alike. apply fold_skips_non_finite.
  apply alike_refl.
Qed.

End SumFacts.

(** ** Amounts in whole cents, and loans that cannot be computed *)

Module EmiEdgeFacts.
Import AppTypes.
#[local] Open Scope float_scope.
#[local] Set Warnings "-inexact-float".

(** X2.  An amount of a whole number of cents [k / 100], below 2^22
    cents in magnitude, is finite and is left as it is ([==]) by
    [round2]; so a manual EMI entered in whole cents on a monthly cadence
    is the loan's effective monthly EMI. *)
Theorem round2_keeps_whole_cents (k : Z) :
  (Z.abs k < 2 ^ 22)%Z ->
  is_finite (JS.Z2float k / 100) = true
  /\ (AppUtils.round2 (JS.Z2float k / 100) =? JS.Z2float k / 100) = true
  /\ (forall (Math_pow : float -> float -> float) (loan : Loan.t),
        Loan.autoCalcEmi loan = false ->
        Loan.paymentFrequency loan = monthly ->
        Loan.emi loan = Some (JS.Z2float k / 100) ->
        (AppUtils.getLoanMonthlyEmi Math_pow loan =? JS.Z2float k / 100) = true).
Proof.
  intros Hk.
  assert (H := Round2Facts.cents_fixed k Hk).
  unfold Vocabulary.fixed_cents in H. apply andb_true_iff in H as [Hfin Hfix].
  split; [exact Hfin|]. split; [exact Hfix|].
  intros Math_pow loan Hmanual Hfreq Hemi.
  unfold AppUtils.getLoanMonthlyEmi. rewrite Hmanual, Hfreq, Hemi.
  unfold JS.nullish, AppUtils.monthlyEquivalent, JS.isFinite. rewrite Hfin.
  exact Hfix.
Qed.

Lemma round2_keeps_whole_cents_witness :
  (AppUtils.round2 12.34 =? 12.34) = true
  /\ (AppUtils.getLoanMonthlyEmi (fun _ _ => 1)
        (Loan.mk "l" "Car" Car_loan None GBP None None None (Some 12.34) monthly 0
           None None None false) =? 12.34) = true.
Proof.
  assert (Hk : (Z.abs 1234 < 2 ^ 22)%Z) by reflexivity.
  destruct (round2_keeps_whole_cents 1234 Hk) as (_ & H2 & H3).
  split; [exact H2|]. apply H3; reflexivity.
Defined.

Lemma zero_base_is_zero (freq : PaymentFrequency) :
  AppUtils.round2 (AppUtils.monthlyEquivalent 0 freq) = 0.
Proof. destruct freq; vm_compute; reflexivity. Qed.

(** X3.  The calculator of [app/utils.ts] returns [null] exactly when
    the principal, the rate or the term is missing, is a zero or is NaN,
    or the principal or the term is at most 0; it returns a number on
    every other input.  A loan in auto-calculation mode whose calculator
    returns [null], and a loan in manual mode whose EMI is missing, NaN
    or infinite, has effective monthly EMI 0 at every cadence. *)
Theorem incomplete_loan_has_zero_emi :
  (forall (Math_pow : float -> float -> float) (P annualRate n : option float),
     AppUtils.calcEmiMonthly Math_pow P annualRate n = None
     <-> (JS.falsy P || JS.falsy annualRate || JS.falsy n = true
          \/ exists p m, P = Some p /\ n = Some m /\ (p <=? 0) || (m <=? 0) = true))
  /\ (forall (Math_pow : float -> float -> float) (loan : Loan.t),
        Loan.autoCalcEmi loan = true ->
        AppUtils.calcEmiMonthly Math_pow (Loan.principal loan)
          (Loan.annualRate loan) (Loan.termMonths loan) = None ->
        AppUtils.getLoanMonthlyEmi Math_pow loan = 0)
  /\ (forall (Math_pow : float -> float -> float) (loan : Loan.t),
        Loan.autoCalcEmi loan = false ->
        (Loan.emi loan = None
         \/ exists v, Loan.emi loan = Some v /\ JS.isFinite v = false) ->
        AppUtils.getLoanMonthlyEmi Math_pow loan = 0).
Proof.
  split; [|split].
  - intros Math_pow P annualRate n. unfold AppUtils.calcEmiMonthly.
    destruct (JS.falsy P || JS.falsy annualRate || JS.falsy n) eqn:Hf.
    + split; [left; reflexivity | reflexivity].
    + destruct P as [p|]; [|discriminate Hf].
      destruct annualRate as [r|]; [|simpl in Hf; rewrite orb_true_r in Hf; discriminate Hf].
      destruct n as [m|]; [|simpl in Hf; rewrite orb_true_r in Hf; discriminate Hf].
      destruct ((p <=? 0) || (m <=? 0)) eqn:Hle.
      * split; [|reflexivity]. intros _. right. exists p, m. auto.
      * split.
        -- destruct (r / 100 / 12 =? 0); discriminate.
        -- intros [H|(p' & m' & Ep & Em & H)]; [discriminate H|].
           injection Ep as <-. injection Em as <-. congruence.
  - intros Math_pow loan Hauto Hnull. unfold AppUtils.getLoanMonthlyEmi.
    rewrite Hauto, Hnull. apply zero_base_is_zero.
  - intros Math_pow loan Hmanual Hemi. unfold AppUtils.getLoanMonthlyEmi.
    rewrite Hmanual. destruct Hemi as [->|(v & -> & Hv)].
    + apply zero_base_is_zero.
    + unfold JS.nullish, AppUtils.monthlyEquivalent. rewrite Hv. simpl negb.
      cbv iota. vm_compute. reflexivity.
Qed.

Lemma incomplete_loan_has_zero_emi_witness :
  AppUtils.getLoanMonthlyEmi (fun _ _ => 1) (Samples.auto_loan 12000 0 12 weekly) = 0.
Proof.
  apply (proj1 (proj2 incomplete_loan_has_zero_emi)); reflexivity.
Defined.

End EmiEdgeFacts.

(** ** The month key *)

Module MonthKeyFacts.

Lemma digit_value_char (d : nat) :
  d < 10 -> MonthKey.digit_value (JS.digit_char d) = Some d.
Proof.
  intros H. do 10 (destruct d as [|d]; [reflexivity|]). lia.
Qed.

(** Reading back what [String(n)] writes. *)
Lemma read_dec_digits (fuel n : nat) (acc : string) :
  n < fuel ->
  MonthKey.read_nat (JS.dec_digits fuel n acc) 0 = MonthKey.read_nat acc n.
Proof.
  revert n acc. induction fuel as [|fuel IH]; intros n acc Hn; [lia|].
  cbn [JS.dec_digits].
  destruct (Nat.ltb n 10) eqn:Hlt.
  - apply Nat.ltb_lt in Hlt. rewrite Nat.mod_small by exact Hlt.
    cbn [MonthKey.read_nat]. rewrite digit_value_char by exact Hlt. reflexivity.
  - apply Nat.ltb_ge in Hlt.
    rewrite IH by (apply Nat.Div0.div_lt_upper_bound; lia).
    cbn [MonthKey.read_nat].
    rewrite digit_value_char by (apply Nat.mod_upper_bound; lia).
    f_equal. rewrite (Nat.div_mod_eq n 10) at 3. lia.
Qed.

Lemma dec_digits_append (fuel n : nat) (acc t : string) :
  (JS.dec_digits fuel n acc ++ t)%string = JS.dec_digits fuel n (acc ++ t).
Proof.
  revert n acc. induction fuel as [|fuel IH]; intros n acc; [reflexivity|].
  cbn [JS.dec_digits]. destruct (Nat.ltb n 10); [reflexivity|].
  rewrite IH. reflexivity.
Qed.

Lemma read_String_of_nat (n : nat) (t : string) :
  MonthKey.read_nat (JS.String_of_nat n ++ t) 0 = MonthKey.read_nat t n.
Proof.
  unfold JS.String_of_nat. rewrite dec_digits_append.
  apply read_dec_digits. lia.
Qed.

(** Padding with a zero does not change the number read. *)
Lemma read_padStart2 (s : string) :
  MonthKey.read_nat (JS.padStart2 s) 0 = MonthKey.read_nat s 0.
Proof.
  destruct s as [|c [|d s]]; reflexivity.
Qed.

Lemma read_yyyyMm (date : AppUtils.Date.t) :
  MonthKey.read (AppUtils.yyyyMm date)
  = Some (AppUtils.Date.getFullYear date, AppUtils.Date.getMonth date + 1).
Proof.
  unfold MonthKey.read, AppUtils.yyyyMm.
  rewrite read_String_of_nat.
  rewrite SyncFacts.append_cons, SyncFacts.append_nil_l.
  cbn [MonthKey.read_nat]. change (MonthKey.digit_value "-") with (@None nat).
  cbv iota. change (Ascii.eqb "-" "-") with true. cbv iota.
  rewrite read_padStart2.
  rewrite <- (SyncFacts.append_nil_r (JS.String_of_nat _)).
  rewrite read_String_of_nat. reflexivity.
Qed.

(** X4.  The month key names its month: the year and the month number
    (1 to 12 for a month index 0 to 11) are read back from the key that
    [yyyyMm] builds, and from the key [saveSnapshot] of [App.tsx] builds,
    which is the same text.  So two dates have the same key exactly when
    they are in the same month of the same year. *)
Theorem month_key_round_trip :
  (forall date : AppUtils.Date.t,
     MonthKey.read (AppUtils.yyyyMm date)
     = Some (AppUtils.Date.getFullYear date, AppUtils.Date.getMonth date + 1))
  /\ (forall now : AppUtils.Date.t, RootApp.month_of now = AppUtils.yyyyMm now)
  /\ (forall d1 d2 : AppUtils.Date.t,
        AppUtils.yyyyMm d1 = AppUtils.yyyyMm d2
        <-> AppUtils.Date.getFullYear d1 = AppUtils.Date.getFullYear d2
            /\ AppUtils.Date.getMonth d1 = AppUtils.Date.getMonth d2).
Proof.
  split; [exact read_yyyyMm|]. split; [reflexivity|].
  intros d1 d2. split.
  - intros E. assert (H := read_yyyyMm d1). rewrite E, read_yyyyMm in H.
    injection H as Hy Hm. split; lia.
  - intros [Hy Hm]. unfold AppUtils.yyyyMm. rewrite Hy, Hm. reflexivity.
Qed.

Lemma String_of_nat_4_digits (y : nat) :
  1000 <= y < 10 * 1000 -> String.length (JS.String_of_nat y) = 4.
Proof.
  intros Hy. unfold JS.String_of_nat.
  destruct y as [|[|[|y]]]; [lia ..|].
  remember (S (S (S y))) as n eqn:Hn.
  assert (H1 : Nat.ltb n 10 = false) by (apply Nat.ltb_ge; lia).
  assert (H2 : Nat.ltb (n / 10) 10 = false).
  { apply Nat.ltb_ge. apply Nat.div_le_lower_bound; lia. }
  assert (H3 : Nat.ltb (n / 10 / 10) 10 = false).
  { apply Nat.ltb_ge. rewrite Nat.Div0.div_div. apply Nat.div_le_lower_bound; lia. }
  assert (H4 : Nat.ltb (n / 10 / 10 / 10) 10 = true).
  { apply Nat.ltb_lt. rewrite !Nat.Div0.div_div.
    apply Nat.Div0.div_lt_upper_bound. lia. }
  rewrite Hn at 1. cbn [JS.dec_digits].
  rewrite H1, H2, H3, H4. reflexivity.
Qed.

Lemma month_2_digits (m : nat) :
  m <= 11 -> String.length (JS.padStart2 (JS.String_of_nat (m + 1))) = 2.
Proof.
  intros H. do 12 (destruct m as [|m]; [reflexivity|]). lia.
Qed.

(** X5.  For a four-digit year and a month index 0 to 11 the key is
    seven characters long: four of the year, a hyphen, two of the
    month. *)
Theorem month_key_shape (date : AppUtils.Date.t) :
  1000 <= AppUtils.Date.getFullYear date < 10 * 1000 ->
  AppUtils.Date.getMonth date <= 11 ->
  String.length (AppUtils.yyyyMm date) = 7
  /\ String.get 4 (AppUtils.yyyyMm date) = Some "-"%char.
Proof.
  intros Hy Hm. unfold AppUtils.yyyyMm.
  assert (H4 := String_of_nat_4_digits _ Hy).
  assert (H2 := month_2_digits _ Hm).
  split.
  - rewrite !SyncFacts.length_append, H4, H2. reflexivity.
  - destruct (JS.String_of_nat (AppUtils.Date.getFullYear date))
      as [|a [|b [|c [|d [|e s]]]]]; try discriminate H4.
    reflexivity.
Qed.

Lemma month_key_shape_witness :
  String.length (AppUtils.yyyyMm Samples.feb_2026) = 7
  /\ String.get 4 (AppUtils.yyyyMm Samples.feb_2026) = Some "-"%char.
Proof.
  apply (month_key_shape Samples.feb_2026); simpl; lia.
Defined.

End MonthKeyFacts.

(** ** Snapshots: capturing again, and keys that stay distinct *)

Section ReplaceFacts.
Context {A : Type} (p : A -> bool).

Lemma filter_idem (l : list A) :
  List.filter p (List.filter p l) = List.filter p l.
Proof.
  induction l as [|y l IH]; simpl; [reflexivity|].
  destruct (p y) eqn:E; simpl; [rewrite E, IH; reflexivity | exact IH].
Qed.

Lemma replace_none (x : A) (l : list A) :
  find p l = None -> map (fun y => if p y then x else y) l = l.
Proof.
  induction l as [|y l IH]; simpl; [reflexivity|].
  destruct (p y); [discriminate|]. intros H. rewrite IH by exact H. reflexivity.
Qed.

Lemma find_replace (x : A) (l : list A) :
  p x = true ->
  find p (map (fun y => if p y then x else y) l)
  = match find p l with Some _ => Some x | None => None end.
Proof.
  intros Hx. induction l as [|y l IH]; simpl; [reflexivity|].
  destruct (p y) eqn:E; [rewrite Hx; reflexivity | rewrite E; exact IH].
Qed.

Lemma replace_replace (x x' : A) (l : list A) :
  p x = true ->
  map (fun y => if p y then x' else y) (map (fun y => if p y then x else y) l)
  = map (fun y => if p y then x' else y) l.
Proof.
  intros Hx. rewrite map_map. apply map_ext. intros y.
  destruct (p y) eqn:E; [rewrite Hx | rewrite E]; reflexivity.
Qed.

(** Putting [x] and then [x'] under one key is putting [x']. *)
Lemma put_put (x x' : A) (l : list A) :
  p x = true ->
  let put x l :=
    match find p l with
    | Some _ => map (fun y => if p y then x else y) l
    | None => x :: l
    end in
  put x' (put x l) = put x' l.
Proof.
  intros Hx put. unfold put.
  destruct (find p l) eqn:Hfind.
  - rewrite (find_replace x l Hx), Hfind. apply (replace_replace x x' l Hx).
  - cbn [find]. rewrite Hx. cbn [map]. rewrite Hx.
    rewrite (replace_none x' l Hfind). reflexivity.
Qed.

End ReplaceFacts.

Lemma NoDup_map_filter {A K : Type} (key : A -> K) (f : A -> bool) (l : list A) :
  List.NoDup (map key l) -> List.NoDup (map key (List.filter f l)).
Proof.
  induction l as [|y l IH]; simpl; intros ND; [constructor|].
  apply NoDup_cons_iff in ND as [Hy ND].
  destruct (f y); simpl; [|auto].
  constructor; [|auto].
  intros HIn. apply Hy.
  apply in_map_iff in HIn as (z & Hz & Hf).
  apply filter_In in Hf as [Hf _].
  apply in_map_iff. eauto.
Qed.

Module RecaptureFacts.

(** X6.  Capturing a snapshot twice in one calendar month is capturing
    it once: the state after the second capture is the state the second
    capture alone gives, whatever the first recorded.  In
    [pages/Dashboard.tsx] and in [App.tsx]. *)
Theorem recapture_is_single_capture :
  (forall (fresh1 fresh2 : string) (now1 now2 : AppUtils.Date.t)
      (state : AppTypes.AppState.t),
     AppUtils.yyyyMm now1 = AppUtils.yyyyMm now2 ->
     Dashboard.saveSnapshot fresh2 now2 (Dashboard.saveSnapshot fresh1 now1 state)
     = Dashboard.saveSnapshot fresh2 now2 state)
  /\ (forall (fresh1 stamp1 fresh2 stamp2 : string) (now1 now2 : AppUtils.Date.t)
        (state : RootTypes.AppState.t),
        RootApp.month_of now1 = RootApp.month_of now2 ->
        RootApp.saveSnapshot fresh2 stamp2 now2
          (RootApp.saveSnapshot fresh1 stamp1 now1 state)
        = RootApp.saveSnapshot fresh2 stamp2 now2 state).
Proof.
  split.
  - intros fresh1 fresh2 now1 now2 state Hm.
    unfold Dashboard.saveSnapshot at 1 3. f_equal.
    change (Dashboard.newSnapshot fresh2 now2 (Dashboard.saveSnapshot fresh1 now1 state))
      with (Dashboard.newSnapshot fresh2 now2 state).
    f_equal.
    cbn [AppTypes.AppState.snapshots Dashboard.saveSnapshot].
    set (snap1 := Dashboard.newSnapshot fresh1 now1 state).
    set (snap2 := Dashboard.newSnapshot fresh2 now2 state).
    assert (Hk : forall s, Dashboard.same_key snap2 s = Dashboard.same_key snap1 s).
    { intros s. unfold Dashboard.same_key, snap1, snap2. simpl. rewrite Hm. reflexivity. }
    cbn [List.filter]. rewrite Hk, SnapshotFacts.same_key_refl. cbn [negb].
    rewrite (filter_ext _ (fun s => negb (Dashboard.same_key snap1 s)))
      by (intros s; rewrite Hk; reflexivity).
    rewrite filter_idem.
    apply filter_ext. intros s. rewrite Hk. reflexivity.
  - intros fresh1 stamp1 fresh2 stamp2 now1 now2 state Hm.
    unfold RootApp.saveSnapshot at 1 3.
    change (RootApp.assetsTotal (RootApp.saveSnapshot fresh1 stamp1 now1 state))
      with (RootApp.assetsTotal state).
    change (RootApp.liabilitiesTotal (RootApp.saveSnapshot fresh1 stamp1 now1 state))
      with (RootApp.liabilitiesTotal state).
    set (snap2 := RootApp.defaultSnapshot fresh2 stamp2 (RootApp.month_of now2)
                    (RootApp.assetsTotal state) (RootApp.liabilitiesTotal state)).
    unfold RootApp.saveSnapshot. rewrite Hm.
    set (p := fun item => String.eqb (RootTypes.Snapshot.month item) (RootApp.month_of now2)).
    set (snap1 := RootApp.defaultSnapshot fresh1 stamp1 (RootApp.month_of now2)
                    (RootApp.assetsTotal state) (RootApp.liabilitiesTotal state)).
    assert (Hp : p snap1 = true) by apply String.eqb_refl.
    unfold RootApp.with_snapshots. cbn [RootTypes.AppState.snapshots
      RootTypes.AppState.loans RootTypes.AppState.assets RootTypes.AppState.liabilities
      RootTypes.AppState.budget RootTypes.AppState.expenseTransactions].
    f_equal.
    exact (put_put p snap1 snap2 (RootTypes.AppState.snapshots state) Hp).
Qed.

Lemma recapture_is_single_capture_witness :
  Dashboard.saveSnapshot "s2" Samples.feb_2026
    (Dashboard.saveSnapshot "s1" Samples.feb_2026 (Samples.app_state []))
  = Dashboard.saveSnapshot "s2" Samples.feb_2026 (Samples.app_state [])
  /\ RootApp.saveSnapshot "s2" "t2" Samples.feb_2026
       (RootApp.saveSnapshot "s1" "t1" Samples.feb_2026 (Samples.root_state []))
     = RootApp.saveSnapshot "s2" "t2" Samples.feb_2026 (Samples.root_state []).
Proof.
  split.
  - apply (proj1 recapture_is_single_capture). reflexivity.
  - apply (proj2 recapture_is_single_capture). reflexivity.
Defined.

Lemma same_key_eq (snap s : AppTypes.Snapshot.t) :
  (AppTypes.Snapshot.month s, AppTypes.Snapshot.currency s)
  = (AppTypes.Snapshot.month snap, AppTypes.Snapshot.currency snap) ->
  Dashboard.same_key snap s = true.
Proof.
  intros E. injection E as Hm Hc. unfold Dashboard.same_key.
  rewrite Hm, Hc, String.eqb_refl, SnapshotFacts.Currency_eqb_refl. reflexivity.
Qed.

(** X7.  Capturing keeps the snapshot keys distinct: if no two
    snapshots share their month and currency ([pages/Dashboard.tsx]),
    respectively their month ([App.tsx]), no two do after a capture. *)
Theorem saveSnapshot_keeps_keys_distinct :
  (forall (fresh : string) (now : AppUtils.Date.t) (state : AppTypes.AppState.t),
     List.NoDup
       (map (fun s => (AppTypes.Snapshot.month s, AppTypes.Snapshot.currency s))
          (AppTypes.AppState.snapshots state)) ->
     List.NoDup
       (map (fun s => (AppTypes.Snapshot.month s, AppTypes.Snapshot.currency s))
          (AppTypes.AppState.snapshots (Dashboard.saveSnapshot fresh now state))))
  /\ (forall (fresh stamp : string) (now : AppUtils.Date.t)
        (state : RootTypes.AppState.t),
        List.NoDup (map RootTypes.Snapshot.month (RootTypes.AppState.snapshots state)) ->
        List.NoDup
          (map RootTypes.Snapshot.month
             (RootTypes.AppState.snapshots
                (RootApp.saveSnapshot fresh stamp now state)))).
Proof.
  split.
  - intros fresh now state ND. unfold Dashboard.saveSnapshot.
    cbn [AppTypes.AppState.snapshots map].
    set (snap := Dashboard.newSnapshot fresh now state).
    constructor; [|apply NoDup_map_filter; exact ND].
    intros HIn. apply in_map_iff in HIn as (s & Hs & Hf).
    apply filter_In in Hf as [_ Hf].
    rewrite (same_key_eq snap s Hs) in Hf. discriminate Hf.
  - intros fresh stamp now state ND. unfold RootApp.saveSnapshot.
    set (snapshot := RootApp.defaultSnapshot _ _ _ _ _).
    cbn [RootTypes.AppState.snapshots RootApp.with_snapshots].
    destruct (find _ (RootTypes.AppState.snapshots state)) eqn:Hfind.
    + change (RootApp.month_of now) with (RootTypes.Snapshot.month snapshot).
      rewrite (map_key_replace RootTypes.Snapshot.month). exact ND.
    + cbn [map]. constructor; [|exact ND].
      intros HIn. apply in_map_iff in HIn as (s & Hs & HIn).
      apply (find_none _ _ Hfind) in HIn. simpl in HIn.
      rewrite Hs in HIn. unfold snapshot in HIn. simpl in HIn.
      rewrite String.eqb_refl in HIn. discriminate HIn.
Qed.

Lemma saveSnapshot_keeps_keys_distinct_witness :
  List.NoDup
    (map RootTypes.Snapshot.month
       (RootTypes.AppState.snapshots
          (RootApp.saveSnapshot "n" "t" Samples.feb_2026
             (Samples.root_state [Samples.root_snapshot "a" "2026-02" 1 0])))).
Proof.
  apply (proj2 saveSnapshot_keeps_keys_distinct).
  simpl. repeat constructor. simpl. tauto.
Defined.

End RecaptureFacts.

(** ** Entries kept by identity: looking up, replacing, removing *)

Section KeyedListFacts.
Context {A : Type} (key : A -> string).

Lemma lookup_upsert (x : A) (l : list A) :
  KeyedList.lookup key (key x) (KeyedList.upsert key x l) = Some x.
Proof.
  unfold KeyedList.lookup, KeyedList.upsert.
  destruct (existsb _ l) eqn:Ex.
  - induction l as [|y l IH]; simpl in *; [discriminate|].
    destruct (String.eqb (key y) (key x)) eqn:E.
    + rewrite String.eqb_refl. reflexivity.
    + rewrite E. apply IH. exact Ex.
  - simpl. rewrite String.eqb_refl. reflexivity.
Qed.

Lemma lookup_upsert_other (k : string) (x : A) (l : list A) :
  k <> key x ->
  KeyedList.lookup key k (KeyedList.upsert key x l) = KeyedList.lookup key k l.
Proof.
  intros Hk. unfold KeyedList.lookup, KeyedList.upsert.
  assert (Hx : String.eqb (key x) k = false) by (apply String.eqb_neq; congruence).
  destruct (existsb _ l).
  - induction l as [|y l IH]; simpl; [reflexivity|].
    destruct (String.eqb_spec (key y) (key x)) as [E|E].
    + rewrite Hx, E, Hx. exact IH.
    + destruct (String.eqb (key y) k); [reflexivity | exact IH].
  - simpl. rewrite Hx. reflexivity.
Qed.

Lemma upsert_upsert (x : A) (l : list A) :
  KeyedList.upsert key x (KeyedList.upsert key x l) = KeyedList.upsert key x l.
Proof.
  unfold KeyedList.upsert at 1 3.
  destruct (existsb (fun y => String.eqb (key y) (key x)) l) eqn:Ex.
  - unfold KeyedList.upsert. rewrite Ex.
    assert (Ex' : existsb (fun y => String.eqb (key y) (key x))
                    (map (fun y => if String.eqb (key y) (key x) then x else y) l) = true).
    { apply (existsb_key_In key). rewrite (map_key_replace key).
      apply (existsb_key_In key). exact Ex. }
    rewrite Ex'. rewrite map_map. apply map_ext. intros y.
    destruct (String.eqb (key y) (key x)) eqn:E;
      [rewrite String.eqb_refl | rewrite E]; reflexivity.
  - unfold KeyedList.upsert. rewrite Ex. simpl.
    rewrite String.eqb_refl. simpl. f_equal.
    apply (replace_absent key). apply (existsb_key_not_In key). exact Ex.
Qed.

Lemma length_upsert (x : A) (l : list A) :
  length (KeyedList.upsert key x l)
  = if existsb (fun y => String.eqb (key y) (key x)) l then length l else S (length l).
Proof.
  unfold KeyedList.upsert. destruct (existsb _ l); [apply length_map | reflexivity].
Qed.

Lemma lookup_remove (k : string) (l : list A) :
  KeyedList.lookup key k (KeyedList.remove key k l) = None.
Proof.
  unfold KeyedList.lookup, KeyedList.remove.
  induction l as [|y l IH]; simpl; [reflexivity|].
  destruct (String.eqb (key y) k) eqn:E; simpl; [exact IH | rewrite E; exact IH].
Qed.

Lemma lookup_remove_other (k k' : string) (l : list A) :
  k' <> k ->
  KeyedList.lookup key k' (KeyedList.remove key k l) = KeyedList.lookup key k' l.
Proof.
  intros Hk. unfold KeyedList.lookup, KeyedList.remove.
  induction l as [|y l IH]; simpl; [reflexivity|].
  destruct (String.eqb_spec (key y) k) as [E|E]; simpl.
  - destruct (String.eqb_spec (key y) k') as [E'|E']; [congruence | exact IH].
  - destruct (String.eqb (key y) k'); [reflexivity | exact IH].
Qed.

Lemma remove_absent (k : string) (l : list A) :
  ~ In k (map key l) -> KeyedList.remove key k l = l.
Proof.
  unfold KeyedList.remove. induction l as [|y l IH]; simpl; intros H; [reflexivity|].
  destruct (String.eqb_spec (key y) k) as [E|E]; [tauto|].
  simpl. rewrite IH; tauto.
Qed.

Lemma not_In_remove (k : string) (l : list A) :
  ~ In k (map key (KeyedList.remove key k l)).
Proof.
  unfold KeyedList.remove. rewrite in_map_iff. intros (y & Hy & HIn).
  apply filter_In in HIn as [_ HIn]. rewrite Hy, String.eqb_refl in HIn.
  discriminate HIn.
Qed.

Lemma remove_upsert (x : A) (l : list A) :
  KeyedList.remove key (key x) (KeyedList.upsert key x l)
  = KeyedList.remove key (key x) l.
Proof.
  unfold KeyedList.remove, KeyedList.upsert.
  destruct (existsb _ l).
  - induction l as [|y l IH]; simpl; [reflexivity|].
    destruct (String.eqb (key y) (key x)) eqn:E; simpl.
    + rewrite String.eqb_refl. simpl. exact IH.
    + rewrite E. simpl. rewrite IH. reflexivity.
  - simpl. rewrite String.eqb_refl. reflexivity.
Qed.

Lemma NoDup_upsert (x : A) (l : list A) :
  List.NoDup (map key l) -> List.NoDup (map key (KeyedList.upsert key x l)).
Proof.
  intros ND. unfold KeyedList.upsert.
  destruct (existsb _ l) eqn:Ex.
  - rewrite (map_key_replace key). exact ND.
  - simpl. constructor; [apply (existsb_key_not_In key); exact Ex | exact ND].
Qed.

Lemma NoDup_remove (k : string) (l : list A) :
  List.NoDup (map key l) -> List.NoDup (map key (KeyedList.remove key k l)).
Proof. apply (NoDup_map_key_filter key). Qed.

End KeyedListFacts.

Module PageListFacts.
Import AppTypes.

(** X8.  [upsertLoan] stores the loan under its identity and touches no
    other: afterwards the loan found under that identity is the one
    given, the loan found under any other identity is the one found
    before, and the list has grown by one exactly when the identity was
    new.  Storing the same loan twice is storing it once. *)
Theorem upsertLoan_stores_under_identity (next : Loan.t) (state : AppState.t) :
  KeyedList.lookup Loan.id (Loan.id next)
    (AppState.loans (LoansPage.upsertLoan next state)) = Some next
  /\ (forall id, id <> Loan.id next ->
        KeyedList.lookup Loan.id id (AppState.loans (LoansPage.upsertLoan next state))
        = KeyedList.lookup Loan.id id (AppState.loans state))
  /\ length (AppState.loans (LoansPage.upsertLoan next state))
     = match KeyedList.lookup Loan.id (Loan.id next) (AppState.loans state) with
       | Some _ => length (AppState.loans state)
       | None => S (length (AppState.loans state))
       end
  /\ LoansPage.upsertLoan next (LoansPage.upsertLoan next state)
     = LoansPage.upsertLoan next state.
Proof.
  change (AppState.loans (LoansPage.upsertLoan next state))
    with (KeyedList.upsert Loan.id next (AppState.loans state)).
  split; [apply lookup_upsert|].
  split; [intros id Hid; apply lookup_upsert_other; exact Hid|].
  split.
  - rewrite length_upsert. unfold KeyedList.lookup.
    destruct (existsb _ (AppState.loans state)) eqn:Ex.
    + apply existsb_exists in Ex as (y & HIn & Hy).
      destruct (find _ (AppState.loans state)) eqn:Hf; [reflexivity|].
      apply (find_none _ _ Hf) in HIn. simpl in HIn. congruence.
    + destruct (find _ (AppState.loans state)) eqn:Hf; [|reflexivity].
      apply find_some in Hf as [HIn Hy].
      assert (Ex' : existsb (fun y => String.eqb (Loan.id y) (Loan.id next))
                      (AppState.loans state) = true)
        by (apply existsb_exists; eauto).
      congruence.
  - change (LoansPage.upsertLoan next (LoansPage.upsertLoan next state))
      with (LoansPage.with_loans state
              (KeyedList.upsert Loan.id next
                 (KeyedList.upsert Loan.id next (AppState.loans state)))).
    rewrite upsert_upsert. reflexivity.
Qed.

Lemma upsertLoan_stores_under_identity_witness :
  let state := Samples.app_state [Samples.loan "a"; Samples.loan "b"] in
  KeyedList.lookup Loan.id "a"
    (AppState.loans (LoansPage.upsertLoan (Samples.loan "b") state))
  = KeyedList.lookup Loan.id "a" (AppState.loans state).
Proof.
  intros state.
  apply (proj1 (proj2 (upsertLoan_stores_under_identity (Samples.loan "b") state))).
  discriminate.
Defined.

(** X9.  [removeLoan] removes the identity and nothing else: afterwards
    no loan is found under it, the loan found under any other identity is
    the one found before, and removing an identity the list does not hold
    changes nothing.  Removing the loan just stored under a new identity
    gives the loan list back. *)
Theorem removeLoan_removes_identity (id : string) (state : AppState.t) :
  KeyedList.lookup Loan.id id (AppState.loans (LoansPage.removeLoan id state)) = None
  /\ ~ In id (map Loan.id (AppState.loans (LoansPage.removeLoan id state)))
  /\ (forall id', id' <> id ->
        KeyedList.lookup Loan.id id' (AppState.loans (LoansPage.removeLoan id state))
        = KeyedList.lookup Loan.id id' (AppState.loans state))
  /\ (~ In id (map Loan.id (AppState.loans state)) ->
      AppState.loans (LoansPage.removeLoan id state) = AppState.loans state)
  /\ (forall next : Loan.t,
        Loan.id next = id -> ~ In id (map Loan.id (AppState.loans state)) ->
        AppState.loans (LoansPage.removeLoan id (LoansPage.upsertLoan next state))
        = AppState.loans state).
Proof.
  change (AppState.loans (LoansPage.removeLoan id state))
    with (KeyedList.remove Loan.id id (AppState.loans state)).
  split; [apply lookup_remove|].
  split; [apply not_In_remove|].
  split; [intros id' H; apply lookup_remove_other; exact H|].
  split; [apply remove_absent|].
  intros next <- Hnew.
  change (AppState.loans (LoansPage.removeLoan (Loan.id next)
                            (LoansPage.upsertLoan next state)))
    with (KeyedList.remove Loan.id (Loan.id next)
            (KeyedList.upsert Loan.id next (AppState.loans state))).
  rewrite remove_upsert. apply remove_absent. exact Hnew.
Qed.

Lemma removeLoan_removes_identity_witness :
  let state := Samples.app_state [Samples.loan "a"] in
  AppState.loans (LoansPage.removeLoan "n" (LoansPage.upsertLoan (Samples.loan "n") state))
  = AppState.loans state.
Proof.
  intros state.
  destruct (removeLoan_removes_identity "n" state) as (_ & _ & _ & _ & H).
  apply (H (Samples.loan "n")); [reflexivity|].
  simpl. intuition discriminate.
Defined.

(** X10.  [pages/Liabilities.tsx]: [upsert] and [remove] keep the
    identities of the liabilities pairwise distinct; after [upsert] the
    liability found under its identity is the one given and the others
    are found as before; after [remove] none is found under the removed
    identity and the others are found as before. *)
Theorem liabilities_upsert_remove (l : Liability.t) (id : string) (state : AppState.t) :
  List.NoDup (map Liability.id (AppState.liabilities state)) ->
  List.NoDup (map Liability.id (AppState.liabilities (LiabilitiesPage.upsert l state)))
  /\ List.NoDup (map Liability.id (AppState.liabilities (LiabilitiesPage.remove id state)))
  /\ KeyedList.lookup Liability.id (Liability.id l)
       (AppState.liabilities (LiabilitiesPage.upsert l state)) = Some l
  /\ (forall k, k <> Liability.id l ->
        KeyedList.lookup Liability.id k
          (AppState.liabilities (LiabilitiesPage.upsert l state))
        = KeyedList.lookup Liability.id k (AppState.liabilities state))
  /\ KeyedList.lookup Liability.id id
       (AppState.liabilities (LiabilitiesPage.remove id state)) = None
  /\ (forall k, k <> id ->
        KeyedList.lookup Liability.id k
          (AppState.liabilities (LiabilitiesPage.remove id state))
        = KeyedList.lookup Liability.id k (AppState.liabilities state)).
Proof.
  intros ND.
  change (AppState.liabilities (LiabilitiesPage.upsert l state))
    with (KeyedList.upsert Liability.id l (AppState.liabilities state)).
  change (AppState.liabilities (LiabilitiesPage.remove id state))
    with (KeyedList.remove Liability.id id (AppState.liabilities state)).
  split; [apply NoDup_upsert; exact ND|].
  split; [apply NoDup_remove; exact ND|].
  split; [apply lookup_upsert|].
  split; [intros k H; apply lookup_upsert_other; exact H|].
  split; [apply lookup_remove|].
  intros k H. apply lookup_remove_other. exact H.
Qed.

Lemma liabilities_upsert_remove_witness :
  let state := Samples.balance_sheet [] [Samples.liability 10] in
  List.NoDup
    (map Liability.id
       (AppState.liabilities (LiabilitiesPage.upsert (Samples.liability 20) state)))
  /\ KeyedList.lookup Liability.id "liability-1"
       (AppState.liabilities (LiabilitiesPage.upsert (Samples.liability 20) state))
     = Some (Samples.liability 20).
Proof.
  intros state.
  assert (ND : List.NoDup (map Liability.id (AppState.liabilities state))).
  { simpl. repeat constructor. simpl. tauto. }
  destruct (liabilities_upsert_remove (Samples.liability 20) "x" state ND)
    as (H1 & _ & H3 & _).
  split; [exact H1 | exact H3].
Defined.

(** X11.  [pages/Assets.tsx]: [upsert] and [remove] keep the identities
    of the assets pairwise distinct; after [upsert] the asset found under
    its identity is the one given and the others are found as before;
    after [remove] none is found under the removed identity and the
    others are found as before. *)
Theorem assets_upsert_remove (a : Asset.t) (id : string) (state : AppState.t) :
  List.NoDup (map Asset.id (AppState.assets state)) ->
  List.NoDup (map Asset.id (AppState.assets (AssetsPage.upsert a state)))
  /\ List.NoDup (map Asset.id (AppState.assets (AssetsPage.remove id state)))
  /\ KeyedList.lookup Asset.id (Asset.id a)
       (AppState.assets (AssetsPage.upsert a state)) = Some a
  /\ (forall k, k <> Asset.id a ->
        KeyedList.lookup Asset.id k (AppState.assets (AssetsPage.upsert a state))
        = KeyedList.lookup Asset.id k (AppState.assets state))
  /\ KeyedList.lookup Asset.id id (AppState.assets (AssetsPage.remove id state)) = None
  /\ (forall k, k <> id ->
        KeyedList.lookup Asset.id k (AppState.assets (AssetsPage.remove id state))
        = KeyedList.lookup Asset.id k (AppState.assets state)).
Proof.
  intros ND.
  change (AppState.assets (AssetsPage.upsert a state))
    with (KeyedList.upsert Asset.id a (AppState.assets state)).
  change (AppState.assets (AssetsPage.remove id state))
    with (KeyedList.remove Asset.id id (AppState.assets state)).
  split; [apply NoDup_upsert; exact ND|].
  split; [apply NoDup_remove; exact ND|].
  split; [apply lookup_upsert|].
  split; [intros k H; apply lookup_upsert_other; exact H|].
  split; [apply lookup_remove|].
  intros k H. apply lookup_remove_other. exact H.
Qed.

Lemma assets_upsert_remove_witness :
  let state := Samples.balance_sheet [Samples.asset 10] [] in
  List.NoDup
    (map Asset.id (AppState.assets (AssetsPage.upsert (Samples.asset 20) state)))
  /\ KeyedList.lookup Asset.id "asset-1"
       (AppState.assets (AssetsPage.upsert (Samples.asset 20) state))
     = Some (Samples.asset 20).
Proof.
  intros state.
  assert (ND : List.NoDup (map Asset.id (AppState.assets state))).
  { simpl. repeat constructor. simpl. tauto. }
  destruct (assets_upsert_remove (Samples.asset 20) "x" state ND)
    as (H1 & _ & H3 & _).
  split; [exact H1 | exact H3].
Defined.

End PageListFacts.

(** ** Totals: one currency at a time, and the same on every page *)

Module TotalsFacts.
Import AppTypes.
#[local] Open Scope float_scope.

(** X12.  The Dashboard's totals read the entries held in the display
    currency and no other: dropping every loan, asset and liability held
    in another currency changes none of the assets total, the liabilities
    total, the net worth and the monthly EMI total. *)
Theorem totals_ignore_other_currencies
    (Math_pow : float -> float -> float) (state : AppState.t) :
  let shown :=
    {| AppState.currency := AppState.currency state;
       AppState.loans :=
         List.filter
           (fun l => Currency_eqb (Loan.currency l) (AppState.currency state))
           (AppState.loans state);
       AppState.assets :=
         List.filter
           (fun a => Currency_eqb (Asset.currency a) (AppState.currency state))
           (AppState.assets state);
       AppState.liabilities :=
         List.filter
           (fun l => Currency_eqb (Liability.currency l) (AppState.currency state))
           (AppState.liabilities state);
       AppState.snapshots := AppState.snapshots state |} in
  Dashboard.assetsTotal shown = Dashboard.assetsTotal state
  /\ Dashboard.liabilitiesTotal shown = Dashboard.liabilitiesTotal state
  /\ Dashboard.netWorth shown = Dashboard.netWorth state
  /\ Dashboard.monthlyEmiTotal Math_pow shown = Dashboard.monthlyEmiTotal Math_pow state.
Proof.
  intros shown.
  assert (Ha : Dashboard.assetsTotal shown = Dashboard.assetsTotal state).
  { unfold Dashboard.assetsTotal, shown. cbn [AppState.assets AppState.currency].
    rewrite filter_idem. reflexivity. }
  assert (Hl : Dashboard.liabilitiesTotal shown = Dashboard.liabilitiesTotal state).
  { unfold Dashboard.liabilitiesTotal, shown.
    cbn [AppState.liabilities AppState.loans AppState.currency].
    rewrite !filter_idem. reflexivity. }
  split; [exact Ha|]. split; [exact Hl|]. split.
  - unfold Dashboard.netWorth. rewrite Ha, Hl. reflexivity.
  - unfold Dashboard.monthlyEmiTotal, shown. cbn [AppState.loans AppState.currency].
    rewrite filter_idem. reflexivity.
Qed.

Lemma fold_finite_terms {A : Type} (g : A -> float) (l : list A) (acc : float) :
  (forall x, In x l -> is_finite (g x) = true) ->
  fold_left (fun a x => a + g x) l acc
  = fold_left (fun a b => a + (if JS.isFinite b then b else 0)) (map g l) acc.
Proof.
  revert acc. induction l as [|x l IH]; intros acc H; simpl; [reflexivity|].
  unfold JS.isFinite at 2. rewrite (H x) by (left; reflexivity).
  apply IH. intros y Hy. apply H. right. exact Hy.
Qed.

(** X13.  The monthly EMI total in the header of the Loans page is the
    one the Dashboard shows, whenever the effective EMI of every loan in
    the display currency is finite. *)
Theorem loans_header_total_is_dashboard_total
    (Math_pow : float -> float -> float) (state : AppState.t) :
  (forall l, In l (AppState.loans state) ->
     Currency_eqb (Loan.currency l) (AppState.currency state) = true ->
     is_finite (AppUtils.getLoanMonthlyEmi Math_pow l) = true) ->
  LoansPageEmi.shownEmiTotal Math_pow state = Dashboard.monthlyEmiTotal Math_pow state.
Proof.
  intros H. unfold LoansPageEmi.shownEmiTotal, LoansPageEmi.monthlyEmiTotal,
    Dashboard.monthlyEmiTotal, AppUtils.sum.
  f_equal. apply fold_finite_terms.
  intros l Hl. apply filter_In in Hl as [HIn Hc]. apply H; assumption.
Qed.

Lemma loans_header_total_is_dashboard_total_witness :
  let state := Samples.app_state [Samples.loan "a"; Samples.loan "b"] in
  LoansPageEmi.shownEmiTotal (fun _ _ => 1) state
  = Dashboard.monthlyEmiTotal (fun _ _ => 1) state.
Proof.
  intros state. apply (loans_header_total_is_dashboard_total (fun _ _ => 1) state).
  intros l [<-|[<-|[]]] _; vm_compute; reflexivity.
Defined.

End TotalsFacts.

(** ** The transaction sync: failures, repetition, and loading back *)

Module SyncMoreFacts.
Import RootTypes.

(** The run of a sync the remote carries out. *)
Lemma save_carried_out (uid : string) (items : list ExpenseTransaction.t)
    (remote : Remote.t) (authError : option string) :
  uid <> EmptyString ->
  Remote.faults remote = [] ->
  Forall (fun id => Vocabulary.plain id = true) (map ExpenseTransaction.id items) ->
  exists received,
    RootApp.saveTransactionsToSupabase (Some uid) items remote authError
    = (Remote.mk (Synced.rows uid items (Remote.rows remote)) received [], authError).
Proof.
  intros Huid Hf Hplain. destruct items as [|tx items].
  - eexists. apply SyncFacts.save_empty; assumption.
  - eexists. apply SyncFacts.save_nonempty; try assumption; [discriminate|].
    unfold Remote.carry_out.
    rewrite SyncFacts.read_ids_literal by (assumption || discriminate).
    reflexivity.
Qed.

(** The rows of the user after a sync are the local transactions. *)
Lemma synced_rows_of_user (uid : string) (items : list ExpenseTransaction.t)
    (before : gmap string Remote.Row.t) (k : string) (row : Remote.Row.t) :
  List.NoDup (map ExpenseTransaction.id items) ->
  Synced.rows uid items before !! k = Some row /\ Remote.Row.user_id row = uid
  <-> In row (RootApp.payload_of uid items) /\ k = Remote.Row.id row.
Proof.
  intros ND. unfold Synced.rows. destruct items as [|tx items].
  - rewrite map_lookup_filter_Some. simpl. tauto.
  - remember (tx :: items) as all eqn:Hall.
    rewrite map_lookup_filter_Some. simpl. split.
    + intros [[Hk Hkeep] Hu].
      assert (Hin : In k (map ExpenseTransaction.id all)).
      { apply SyncFacts.in_idsb_In. destruct (Remote.in_idsb _ k); [reflexivity|].
        exfalso. apply Hkeep. split; [exact Hu | reflexivity]. }
      rewrite <- (SyncFacts.payload_ids uid) in Hin.
      apply in_map_iff in Hin as (row' & <- & Hrow').
      rewrite SyncFacts.upserted_member in Hk
        by (rewrite ?SyncFacts.payload_ids; assumption).
      injection Hk as ->. split; [assumption | reflexivity].
    + intros [Hrow ->].
      assert (Hu := SyncFacts.payload_user uid all row Hrow).
      split; [split|exact Hu].
      * apply SyncFacts.upserted_member;
          [rewrite SyncFacts.payload_ids; exact ND | exact Hrow].
      * intros [_ Hno].
        assert (Hin : In (Remote.Row.id row) (map ExpenseTransaction.id all)).
        { rewrite <- (SyncFacts.payload_ids uid). apply in_map. exact Hrow. }
        apply SyncFacts.in_idsb_In in Hin. congruence.
Qed.

(** X14.  What a sync does when it cannot complete.  Without a session
    (no user id, or an empty one) nothing is sent and the error slot is
    left alone.  When the upsert fails, its message goes to the error
    slot, the delete is not sent and the table is as it was.  When the
    upsert succeeds and the delete fails, the message of the delete goes
    to the error slot and the table holds the upserted rows next to those
    it held.  When the local set is empty and the delete fails, the table
    is as it was. *)
Theorem sync_failures (items : list ExpenseTransaction.t) (remote : Remote.t)
    (authError : option string) :
  RootApp.saveTransactionsToSupabase None items remote authError = (remote, authError)
  /\ RootApp.saveTransactionsToSupabase (Some EmptyString) items remote authError
     = (remote, authError)
  /\ (forall (uid msg : string) (rest : list (option string)),
        uid <> EmptyString -> items <> [] ->
        Remote.faults remote = Some msg :: rest ->
        RootApp.saveTransactionsToSupabase (Some uid) items remote authError
        = (Remote.mk (Remote.rows remote)
             (Remote.received remote ++ [Remote.Upsert (RootApp.payload_of uid items)])
             rest,
           Some msg))
  /\ (forall (uid msg : string) (rest : list (option string)),
        uid <> EmptyString -> items <> [] ->
        Remote.faults remote = None :: Some msg :: rest ->
        RootApp.saveTransactionsToSupabase (Some uid) items remote authError
        = (Remote.mk
             (Remote.upsert (RootApp.payload_of uid items) (Remote.rows remote))
             (Remote.received remote
              ++ [Remote.Upsert (RootApp.payload_of uid items);
                  Remote.DeleteEqNotIn uid ("(" ++ RootApp.ids_literal items ++ ")")])
             rest,
           Some msg))
  /\ (forall (uid msg : string) (rest : list (option string)),
        uid <> EmptyString -> items = [] ->
        Remote.faults remote = Some msg :: rest ->
        RootApp.saveTransactionsToSupabase (Some uid) items remote authError
        = (Remote.mk (Remote.rows remote)
             (Remote.received remote ++ [Remote.DeleteEq uid]) rest,
           Some msg)).
Proof.
  split; [reflexivity|]. split; [reflexivity|]. split; [|split].
  - intros uid msg rest Huid Hne Hf. unfold RootApp.saveTransactionsToSupabase.
    apply String.eqb_neq in Huid. rewrite Huid.
    destruct items as [|tx items]; [congruence|].
    unfold Remote.send. rewrite Hf. reflexivity.
  - intros uid msg rest Huid Hne Hf. unfold RootApp.saveTransactionsToSupabase.
    apply String.eqb_neq in Huid. rewrite Huid.
    destruct items as [|tx items]; [congruence|].
    remember (tx :: items) as all eqn:Hall.
    unfold Remote.send. rewrite Hf. cbn [Remote.carry_out Remote.faults Remote.rows
      Remote.received]. cbv beta iota zeta.
    rewrite <- app_assoc. reflexivity.
  - intros uid msg rest Huid -> Hf. unfold RootApp.saveTransactionsToSupabase.
    apply String.eqb_neq in Huid. rewrite Huid.
    unfold Remote.send. rewrite Hf. reflexivity.
Qed.

Lemma sync_failures_witness :
  let remote :=
    Remote.mk (Remote.rows Samples.remote_with_stale_row) [] [None; Some "timeout"] in
  let items := [Samples.transaction "a" 12] in
  snd (RootApp.saveTransactionsToSupabase (Some "user-1") items remote None)
  = Some "timeout".
Proof.
  intros remote items.
  destruct (sync_failures items remote None) as (_ & _ & _ & H & _).
  rewrite (H "user-1" "timeout" [] ltac:(discriminate) ltac:(discriminate) eq_refl).
  reflexivity.
Defined.

(** X15.  Syncing the same local set again changes nothing: after a
    sync the remote carried out, a second sync of the same transactions
    leaves the table as the first left it, and the error slot alone. *)
Theorem sync_twice_is_sync_once
    (uid : string) (items : list ExpenseTransaction.t)
    (remote : Remote.t) (authError authError' : option string) :
  uid <> EmptyString ->
  Remote.faults remote = [] ->
  List.NoDup (map ExpenseTransaction.id items) ->
  Forall (fun id => Vocabulary.plain id = true) (map ExpenseTransaction.id items) ->
  let once := fst (RootApp.saveTransactionsToSupabase (Some uid) items remote authError) in
  let twice := RootApp.saveTransactionsToSupabase (Some uid) items once authError' in
  Remote.rows (fst twice) = Remote.rows once /\ snd twice = authError'.
Proof.
  intros Huid Hf ND Hplain once twice. subst once twice.
  destruct (save_carried_out uid items remote authError Huid Hf Hplain) as [r1 ->].
  cbn [fst].
  destruct (save_carried_out uid items
              (Remote.mk (Synced.rows uid items (Remote.rows remote)) r1 [])
              authError' Huid eq_refl Hplain) as [r2 ->].
  cbn [fst snd Remote.rows]. split; [|reflexivity].
  apply map_eq. intros k. apply option_eq. intros row.
  unfold Synced.rows at 1. destruct items as [|tx items].
  - unfold Synced.rows. rewrite !map_lookup_filter_Some. tauto.
  - remember (tx :: items) as all eqn:Hall.
    rewrite map_lookup_filter_Some. cbn [fst snd].
    destruct (in_dec string_dec k (map ExpenseTransaction.id all)) as [Hin|Hout].
    + rewrite <- (SyncFacts.payload_ids uid) in Hin.
      apply in_map_iff in Hin as (row' & <- & Hrow').
      assert (ND' : List.NoDup (map Remote.Row.id (RootApp.payload_of uid all)))
        by (rewrite SyncFacts.payload_ids; exact ND).
      rewrite (SyncFacts.upserted_member _ _ row' ND' Hrow').
      assert (H1 : Synced.rows uid all (Remote.rows remote) !! Remote.Row.id row'
                   = Some row').
      { apply (synced_rows_of_user uid all (Remote.rows remote) _ row' ND).
        split; [exact Hrow' | reflexivity]. }
      rewrite H1. split; [tauto|].
      intros E. split; [exact E|]. injection E as <-.
      intros [_ Hno].
      assert (Hin : In (Remote.Row.id row') (map ExpenseTransaction.id all)).
      { rewrite <- (SyncFacts.payload_ids uid). apply in_map. exact Hrow'. }
      apply SyncFacts.in_idsb_In in Hin. congruence.
    + rewrite SyncFacts.upserted_other by (rewrite SyncFacts.payload_ids; exact Hout).
      split; [tauto|]. intros H. split; [exact H|].
      unfold Synced.rows in H. rewrite Hall in H. rewrite <- Hall in H.
      apply map_lookup_filter_Some in H as [_ H]. exact H.
Qed.

Lemma sync_twice_is_sync_once_witness :
  let items := [Samples.transaction "a" 12; Samples.transaction "b" 30] in
  let once :=
    fst (RootApp.saveTransactionsToSupabase (Some "user-1") items
           Samples.remote_with_stale_row None) in
  Remote.rows (fst (RootApp.saveTransactionsToSupabase (Some "user-1") items once None))
  = Remote.rows once.
Proof.
  intros items once.
  assert (ND : List.NoDup (map ExpenseTransaction.id items)).
  { simpl. repeat constructor; simpl; intuition discriminate. }
  assert (Hplain : Forall (fun id => Vocabulary.plain id = true)
                     (map ExpenseTransaction.id items)).
  { simpl. repeat constructor. }
  assert (Huid : "user-1"%string <> EmptyString) by discriminate.
  exact (proj1 (sync_twice_is_sync_once "user-1" items Samples.remote_with_stale_row
                  None None Huid eq_refl ND Hplain)).
Defined.

Lemma In_insert_by_date (r x : RemoteLoad.Returned.t) (l : list RemoteLoad.Returned.t) :
  In x (RemoteLoad.insert_by_date r l) <-> x = r \/ In x l.
Proof.
  induction l as [|y l IH]; simpl; [intuition congruence|].
  destruct (String.ltb _ _); simpl; [rewrite IH|]; intuition congruence.
Qed.

Lemma In_order_by_date_desc (x : RemoteLoad.Returned.t) (l : list RemoteLoad.Returned.t) :
  In x (RemoteLoad.order_by_date_desc l) <-> In x l.
Proof.
  induction l as [|y l IH]; simpl; [tauto|].
  rewrite In_insert_by_date, IH. intuition congruence.
Qed.

(** X16.  Saving the local transactions and loading them back returns
    them: after a sync the remote carried out, what
    [loadTransactionsFromSupabase] puts in the state for that user is the
    local set, every transaction with its date, category, description and
    amount; the rest of the state, the table and the error slot are left
    alone. *)
Theorem transactions_round_trip
    (uid : string) (items : list ExpenseTransaction.t)
    (remote : Remote.t) (authError : option string) (state : AppState.t) :
  uid <> EmptyString ->
  Remote.faults remote = [] ->
  List.NoDup (map ExpenseTransaction.id items) ->
  Forall (fun id => Vocabulary.plain id = true) (map ExpenseTransaction.id items) ->
  let saved := RootApp.saveTransactionsToSupabase (Some uid) items remote authError in
  let loaded :=
    RemoteLoad.loadTransactionsFromSupabase uid (fst saved) state (snd saved) in
  (forall tx, In tx (AppState.expenseTransactions (snd (fst loaded))) <-> In tx items)
  /\ snd (fst loaded)
     = RemoteLoad.with_transactions state
         (AppState.expenseTransactions (snd (fst loaded)))
  /\ Remote.rows (fst (fst loaded)) = Remote.rows (fst saved)
  /\ snd loaded = authError.
Proof.
  intros Huid Hf ND Hplain saved loaded. subst saved loaded.
  destruct (save_carried_out uid items remote authError Huid Hf Hplain) as [r1 ->].
  cbn [fst snd].
  unfold RemoteLoad.loadTransactionsFromSupabase, RemoteLoad.select.
  cbn [Remote.faults Remote.rows Remote.received fst snd JS.nullish
       RemoteLoad.with_transactions AppState.expenseTransactions].
  split; [|repeat split].
  intros tx. rewrite in_map_iff. split.
  - intros (r & <- & Hr).
    apply (proj1 (In_order_by_date_desc _ _)) in Hr.
    apply in_map_iff in Hr as (row & <- & Hrow).
    apply filter_In in Hrow as [Hrow Hu]. apply String.eqb_eq in Hu.
    apply in_map_iff in Hrow as ([k row'] & E & Hk). simpl in E. subst row'.
    apply (proj2 (list_elem_of_In _ _)) in Hk. apply elem_of_map_to_list in Hk.
    destruct (proj1 (synced_rows_of_user uid items (Remote.rows remote) k row ND)
                (conj Hk Hu)) as [Hp _].
    unfold RootApp.payload_of in Hp. apply in_map_iff in Hp as (tx & <- & Htx).
    destruct tx; exact Htx.
  - intros Htx.
    set (row := {| Remote.Row.id := ExpenseTransaction.id tx;
                   Remote.Row.user_id := uid;
                   Remote.Row.date := ExpenseTransaction.date tx;
                   Remote.Row.category := ExpenseTransaction.category tx;
                   Remote.Row.description := ExpenseTransaction.description tx;
                   Remote.Row.amount := ExpenseTransaction.amount tx |}).
    exists (RemoteLoad.returned row). split; [destruct tx; reflexivity|].
    apply In_order_by_date_desc. apply in_map. apply filter_In.
    split; [|apply String.eqb_refl].
    assert (Hp : In row (RootApp.payload_of uid items)).
    { unfold RootApp.payload_of. apply in_map_iff. exists tx. split; [reflexivity | exact Htx]. }
    destruct (proj2 (synced_rows_of_user uid items (Remote.rows remote)
                       (Remote.Row.id row) row ND) (conj Hp eq_refl)) as [Hk _].
    apply in_map_iff. exists (Remote.Row.id row, row). split; [reflexivity|].
    apply list_elem_of_In. apply elem_of_map_to_list. exact Hk.
Qed.

Lemma transactions_round_trip_witness :
  let items := [Samples.transaction "a" 12; Samples.transaction "b" 30] in
  let saved :=
    RootApp.saveTransactionsToSupabase (Some "user-1") items
      Samples.remote_with_stale_row None in
  let loaded :=
    RemoteLoad.loadTransactionsFromSupabase "user-1" (fst saved)
      (Samples.root_state []) (snd saved) in
  In (Samples.transaction "b" 30) (AppState.expenseTransactions (snd (fst loaded))).
Proof.
  intros items saved loaded.
  assert (ND : List.NoDup (map ExpenseTransaction.id items)).
  { simpl. repeat constructor; simpl; intuition discriminate. }
  assert (Hplain : Forall (fun id => Vocabulary.plain id = true)
                     (map ExpenseTransaction.id items)).
  { simpl. repeat constructor. }
  assert (Huid : "user-1"%string <> EmptyString) by discriminate.
  apply (proj1 (transactions_round_trip "user-1" items Samples.remote_with_stale_row
                  None (Samples.root_state []) Huid eq_refl ND Hplain)).
  right. left. reflexivity.
Defined.

End SyncMoreFacts.

(** ** Local storage: saving and loading back *)

Module StorageMoreFacts.
Import Json.

Lemma union_covered (state defaults : object) :
  (forall k, is_Some (defaults !! k) -> is_Some (state !! k)) ->
  state ∪ defaults = state.
Proof.
  intros H. apply map_eq. intros k. rewrite lookup_union.
  destruct (state !! k) as [v|] eqn:Hs.
  - destruct (defaults !! k); reflexivity.
  - destruct (defaults !! k) as [d|] eqn:Hd; [|reflexivity].
    destruct (H k) as [v Hv]; [rewrite Hd; eauto | congruence].
Qed.

(** X17.  A state saved to [localStorage] is the state loaded back:
    whenever [JSON.parse] reads the text [JSON.stringify] wrote for it,
    [loadState] after [saveState] returns the saved state laid over the
    defaults, which is the saved state itself when it has every default
    field.  The two variants write under different keys: saving with one
    does not change what the other loads. *)
Theorem saved_state_loads_back
    (JSON_parse : string -> option Json.t) (JSON_stringify : object -> string)
    (state : object) (localStorage : gmap string string) :
  JSON_stringify state <> EmptyString ->
  JSON_parse (JSON_stringify state) = Some (JObject state) ->
  AppStorage.loadState JSON_parse
    (AppStorageSave.saveState JSON_stringify state localStorage)
  = state ∪ AppStorage.defaultState
  /\ RootStorage.loadState JSON_parse
       (RootStorageSave.saveState JSON_stringify state localStorage)
     = state ∪ RootStorage.emptyState
  /\ ((forall k, is_Some (AppStorage.defaultState !! k) -> is_Some (state !! k)) ->
      AppStorage.loadState JSON_parse
        (AppStorageSave.saveState JSON_stringify state localStorage) = state)
  /\ ((forall k, is_Some (RootStorage.emptyState !! k) -> is_Some (state !! k)) ->
      RootStorage.loadState JSON_parse
        (RootStorageSave.saveState JSON_stringify state localStorage) = state)
  /\ RootStorage.loadState JSON_parse
       (AppStorageSave.saveState JSON_stringify state localStorage)
     = RootStorage.loadState JSON_parse localStorage
  /\ AppStorage.loadState JSON_parse
       (RootStorageSave.saveState JSON_stringify state localStorage)
     = AppStorage.loadState JSON_parse localStorage.
Proof.
  intros Hne Hparse.
  apply String.eqb_neq in Hne.
  assert (HA : AppStorage.loadState JSON_parse
                 (AppStorageSave.saveState JSON_stringify state localStorage)
               = state ∪ AppStorage.defaultState).
  { unfold AppStorage.loadState, AppStorageSave.saveState.
    rewrite lookup_insert_eq, Hne, Hparse. reflexivity. }
  assert (HR : RootStorage.loadState JSON_parse
                 (RootStorageSave.saveState JSON_stringify state localStorage)
               = state ∪ RootStorage.emptyState).
  { unfold RootStorage.loadState, RootStorageSave.saveState.
    rewrite lookup_insert_eq, Hne, Hparse. reflexivity. }
  split; [exact HA|]. split; [exact HR|].
  split; [intros H; rewrite HA; apply union_covered; exact H|].
  split; [intros H; rewrite HR; apply union_covered; exact H|].
  split.
  - unfold RootStorage.loadState, AppStorageSave.saveState.
    rewrite lookup_insert_ne by discriminate. reflexivity.
  - unfold AppStorage.loadState, RootStorageSave.saveState.
    rewrite lookup_insert_ne by discriminate. reflexivity.
Qed.

Lemma saved_state_loads_back_witness :
  let state : object :=
    {[ "assets" := JArray [JObject {[ "value" := JNumber 100%float ]}] ]} in
  RootStorage.loadState Samples.parse_one_asset
    (RootStorageSave.saveState (fun _ => Samples.one_asset_blob) state ∅)
  = state ∪ RootStorage.emptyState.
Proof.
  intros state.
  assert (Hne : (fun _ : object => Samples.one_asset_blob) state <> EmptyString).
  { cbv beta. intros H. apply (f_equal String.length) in H. vm_compute in H.
    discriminate H. }
  assert (Hparse : Samples.parse_one_asset
                     ((fun _ : object => Samples.one_asset_blob) state)
                   = Some (JObject state)).
  { cbv beta. unfold Samples.parse_one_asset. rewrite String.eqb_refl. reflexivity. }
  exact (proj1 (proj2 (saved_state_loads_back Samples.parse_one_asset
                         (fun _ => Samples.one_asset_blob) state ∅ Hne Hparse))).
Defined.

End StorageMoreFacts.

(** ** The hash router *)

Module RouterFacts.
Import AppRouter.

(** X18.  Every navigation link leads to its page: the route read from
    the [href] of a route is that route.  An empty hash is the Dashboard,
    and a page other than the Dashboard is reached only when the hash,
    its first ["#"] taken out, is that page's path. *)
Theorem links_lead_to_their_page :
  (forall r : Route, getRouteFromHash (href r) = r)
  /\ getRouteFromHash EmptyString = Home
  /\ (forall (hash : string) (r : Route),
        getRouteFromHash hash = r -> r <> Home ->
        hash <> EmptyString /\ remove_first_hash hash = path r).
Proof.
  split; [intros r; destruct r; reflexivity|]. split; [reflexivity|].
  intros hash r Hr Hnot. unfold getRouteFromHash in Hr.
  destruct (String.eqb_spec hash EmptyString) as [->|Hne].
  - simpl in Hr. congruence.
  - split; [exact Hne|].
    destruct (String.eqb_spec (remove_first_hash hash) "/loans") as [E|_];
      [subst r; exact E|].
    destruct (String.eqb_spec (remove_first_hash hash) "/assets") as [E|_];
      [subst r; exact E|].
    destruct (String.eqb_spec (remove_first_hash hash) "/liabilities") as [E|_];
      [subst r; exact E|].
    congruence.
Qed.

Lemma links_lead_to_their_page_witness :
  remove_first_hash "#/assets" = path Assets.
Proof.
  apply (proj2 (proj2 links_lead_to_their_page) "#/assets" Assets);
    [reflexivity | discriminate].
Defined.

End RouterFacts.

(** ** The forms *)

Module FormFacts.
Import AppTypes.
#[local] Open Scope float_scope.

Lemma falsy_number_or_undefined (x : float) :
  JS.falsy (Form.number_or_undefined x) = JS.falsy (Some x).
Proof.
  unfold Form.number_or_undefined.
  destruct (JS.falsy (Some x)) eqn:E; [reflexivity | exact E].
Qed.

Lemma number_or_zero_not_nan (x : float) : is_nan (Form.number_or_zero x) = false.
Proof.
  unfold Form.number_or_zero. destruct (JS.falsy (Some x)) eqn:E; [reflexivity|].
  unfold JS.falsy in E. apply orb_false_iff in E as [_ E]. exact E.
Qed.

Lemma text_or_not_empty (s fallback : string) :
  fallback <> EmptyString -> Form.text_or s fallback <> EmptyString.
Proof.
  intros H. unfold Form.text_or.
  destruct (String.eqb_spec s EmptyString) as [E|E]; assumption.
Qed.

(** What the calculator makes of the stored fields is what it makes of
    the typed ones. *)
Lemma calc_of_stored (Math_pow : float -> float -> float) (P r n : float) :
  AppUtils.calcEmiMonthly Math_pow (Form.number_or_undefined P)
    (Form.number_or_undefined r) (Form.number_or_undefined n)
  = AppUtils.calcEmiMonthly Math_pow (Some P) (Some r) (Some n).
Proof.
  unfold AppUtils.calcEmiMonthly. rewrite !falsy_number_or_undefined.
  destruct (JS.falsy (Some P)) eqn:HP; [reflexivity|].
  destruct (JS.falsy (Some r)) eqn:Hr; [reflexivity|].
  destruct (JS.falsy (Some n)) eqn:Hn; [reflexivity|].
  unfold Form.number_or_undefined. rewrite HP, Hr, Hn. reflexivity.
Qed.

(** X19.  The loan that [LoanModal] saves.  It keeps the identity of
    the loan being edited and takes the fresh one otherwise; its name is
    never empty and its outstanding balance is never NaN.  With
    auto-calculation on it has no manual EMI, and the calculator gives
    for the saved loan what the form previewed, although a field typed
    as 0 is stored as absent; so the loan's effective monthly EMI is the
    preview (0 when there is none), normalized and rounded.  With
    auto-calculation off its manual EMI is present and is not NaN. *)
Theorem loan_form_saves_what_it_previews
    (String_trim : string -> string) (Math_pow : float -> float -> float)
    (fresh : string) (initial : option Loan.t) (currency : Currency)
    (form : LoanModal.t) :
  let loan := LoanModal.save String_trim fresh initial currency form in
  Loan.id loan = match initial with Some i => Loan.id i | None => fresh end
  /\ Loan.name loan <> EmptyString
  /\ is_nan (Loan.outstandingBalance loan) = false
  /\ (LoanModal.autoCalc form = true ->
      Loan.emi loan = None
      /\ AppUtils.calcEmiMonthly Math_pow (Loan.principal loan)
           (Loan.annualRate loan) (Loan.termMonths loan)
         = LoanModal.calcPreview Math_pow form
      /\ AppUtils.getLoanMonthlyEmi Math_pow loan
         = AppUtils.round2
             (AppUtils.monthlyEquivalent
                (JS.nullish (LoanModal.calcPreview Math_pow form) 0)
                (LoanModal.paymentFrequency form)))
  /\ (LoanModal.autoCalc form = false ->
      exists v, Loan.emi loan = Some v /\ is_nan v = false
        /\ AppUtils.getLoanMonthlyEmi Math_pow loan
           = AppUtils.round2
               (AppUtils.monthlyEquivalent v (LoanModal.paymentFrequency form))).
Proof.
  intros loan. subst loan.
  split; [reflexivity|].
  split; [apply text_or_not_empty; discriminate|].
  split; [apply number_or_zero_not_nan|].
  split.
  - intros Hauto.
    assert (Hcalc :
      AppUtils.calcEmiMonthly Math_pow
        (Loan.principal (LoanModal.save String_trim fresh initial currency form))
        (Loan.annualRate (LoanModal.save String_trim fresh initial currency form))
        (Loan.termMonths (LoanModal.save String_trim fresh initial currency form))
      = LoanModal.calcPreview Math_pow form).
    { cbn [LoanModal.save Loan.principal Loan.annualRate Loan.termMonths].
      rewrite Hauto. apply calc_of_stored. }
    split; [cbn [LoanModal.save Loan.emi]; rewrite Hauto; reflexivity|].
    split; [exact Hcalc|].
    unfold AppUtils.getLoanMonthlyEmi. rewrite Hcalc.
    cbn [LoanModal.save Loan.autoCalcEmi Loan.paymentFrequency].
    rewrite Hauto. reflexivity.
  - intros Hmanual. exists (Form.number_or_zero (LoanModal.emi form)).
    split; [cbn [LoanModal.save Loan.emi]; rewrite Hmanual; reflexivity|].
    split; [apply number_or_zero_not_nan|].
    unfold AppUtils.getLoanMonthlyEmi.
    cbn [LoanModal.save Loan.autoCalcEmi Loan.paymentFrequency Loan.emi].
    rewrite Hmanual. reflexivity.
Qed.

Lemma loan_form_saves_what_it_previews_witness :
  let form :=
    LoanModal.mk "Car" Car_loan "Bank" 9000 "" weekly true 12000 0 12 0 in
  let loan := LoanModal.save (fun s => s) "id-1" None GBP form in
  Loan.annualRate loan = None
  /\ AppUtils.calcEmiMonthly (fun _ _ => 1) (Loan.principal loan)
       (Loan.annualRate loan) (Loan.termMonths loan)
     = LoanModal.calcPreview (fun _ _ => 1) form.
Proof.
  intros form loan. split; [reflexivity|].
  destruct (loan_form_saves_what_it_previews (fun s => s) (fun _ _ => 1)
              "id-1" None GBP form) as (_ & _ & _ & H & _).
  exact (proj1 (proj2 (H eq_refl))).
Defined.

(** X20.  The asset and the liability that [AssetModal] and
    [LiabilityModal] save keep the identity of the entry being edited and
    take the fresh one otherwise, are held in the currency of the page,
    have a name that is never empty and a value, respectively an
    outstanding amount, that is never NaN; a liability's rate typed as 0
    (or as any number [!] is true of) is stored as absent, and any other
    rate is stored as typed.  Handed to the page's [upsert], the saved
    entry is the one found under its identity. *)
Theorem asset_and_liability_forms
    (String_trim : string -> string) (fresh : string) (state : AppState.t) :
  (forall (initial : option Asset.t) (form : AssetModal.t),
     let a := AssetModal.save String_trim fresh initial (AppState.currency state) form in
     Asset.id a = match initial with Some i => Asset.id i | None => fresh end
     /\ Asset.currency a = AppState.currency state
     /\ Asset.name a <> EmptyString
     /\ is_nan (Asset.value a) = false
     /\ KeyedList.lookup Asset.id (Asset.id a)
          (AppState.assets (AssetsPage.upsert a state)) = Some a)
  /\ (forall (initial : option Liability.t) (form : LiabilityModal.t),
        let l :=
          LiabilityModal.save String_trim fresh initial (AppState.currency state) form in
        Liability.id l = match initial with Some i => Liability.id i | None => fresh end
        /\ Liability.currency l = AppState.currency state
        /\ Liability.name l <> EmptyString
        /\ is_nan (Liability.outstanding l) = false
        /\ (LiabilityModal.annualRate form = 0 -> Liability.annualRate l = None)
        /\ (JS.falsy (Some (LiabilityModal.annualRate form)) = true ->
            Liability.annualRate l = None)
        /\ (JS.falsy (Some (LiabilityModal.annualRate form)) = false ->
            Liability.annualRate l = Some (LiabilityModal.annualRate form))
        /\ KeyedList.lookup Liability.id (Liability.id l)
             (AppState.liabilities (LiabilitiesPage.upsert l state)) = Some l).
Proof.
  split.
  - intros initial form a.
    split; [reflexivity|]. split; [reflexivity|].
    split; [apply text_or_not_empty; discriminate|].
    split; [apply number_or_zero_not_nan|].
    apply (lookup_upsert Asset.id).
  - intros initial form l.
    split; [reflexivity|]. split; [reflexivity|].
    split; [apply text_or_not_empty; discriminate|].
    split; [apply number_or_zero_not_nan|].
    split; [intros H; subst l; cbn [LiabilityModal.save Liability.annualRate];
            rewrite H; reflexivity|].
    split; [intros H; subst l; cbn [LiabilityModal.save Liability.annualRate];
            unfold Form.number_or_undefined; rewrite H; reflexivity|].
    split; [intros H; subst l; cbn [LiabilityModal.save Liability.annualRate];
            unfold Form.number_or_undefined; rewrite H; reflexivity|].
    apply (lookup_upsert Liability.id).
Qed.

Lemma asset_and_liability_forms_witness :
  Liability.annualRate
    (LiabilityModal.save (fun s => s) "id-1" None GBP
       (LiabilityModal.mk "Card" "Credit card" 250 "" 0))
  = None.
Proof.
  destruct (proj2 (asset_and_liability_forms (fun s => s) "id-1"
                     (Samples.balance_sheet [] [])) None
              (LiabilityModal.mk "Card" "Credit card" 250 "" 0))
    as (_ & _ & _ & _ & H & _).
  apply H. reflexivity.
Defined.

End FormFacts.

(** ** [App.tsx] (root variant): entries added and removed *)

Module RootListFacts.
Import RootTypes.
#[local] Open Scope float_scope.

(** X21.  [addTransaction] adds nothing when the description is empty
    or the amount is at most 0, and otherwise puts one transaction in
    front, with the typed date, category, description and amount under
    the fresh identity.  So it keeps every transaction with a
    description and an amount that is not at most 0, and keeps the
    identities distinct when the fresh one is new; [removeTransaction]
    of the identity just added gives the list back. *)
Theorem addTransaction_accepts_described_positive
    (fresh : string) (form : BudgetView.t)
    (transactions : list ExpenseTransaction.t) :
  let after := BudgetView.addTransaction fresh form transactions in
  let accepted tx :=
    ExpenseTransaction.description tx <> EmptyString
    /\ (ExpenseTransaction.amount tx <=? 0) = false in
  (BudgetView.txDescription form = EmptyString
   \/ (BudgetView.txAmount form <=? 0) = true -> after = transactions)
  /\ (BudgetView.txDescription form <> EmptyString ->
      (BudgetView.txAmount form <=? 0) = false ->
      after
      = ExpenseTransaction.mk fresh (BudgetView.txDate form)
          (BudgetView.txCategory form) (BudgetView.txDescription form)
          (BudgetView.txAmount form)
        :: transactions)
  /\ (Forall accepted transactions -> Forall accepted after)
  /\ (List.NoDup (map ExpenseTransaction.id transactions) ->
      ~ In fresh (map ExpenseTransaction.id transactions) ->
      List.NoDup (map ExpenseTransaction.id after)
      /\ BudgetView.removeTransaction fresh after = transactions).
Proof.
  intros after accepted. subst after. unfold BudgetView.addTransaction.
  destruct (String.eqb_spec (BudgetView.txDescription form) EmptyString) as [Hd|Hd];
    destruct (BudgetView.txAmount form <=? 0) eqn:Ha; cbn [orb].
  - repeat split; try tauto; try congruence.
    apply (remove_absent ExpenseTransaction.id). tauto.
  - repeat split; try tauto; try congruence.
    apply (remove_absent ExpenseTransaction.id). tauto.
  - repeat split; try tauto; try congruence.
    apply (remove_absent ExpenseTransaction.id). tauto.
  - split; [intros [H|H]; congruence|].
    split; [reflexivity|].
    split.
    + intros H. constructor; [|exact H]. split; assumption.
    + intros ND Hnew. split; [simpl; constructor; assumption|].
      unfold BudgetView.removeTransaction. cbn [List.filter ExpenseTransaction.id].
      rewrite String.eqb_refl. cbn [negb].
      apply (remove_absent ExpenseTransaction.id). exact Hnew.
Qed.

Lemma addTransaction_accepts_described_positive_witness :
  BudgetView.addTransaction "t1" (BudgetView.mk "2026-02-14" "Food" "Milk" 3) []
  = [ExpenseTransaction.mk "t1" "2026-02-14" "Food" "Milk" 3].
Proof.
  apply (proj1 (proj2 (addTransaction_accepts_described_positive "t1"
                         (BudgetView.mk "2026-02-14" "Food" "Milk" 3) [])));
    [discriminate | reflexivity].
Defined.

Lemma zero_first (l : list float) :
  RootUtils.sum (0 :: l) = RootUtils.sum l.
Proof. reflexivity. Qed.

(** X22.  A blank entry changes no total: [addLoan] changes none of
    the monthly EMI total, the liabilities total and the net worth, and
    [addItem] changes neither the left-over of the budget view nor the
    income and expense totals.  Removing the entry just added, under an
    identity that is new, gives the list back. *)
Theorem blank_entries_change_no_total
    (Math_pow : float -> float -> float) (fresh today : string) :
  (forall state : AppState.t,
     RootApp.loansMonthlyEmi Math_pow (RootLists.addLoan fresh today state)
     = RootApp.loansMonthlyEmi Math_pow state
     /\ RootApp.liabilitiesTotal (RootLists.addLoan fresh today state)
        = RootApp.liabilitiesTotal state
     /\ RootApp.netWorth (RootLists.addLoan fresh today state) = RootApp.netWorth state
     /\ RootApp.budgetLeftOver Math_pow (RootLists.addLoan fresh today state)
        = RootApp.budgetLeftOver Math_pow state
     /\ (~ In fresh (map Loan.id (AppState.loans state)) ->
         AppState.loans (RootLists.removeLoan fresh (RootLists.addLoan fresh today state))
         = AppState.loans state))
  /\ (forall (listKey : BudgetView.ListKey) (data : BudgetData.t) (emi : float),
        BudgetView.leftOver (BudgetView.addItem fresh listKey data) emi
        = BudgetView.leftOver data emi
        /\ (~ In fresh (map BudgetItem.id (BudgetView.get data listKey)) ->
            BudgetView.removeItem listKey fresh (BudgetView.addItem fresh listKey data)
            = data)).
Proof.
  split.
  - intros state.
    assert (He : RootApp.loansMonthlyEmi Math_pow (RootLists.addLoan fresh today state)
                 = RootApp.loansMonthlyEmi Math_pow state) by reflexivity.
    assert (Hl : RootApp.liabilitiesTotal (RootLists.addLoan fresh today state)
                 = RootApp.liabilitiesTotal state) by reflexivity.
    split; [exact He|]. split; [exact Hl|].
    split; [unfold RootApp.netWorth; rewrite Hl; reflexivity|].
    split; [unfold RootApp.budgetLeftOver, RootApp.budgetMonthlyExpense; rewrite He;
            reflexivity|].
    intros Hnew. unfold RootLists.removeLoan, RootLists.addLoan.
    cbn [AppState.loans RootLists.with_loans List.filter RootLists.defaultLoan Loan.id].
    rewrite String.eqb_refl. cbn [negb].
    apply (remove_absent Loan.id). exact Hnew.
  - intros listKey data emi. split.
    + destruct listKey; reflexivity.
    + intros Hnew. destruct listKey, data as [inc exp];
        unfold BudgetView.removeItem, BudgetView.addItem;
        cbn [BudgetView.get BudgetView.set BudgetData.income BudgetData.expenses
             List.filter BudgetView.defaultBudgetItem BudgetItem.id] in *;
        rewrite String.eqb_refl; cbn [negb]; f_equal;
        apply (remove_absent BudgetItem.id); exact Hnew.
Qed.

Lemma blank_entries_change_no_total_witness :
  let state := Samples.root_state [] in
  AppState.loans (RootLists.removeLoan "n" (RootLists.addLoan "n" "2026-02-14" state))
  = AppState.loans state.
Proof.
  intros state.
  destruct (proj1 (blank_entries_change_no_total (fun _ _ => 1) "n" "2026-02-14") state)
    as (_ & _ & _ & _ & H).
  apply H. simpl. tauto.
Defined.

End RootListFacts.
